(** * ICD-LM: the candidate-scoring engine, the caption post-processing
      and the random candidate sampler

    A shallow embedding of [utils.py] ([get_info_score], [get_cider_score],
    [caption_postprocess]) and of [candidate_sampler/random_sampler.py]
    ([RandSampler.sample]).

    Python values are modelled as follows.
    - [int] is [Z]; [str] is [string] (a sequence of one-byte characters);
      [list] is [list]; [Optional[str]] is [option string].
    - a call either returns or raises: [result A] is [Ok a] or [Raise e];
    - the candidate set (a [dict] whose keys are only ever read sorted) is a
      [gmap Z Example]; the accumulator [output_dict], whose iteration order
      is observable, is an insertion-ordered association list;
    - the model interface, the CIDEr metric and the random generator live
      outside these files: they are section variables, and every call of the
      expensive ones is recorded in a trace of events;
    - tensor entries are an abstract type [score] with an abstract
      subtraction [sub]; one-dimensional tensors are [list score]. *)

From Stdlib Require Import ZArith QArith Ascii String List Sorting.Sorted.
From stdpp Require Import base option list gmap sorting strings.

Local Open Scope string_scope.
Local Open Scope list_scope.
Local Open Scope Z_scope.

(** ** Exceptions and results *)

Inductive exn : Type :=
| ValueError_construct_order (got : string)
    (* raise ValueError(f"the construct_order should be left or right, ...") *)
| ValueError_islice          (* more_itertools.chunked with a negative n *)
| ValueError_empty_separator (* str.split with an empty separator *)
| ValueError_sample          (* random.sample: larger than population or negative *)
| IndexError
| KeyError
| TypeError
| RuntimeError_cat_empty     (* torch.cat of an empty list of tensors *)
| RuntimeError_broadcast.    (* tensor sizes that do not broadcast *)

Inductive result (A : Type) : Type :=
| Ok (a : A)
| Raise (e : exn).
Arguments Ok {A} a.
Arguments Raise {A} e.

Definition rbind {A B} (r : result A) (f : A → result B) : result B :=
  match r with
  | Ok a => f a
  | Raise e => Raise e
  end.

Fixpoint rmapM {A B} (f : A → result B) (l : list A) : result (list B) :=
  match l with
  | [] => Ok []
  | x :: l' =>
      rbind (f x) (λ y, rbind (rmapM f l') (λ ys, Ok (y :: ys)))
  end.

Definition is_ok {A} (r : result A) : bool :=
  match r with Ok _ => true | Raise _ => false end.

(** ** Python string operations *)

Module PyStr.

(** [sub in s] *)
Fixpoint contains (sub s : string) : bool :=
  if String.prefix sub s then true
  else match s with
       | EmptyString => false
       | String _ s' => contains sub s'
       end.

(** [s.split(sep, 1)[0]] and [s.split(sep)[0]] for a non-empty [sep]:
    the part of [s] before the first occurrence of [sep], all of [s] when
    there is none. *)
Fixpoint before_first (sep s : string) : string :=
  if String.prefix sep s then EmptyString
  else match s with
       | EmptyString => EmptyString
       | String c s' => String c (before_first sep s')
       end.

(** [s.replace(c, empty)] for a one-character [c]. *)
Fixpoint remove_char (c : ascii) (s : string) : string :=
  match s with
  | EmptyString => EmptyString
  | String d s' =>
      if Ascii.eqb c d then remove_char c s' else String d (remove_char c s')
  end.

(** [str.isspace], which [str.split()] uses, on the characters of code
    point below 256: tab, line feed, vertical tab, form feed, carriage
    return, the separators 28 to 31, space, next line (133) and no-break
    space (160). *)
Definition isspace (c : ascii) : bool :=
  let n := nat_of_ascii c in
  ((9 <=? n)%nat && (n <=? 13)%nat) || ((28 <=? n)%nat && (n <=? 32)%nat)
  || (n =? 133)%nat || (n =? 160)%nat.

Fixpoint all_space (s : string) : bool :=
  match s with
  | EmptyString => true
  | String c s' => isspace c && all_space s'
  end.

Definition dquote : ascii := "034"%char.
Definition newline : ascii := "010"%char.

End PyStr.

(** ** [caption_postprocess]

    The two branches return a string; when neither substring test holds the
    function body ends without a [return], and the call returns [None]. *)

Definition caption_postprocess (text model_name : string) : result (option string) :=
  if PyStr.contains "flamingo" model_name then
    Ok (Some (PyStr.remove_char PyStr.dquote (PyStr.before_first "Output" text)))
  else if PyStr.contains "idefics" model_name then
    Ok (Some (PyStr.remove_char PyStr.newline
                (PyStr.remove_char PyStr.dquote (PyStr.before_first "Caption" text))))
  else Ok None.

(** The second example text of the specification:
    a quoted caption followed by the marker. *)
Definition quoted_cat_text : string :=
  String PyStr.dquote ("A cat." +:+ String PyStr.dquote "Caption: junk").


(** ** Python lists, dicts and one-dimensional tensors *)

(** [l[-1]] *)
Definition py_last {A} (l : list A) : result A :=
  match last l with
  | Some x => Ok x
  | None => Raise IndexError
  end.

(** [l[:-1]] *)
Definition py_init {A} (l : list A) : list A := removelast l.

(** [l[i]] for a non-negative [i] *)
Definition py_nth {A} (l : list A) (i : nat) : result A :=
  match l !! i with
  | Some x => Ok x
  | None => Raise IndexError
  end.

(** [d[k]] on a dict read as a map *)
Definition dict_get {V} (d : gmap Z V) (k : Z) : result V :=
  match d !! k with
  | Some v => Ok v
  | None => Raise KeyError
  end.

(** [sorted(list(d.keys()))] *)
Definition sorted_keys {V} (d : gmap Z V) : list Z :=
  merge_sort Z.le (map fst (map_to_list d)).

(** [d[k] = v] on an insertion-ordered dict: an existing key keeps its
    position, a new key goes last. *)
Fixpoint dict_set {V} (k : Z) (v : V) (d : list (Z * V)) : list (Z * V) :=
  match d with
  | [] => [(k, v)]
  | (k', v') :: d' =>
      if Z.eqb k k' then (k, v) :: d' else (k', v') :: dict_set k v d'
  end.

(** [more_itertools.chunked(l, n)], that is
    [iter(partial(take, n, iter(l)), [])]: [take] is called until it
    returns the empty list. At most [length l] calls return a non-empty
    list when [n >= 1], which bounds the number of iterations. *)
Fixpoint chunked_iter {A} (fuel n : nat) (l : list A) : list (list A) :=
  match fuel with
  | O => []
  | S fuel' =>
      match take n l with
      | [] => []
      | chunk => chunk :: chunked_iter fuel' n (drop n l)
      end
  end.

Definition chunked {A} (l : list A) (n : Z) : result (list (list A)) :=
  if n <? 0 then Raise ValueError_islice
  else Ok (chunked_iter (S (length l)) (Z.to_nat n) l).

(** ** Examples and events *)

Record Example : Type := mkExample {
  idx : Z;
  image_id : Z;
  image : string;
  single_caption : string;
}.

(** A record of [pred_coco]: [{'image_id': ..., 'caption': ...}]. *)
Definition Pred : Type := (Z * option string)%type.

(** The calls recorded in the trace. *)
Inductive Event : Type :=
| EvTransferPrompts (batch : list (list Example)) (is_last_for_generation : bool)
| EvGetCondProb (mask_length : list Z)
| EvGenerate
| EvComputeCider (pred_coco : list Pred).

Definition is_compute_cider (e : Event) : bool :=
  match e with EvComputeCider _ => true | _ => false end.

Definition is_generate (e : Event) : bool :=
  match e with EvGenerate => true | _ => false end.

(** The sequences that an event hands to the model interface. *)
Definition event_sequences (e : Event) : list (list Example) :=
  match e with
  | EvTransferPrompts batch _ => batch
  | _ => []
  end.

(** A computation that records events and may raise. *)
Definition M (A : Type) : Type := (list Event * result A)%type.

Definition ret {A} (a : A) : M A := ([], Ok a).

Definition bind {A B} (m : M A) (f : A → M B) : M B :=
  match m with
  | (t, Ok a) => let '(t', r) := f a in (t ++ t', r)
  | (t, Raise e) => (t, Raise e)
  end.

Definition lift {A} (r : result A) : M A := ([], r).

Definition tell (e : Event) : M unit := ([e], Ok tt).

Notation "'let*' x ':=' m 'in' k" := (bind m (λ x, k))
  (at level 10, x name, m at level 100, k at level 200).
Notation "'do*' m 'in' k" := (bind m (λ _, k))
  (at level 10, m at level 100, k at level 200).

(** ** The scoring engine *)

Section Engine.

Context {Prompts ModelInput GenKwargs score : Type}.

(** Subtraction of tensor entries. *)
Variable sub : score → score → score.

(** The capabilities of the model interface that the engine calls.
    [transfer_prompts] takes a batch of sequences; the call on the chosen
    sequence alone is the call on the batch holding that one sequence.
    [attention_mask_len x] is [x['attention_mask'].shape[1]]. *)
Record Interface : Type := mkInterface {
  gen_ice_prompt : Example → bool → string;
  transfer_prompts : list (list Example) → bool → Prompts;
  prepare_input : Prompts → bool → bool → ModelInput;
  concat_prompt : list Example → bool → bool → bool → string;
  get_input_token_num : string → Z;
  get_cond_prob : ModelInput → list Z → list score;
  generate : ModelInput → GenKwargs → list (list Z);
  attention_mask_len : ModelInput → nat;
  batch_decode : list (list Z) → bool → list string;
}.

(** [compute_cider(pred_coco, train_ann_path, reduce_cider=False)]: the
    mapping from image id to its ['CIDEr'] entry. *)
Variable compute_cider : list Pred → string → gmap Z score.

Variable interface : Interface.

(** [a - b] on one-dimensional tensors, with broadcasting. *)
Definition tensor_sub (a b : list score) : result (list score) :=
  if (length a =? length b)%nat then Ok (zip_with sub a b)
  else match a, b with
       | _, [y] => Ok (map (λ x, sub x y) a)
       | [x], _ => Ok (map (sub x) b)
       | _, _ => Raise RuntimeError_broadcast
       end.

(** [torch.cat(ts)] on one-dimensional tensors. *)
Definition torch_cat (ts : list (list score)) : result (list score) :=
  match ts with
  | [] => Raise RuntimeError_cat_empty
  | _ => Ok (concat ts)
  end.

(** The augmented sequences of one batch. *)
Definition add_new_icd_seq_list (construct_order : string)
    (choosed_icd_seq_list batch_data : list Example)
  : result (list (list Example)) :=
  if String.eqb construct_order "left" then
    Ok (map (λ new_icd, [new_icd] ++ choosed_icd_seq_list) batch_data)
  else if String.eqb construct_order "right" then
    rmapM (λ new_icd,
             rbind (py_last choosed_icd_seq_list) (λ query,
               Ok (py_init choosed_icd_seq_list ++ [new_icd] ++ [query])))
          batch_data
  else Raise (ValueError_construct_order construct_order).

(** [test_lang_x_input.split(split_token)[0] + split_token]. With
    [split_token = None] the split is on whitespace and the sum of a
    string and [None] raises. *)
Definition get_query_mask_part (test_lang_x_input : string)
    (split_token : option string) : result string :=
  match split_token with
  | None =>
      if PyStr.all_space test_lang_x_input then Raise IndexError
      else Raise TypeError
  | Some sep =>
      if String.eqb sep EmptyString then Raise ValueError_empty_separator
      else Ok (PyStr.before_first sep test_lang_x_input +:+ sep)
  end.

(** The mask length of a sequence: the token count of the prompt of all
    but its last element followed by the query part. *)
Definition mask_length_of (query_mask_part : string) (t : list Example) : Z :=
  get_input_token_num interface
    (concat_prompt interface (py_init t) false true false +:+ query_mask_part).

Section InfoScore.

Variables (choosed_icd_seq_list : list Example)
          (candidate_set : gmap Z Example)
          (batch_size : Z)
          (split_token : option string)
          (construct_order : string).

(** The body of the loop over the batches, with the accumulator
    [info_score_list]. *)
Fixpoint info_score_loop (query_mask_part : string) (cond_prob : list score)
    (batches : list (list Z)) (info_score_list : list (list score))
  : M (list (list score)) :=
  match batches with
  | [] => ret info_score_list
  | batch :: rest =>
      let* batch_data := lift (rmapM (dict_get candidate_set) batch) in
      let* seqs :=
        lift (add_new_icd_seq_list construct_order choosed_icd_seq_list batch_data) in
      do* tell (EvTransferPrompts seqs false) in
      let prompts := transfer_prompts interface seqs false in
      let add_new_icd_input := prepare_input interface prompts false true in
      let icd_mask_prompt_list :=
        map (λ t, concat_prompt interface (py_init t) false true false) seqs in
      let mask_context_list :=
        map (λ icd_mask_prompt, icd_mask_prompt +:+ query_mask_part)
            icd_mask_prompt_list in
      let mask_length_list :=
        map (get_input_token_num interface) mask_context_list in
      do* tell (EvGetCondProb mask_length_list) in
      let new_cond_prob :=
        get_cond_prob interface add_new_icd_input mask_length_list in
      let* sub_info_score := lift (tensor_sub new_cond_prob cond_prob) in
      info_score_loop query_mask_part cond_prob rest
        (info_score_list ++ [sub_info_score])
  end.

Definition get_info_score : M (list score) :=
  let* query := lift (py_last choosed_icd_seq_list) in
  let test_lang_x_input := gen_ice_prompt interface query true in
  do* tell (EvTransferPrompts [choosed_icd_seq_list] false) in
  let prompts := transfer_prompts interface [choosed_icd_seq_list] false in
  let x_input := prepare_input interface prompts false true in
  let icd_mask_prompt :=
    concat_prompt interface (py_init choosed_icd_seq_list) false true false in
  let* query_mask_part :=
    lift (get_query_mask_part test_lang_x_input split_token) in
  let mask_context := icd_mask_prompt +:+ query_mask_part in
  let mask_length := get_input_token_num interface mask_context in
  do* tell (EvGetCondProb [mask_length]) in
  let cond_prob := get_cond_prob interface x_input [mask_length] in
  let cand_idx := sorted_keys candidate_set in
  let* batches := lift (chunked cand_idx batch_size) in
  let* info_score_list :=
    info_score_loop query_mask_part cond_prob batches [] in
  lift (torch_cat info_score_list).

End InfoScore.

(** The text generated for each sequence of a batch: [generate], then
    [batch_decode] of every output cut after the prompt. [**gen_kwargs]
    raises when [gen_kwargs] is [None]. *)
Definition generate_texts (seqs : list (list Example))
    (gen_kwargs : option GenKwargs) : M (list string) :=
  do* tell (EvTransferPrompts seqs true) in
  let prompts := transfer_prompts interface seqs true in
  let x_input := prepare_input interface prompts true true in
  let* kwargs :=
    lift (match gen_kwargs with
          | Some kw => Ok kw
          | None => Raise TypeError
          end) in
  do* tell EvGenerate in
  let outputs := generate interface x_input kwargs in
  let prompt_len := attention_mask_len interface x_input in
  ret (batch_decode interface (map (drop prompt_len) outputs) true).

(** The record that [output_dict] keeps for a candidate:
    its ['prediction'] and its ['image_id']. *)
Definition OutputDict : Type := list (Z * (string * Z)).

(** [for i, data in enumerate(batch_data): output_dict[data['idx']] = ...] *)
Fixpoint store_batch (output_dict : OutputDict) (i : nat)
    (batch_data : list Example) (generated : list string) : result OutputDict :=
  match batch_data with
  | [] => Ok output_dict
  | data :: rest =>
      rbind (py_nth generated i) (λ prediction,
        store_batch (dict_set (idx data) (prediction, image_id data) output_dict)
                    (S i) rest generated)
  end.

Section CiderScore.

Variables (choosed_icd_seq_list : list Example)
          (candidate_set : gmap Z Example)
          (batch_size : Z)
          (model_name : string)
          (train_ann_path : string)
          (construct_order : string)
          (gen_kwargs : option GenKwargs).

(** The loop over the batches; it only fills [output_dict]. *)
Fixpoint cider_loop (batches : list (list Z)) (output_dict : OutputDict)
  : M OutputDict :=
  match batches with
  | [] => ret output_dict
  | batch :: rest =>
      let* batch_data := lift (rmapM (dict_get candidate_set) batch) in
      let* seqs :=
        lift (add_new_icd_seq_list construct_order choosed_icd_seq_list batch_data) in
      let* generated := generate_texts seqs gen_kwargs in
      let* output_dict' := lift (store_batch output_dict 0 batch_data generated) in
      cider_loop rest output_dict'
  end.

(** [pred_coco] of the accumulated predictions, in the iteration order of
    [output_dict]. *)
Definition accumulated_pred_coco (output_dict : OutputDict) : result (list Pred) :=
  rmapM (λ '(_, (prediction, img_id)),
           rbind (caption_postprocess prediction model_name) (λ caption,
             Ok (img_id, caption)))
        output_dict.

Definition get_cider_score : M (list score) :=
  let output_dict : OutputDict := [] in
  let* generated := generate_texts [choosed_icd_seq_list] gen_kwargs in
  let* query := lift (py_last choosed_icd_seq_list) in
  let* caption := lift (py_nth generated 0) in
  let pred_coco := [(image_id query, Some caption)] in
  do* tell (EvComputeCider pred_coco) in
  let origin_cider_info := compute_cider pred_coco train_ann_path in
  let* query' := lift (py_last choosed_icd_seq_list) in
  let* origin_cider_score := lift (dict_get origin_cider_info (image_id query')) in
  let cand_idx := sorted_keys candidate_set in
  let* batches := lift (chunked cand_idx batch_size) in
  let* output_dict := cider_loop batches output_dict in
  let* pred_coco := lift (accumulated_pred_coco output_dict) in
  do* tell (EvComputeCider pred_coco) in
  let cider_score_info := compute_cider pred_coco train_ann_path in
  let* cider_score :=
    lift (rmapM (λ i, rbind (dict_get candidate_set i) (λ data,
                        dict_get cider_score_info (image_id data)))
                cand_idx) in
  ret (map (λ x, sub x origin_cider_score) cider_score).

End CiderScore.

End Engine.

(** ** The random candidate sampler *)

Section RandSampler.

(** The random generator: [draws t] is the list that the [t]-th call of
    [random.sample] returns for the population and the size of this call of
    [sample]. *)
Variable draws : nat → list Z.

(** [random.sample(range(0, n), k)] at generator position [t]. *)
Definition random_sample (t : nat) (n : nat) (k : Z) : result (list Z * nat) :=
  if (k <? 0) || (Z.of_nat n <? k) then Raise ValueError_sample
  else Ok (draws t, S t).

Variables (candidate_num : Z) (len_train_ds : nat).

(** [while s_idx in random_candidate_set: random_candidate_set = ...];
    [None] when the loop has not ended within [fuel] tests. *)
Fixpoint resample (fuel : nat) (s_idx : Z) (random_candidate_set : list Z)
    (t : nat) : option (result (list Z * nat)) :=
  match fuel with
  | O => None
  | S fuel' =>
      if bool_decide (s_idx ∈ random_candidate_set) then
        match random_sample t len_train_ds candidate_num with
        | Ok (random_candidate_set', t') =>
            resample fuel' s_idx random_candidate_set' t'
        | Raise e => Some (Raise e)
        end
      else Some (Ok (random_candidate_set, t))
  end.

(** One iteration of [for s_idx in anchor_set]. *)
Definition sample_anchor (fuel : nat) (s_idx : Z) (t : nat)
  : option (result (list Z * nat)) :=
  match random_sample t len_train_ds candidate_num with
  | Ok (random_candidate_set, t') => resample fuel s_idx random_candidate_set t'
  | Raise e => Some (Raise e)
  end.

Fixpoint sample_loop (fuel : nat) (anchor_set : list Z)
    (candidate_set_idx : gmap Z (list Z)) (t : nat)
  : option (result (gmap Z (list Z) * nat)) :=
  match anchor_set with
  | [] => Some (Ok (candidate_set_idx, t))
  | s_idx :: rest =>
      match sample_anchor fuel s_idx t with
      | None => None
      | Some (Raise e) => Some (Raise e)
      | Some (Ok (random_candidate_set, t')) =>
          sample_loop fuel rest (<[s_idx := random_candidate_set]> candidate_set_idx) t'
      end
  end.

(** [RandSampler.sample(anchor_set, train_ds)], started at generator
    position [t], with [fuel] tests of the loop condition for each anchor. *)
Definition sample (fuel : nat) (anchor_set : list Z) (t : nat)
  : option (result (gmap Z (list Z) * nat)) :=
  sample_loop fuel anchor_set ∅ t.

End RandSampler.

(** ** Reading the results

    [insert_icd] is the placement of one candidate that
    [add_new_icd_seq_list] computes for every element of a batch;
    [sorted_candidates] are the candidates in ascending order of their key. *)

Definition valid_order (construct_order : string) : Prop :=
  construct_order = "left" ∨ construct_order = "right".

Definition insert_icd (construct_order : string)
    (choosed_icd_seq_list : list Example) (new_icd : Example) : list Example :=
  if String.eqb construct_order "left" then [new_icd] ++ choosed_icd_seq_list
  else py_init choosed_icd_seq_list ++ [new_icd]
         ++ match last choosed_icd_seq_list with
            | Some query => [query]
            | None => []
            end.

Definition sorted_candidates (candidate_set : gmap Z Example) : list Example :=
  omap (λ k, candidate_set !! k) (sorted_keys candidate_set).

(** The data-model invariant of a candidate set: it maps [idx] to the example
    that carries this [idx]. *)
Definition keyed_by_idx (candidate_set : gmap Z Example) : Prop :=
  ∀ k e, candidate_set !! k = Some e → idx e = k.

(** The caption that [caption_postprocess] returns ([None] for Python's
    [None]). *)
Definition postprocessed (text model_name : string) : option string :=
  match caption_postprocess text model_name with
  | Ok caption => caption
  | Raise _ => None
  end.

(** [output_dict] after the candidates [cands] were stored in this order,
    when the text generated for a sequence [t] is [G t]. *)
Definition accumulate (G : list Example → string) (construct_order : string)
    (choosed_icd_seq_list : list Example) (cands : list Example)
    (output_dict : list (Z * (string * Z))) : list (Z * (string * Z)) :=
  foldl (λ d e, dict_set (idx e)
                  (G (insert_icd construct_order choosed_icd_seq_list e), image_id e) d)
        output_dict cands.

Definition pred_coco_of (model_name : string)
    (output_dict : list (Z * (string * Z))) : list Pred :=
  map (λ '(_, (prediction, img_id)), (img_id, postprocessed prediction model_name))
      output_dict.

(** A sequence is built from the chosen sequence [S] and the candidate set
    [C]: it is [S] itself, or the placement of a candidate under an order
    that is left or right. *)
Definition built_from (S : list Example) (C : gmap Z Example) (order : string)
    (seq : list Example) : Prop :=
  seq = S ∨ ∃ k c, C !! k = Some c ∧ valid_order order ∧ seq = insert_icd order S c.

Definition sequences_built (S : list Example) (C : gmap Z Example)
    (order : string) (ev : Event) : Prop :=
  Forall (built_from S C order) (event_sequences ev).

(** The events of the loop of [get_info_score] over the given batches. *)
Definition info_loop_trace {Prompts ModelInput GenKwargs score : Type}
    (interface : @Interface Prompts ModelInput GenKwargs score)
    (choosed_icd_seq_list : list Example) (candidate_set : gmap Z Example)
    (construct_order query_mask_part : string) (batches : list (list Z))
  : list Event :=
  concat (map (λ batch,
                 let seqs := map (insert_icd construct_order choosed_icd_seq_list)
                                 (omap (λ k, candidate_set !! k) batch) in
                 [EvTransferPrompts seqs false;
                  EvGetCondProb (map (mask_length_of interface query_mask_part) seqs)])
              batches).

(** The events of the loop of [get_cider_score] over the given batches. *)
Definition cider_loop_trace (choosed_icd_seq_list : list Example)
    (candidate_set : gmap Z Example) (construct_order : string)
    (batches : list (list Z)) : list Event :=
  concat (map (λ batch,
                 [EvTransferPrompts
                    (map (insert_icd construct_order choosed_icd_seq_list)
                         (omap (λ k, candidate_set !! k) batch)) true;
                  EvGenerate])
              batches).

(** One record for each candidate, in ascending order of the keys: its image
    and the post-processed text generated with the candidate inserted. *)
Definition candidate_preds (G : list Example → string)
    (model_name construct_order : string)
    (choosed_icd_seq_list : list Example) (candidate_set : gmap Z Example)
  : list Pred :=
  map (λ e, (image_id e,
             postprocessed (G (insert_icd construct_order choosed_icd_seq_list e))
                           model_name))
      (sorted_candidates candidate_set).

(** The last step of [get_cider_score]: the entry of every candidate's image
    in the metric's result, minus the baseline. *)
Definition cider_scores {score : Type} (sub : score → score → score)
    (candidate_set : gmap Z Example) (cider_score_info : gmap Z score)
    (origin_cider_score : score) : result (list score) :=
  rbind (rmapM (λ i, rbind (dict_get candidate_set i) (λ data,
                       dict_get cider_score_info (image_id data)))
               (sorted_keys candidate_set))
        (λ cider_score, Ok (map (λ x, sub x origin_cider_score) cider_score)).

(** The texts that the interface decodes for a batch of sequences under
    generation arguments [kw]. *)
Definition decoded_texts {Prompts ModelInput GenKwargs score : Type}
    (interface : @Interface Prompts ModelInput GenKwargs score)
    (seqs : list (list Example)) (kw : GenKwargs) : list string :=
  let x := prepare_input interface (transfer_prompts interface seqs true) true true in
  batch_decode interface
    (map (drop (attention_mask_len interface x)) (generate interface x kw)) true.

(** The placement of a new candidate in the chosen sequence
    [front ++ [query]]: before the whole sequence for the left order,
    between [front] and the query for the right order. *)
Definition placed (construct_order : string) (front : list Example)
    (query new_icd : Example) : list Example :=
  if String.eqb construct_order "left" then new_icd :: front ++ [query]
  else front ++ [new_icd; query].

(** The batches of sequences that a run hands to [transfer_prompts], in the
    order of the calls. *)
Definition transferred (trace : list Event) : list (list (list Example)) :=
  omap (λ ev, match ev with
              | EvTransferPrompts batch _ => Some batch
              | _ => None
              end) trace.


(** The caption of a generated text for a model name that
    [caption_postprocess] knows: the text before the first ["Output"]
    without its double quotes for a name that contains ['flamingo'];
    otherwise the text before the first ["Caption"] without its double
    quotes and line feeds. *)
Definition cleaned (model_name text : string) : string :=
  if PyStr.contains "flamingo" model_name then
    PyStr.remove_char PyStr.dquote (PyStr.before_first "Output" text)
  else
    PyStr.remove_char PyStr.newline
      (PyStr.remove_char PyStr.dquote (PyStr.before_first "Caption" text)).

Definition known_model (model_name : string) : Prop :=
  PyStr.contains "flamingo" model_name = true
  ∨ PyStr.contains "idefics" model_name = true.

(** The records of a metric call on all candidates: for every candidate, in
    ascending order of the keys, its image and the caption of the text
    generated with the candidate placed in the chosen sequence. *)
Definition records_of (G : list Example → string)
    (caption : string → option string) (construct_order : string)
    (front : list Example) (query : Example) (cands : list Example) : list Pred :=
  map (λ e, (image_id e, caption (G (placed construct_order front query e)))) cands.

(** ** A stub interface

    A deterministic model interface, metric and generator, used to run the
    engine on concrete inputs. Prompts and model inputs are the batch of
    sequences itself; the conditional probability and the generated text of
    a sequence depend on its first element. *)

Module Stub.

Definition query : Example := mkExample 9 900 "q.jpg" "a cat".
Definition ex0 : Example := mkExample 0 100 "0.jpg" "a dog".
Definition ex1 : Example := mkExample 1 101 "1.jpg" "two dogs".
Definition ex2 : Example := mkExample 2 102 "2.jpg" "a bird".
(** A second example of the image of [ex0]. *)
Definition ex1_same_image : Example := mkExample 1 100 "0.jpg" "one dog".

Definition qsub (a b : Q) : Q := Qred (a - b).

Definition prob (t : list Example) : Q :=
  match t with
  | [] => 0
  | [_] => 2 # 10
  | e :: _ =>
      match idx e with
      | 0 => 5 # 10
      | 1 => 1 # 10
      | 2 => 3 # 10
      | _ => 0
      end
  end.

(** The token generated for a sequence, and its decoding. *)
Definition token (t : list Example) : Z :=
  match t with
  | [] => -1
  | [_] => 100
  | e :: _ => idx e
  end.

Definition decode (output : list Z) : string :=
  match output with
  | [100] => "a cat"
  | [0] => "A dog.Output extra"
  | [1] => "two dogs"
  | [_] => "a bird"
  | _ => EmptyString
  end.

(** The text generated for a sequence. *)
Definition text (t : list Example) : string := decode [token t].

Definition ice_prompt (e : Example) : string :=
  "<image>Output:" +:+ single_caption e.

Definition interface : @Interface (list (list Example)) (list (list Example)) unit Q :=
  {| gen_ice_prompt := λ e _, ice_prompt e;
     transfer_prompts := λ seqs _, seqs;
     prepare_input := λ prompts _ _, prompts;
     concat_prompt := λ seq _ _ _, foldr (λ e s, ice_prompt e +:+ s) EmptyString seq;
     get_input_token_num := λ s, Z.of_nat (String.length s);
     get_cond_prob := λ x _, map prob x;
     generate := λ x _, map (λ t, [7; 7; token t]) x;
     attention_mask_len := λ _, 2%nat;
     batch_decode := λ outputs _, map decode outputs |}.

Definition cider_of_caption (caption : option string) : Q :=
  match caption with
  | Some c =>
      if String.eqb c "a cat" then 1
      else if String.eqb c "A dog." then 3 # 2
      else if String.eqb c "two dogs" then 4 # 5
      else 0
  | None => 0
  end.

(** A metric that reads, for every image, the first record of that image. *)
Definition compute_cider (pred_coco : list Pred) (_ : string) : gmap Z Q :=
  list_to_map (map (λ '(img_id, caption), (img_id, cider_of_caption caption)) pred_coco).

Definition candidates3 : gmap Z Example :=
  <[2 := ex2]> (<[0 := ex0]> (<[1 := ex1]> ∅)).

Definition candidates2 : gmap Z Example := <[1 := ex1]> (<[0 := ex0]> ∅).

Definition candidates_same_image : gmap Z Example :=
  <[1 := ex1_same_image]> (<[0 := ex0]> ∅).

(** A generator that alternates between two draws of two indices out of
    four. *)
Definition draws (t : nat) : list Z :=
  if Nat.even t then [0; 1] else [2; 3].

End Stub.

(** * Further functions of the repository

    [vqa_postprocess] of [utils.py]; [data_split], [encode_text] and
    [encode_image] of [src/utils.py]; [inference_cider] and [iclm_gene_ice]
    of [inference_flamingo.py]. Exceptions that the engine never raises are
    added around [exn]. *)

Inductive py_exn : Type :=
| Core (e : exn)
| ValueError                      (* raise ValueError() *)
| ValueError_precision (got : string)
    (* raise ValueError(f'the precision should in {precision_list}, ...') *)
| ValueError_pool_method (got : string)
    (* raise ValueError(f'the pool_method got {pool_method}') *)
| AssertionError (len_res : nat). (* assert len(res) == shot_num, f'{len(res)=}' *)

Inductive outcome (A : Type) : Type :=
| Return (a : A)
| Throw (e : py_exn).
Arguments Return {A} a.
Arguments Throw {A} e.

(** [l[:k]]: a negative [k] counts from the end. *)
Definition py_slice_to {A} (l : list A) (k : Z) : list A :=
  if k <? 0 then take (Z.to_nat (Z.of_nat (length l) + k)) l
  else take (Z.to_nat k) l.

(** The number of elements that [l[:k]] keeps. *)
Definition slice_count (len : nat) (k : Z) : nat :=
  Z.to_nat (if k <? 0 then Z.max 0 (Z.of_nat len + k) else Z.min k (Z.of_nat len)).

(** ** [vqa_postprocess] *)

Section VqaPostprocess.

(** [postprocess_vqa_generation] of [src/metrics/vqa_metrics.py]. *)
Variable postprocess_vqa_generation : string → string.

Definition vqa_postprocess (text model_name : string) : result (option string) :=
  if PyStr.contains "flamingo" model_name then
    Ok (Some (postprocess_vqa_generation text))
  else if PyStr.contains "idefics" model_name then
    Ok (Some (PyStr.remove_char PyStr.newline (postprocess_vqa_generation text)))
  else Ok None.

End VqaPostprocess.

(** ** [data_split]

    [generated_data] is a dict whose values hold an ['id_list'], a list of
    index sequences; the last index of a sequence is its test id. The dict is
    read in iteration order only: it is the list of its items.
    [train_len n] stands for [int(train_ratio * n)], a floating-point
    product that is not modelled. *)

Section DataSplit.

Variable train_len : nat → Z.

Definition GeneratedData : Type := list (string * list (list Z)).

(** [{v[-1] for d in generated_data for v in generated_data[d]['id_list']}],
    as the list of the elements in the order they are met. *)
Fixpoint test_dataset_ids (generated_data : GeneratedData) : result (list Z) :=
  match generated_data with
  | [] => Ok []
  | (_, id_list) :: rest =>
      rbind (rmapM py_last id_list) (λ ids,
        rbind (test_dataset_ids rest) (λ ids', Ok (ids ++ ids')))
  end.

(** The inner loop, over the sequences of one entry. *)
Fixpoint data_split_inner (train_idx_set val_idx_set : gset Z)
    (id_list : list (list Z)) (train_data_list val_data_list : list (list Z))
  : outcome (list (list Z) * list (list Z)) :=
  match id_list with
  | [] => Return (train_data_list, val_data_list)
  | i :: rest =>
      match py_last i with
      | Raise e => Throw (Core e)
      | Ok x =>
          if bool_decide (x ∈ train_idx_set) then
            data_split_inner train_idx_set val_idx_set rest
              (train_data_list ++ [i]) val_data_list
          else if bool_decide (x ∈ val_idx_set) then
            data_split_inner train_idx_set val_idx_set rest
              train_data_list (val_data_list ++ [i])
          else Throw ValueError
      end
  end.

(** The outer loop, over the entries. *)
Fixpoint data_split_outer (train_idx_set val_idx_set : gset Z)
    (generated_data : GeneratedData) (train_data_list val_data_list : list (list Z))
  : outcome (list (list Z) * list (list Z)) :=
  match generated_data with
  | [] => Return (train_data_list, val_data_list)
  | (_, id_list) :: rest =>
      match data_split_inner train_idx_set val_idx_set id_list
              train_data_list val_data_list with
      | Return (train_data_list', val_data_list') =>
          data_split_outer train_idx_set val_idx_set rest
            train_data_list' val_data_list'
      | Throw e => Throw e
      end
  end.

(** [set(sorted(list(test_dataset_id_set))[:train_data_len])] *)
Definition train_ids_of (test_dataset_id_set : gset Z) : gset Z :=
  let test_dataset_len := size test_dataset_id_set in
  let train_data_len := train_len test_dataset_len in
  list_to_set
    (py_slice_to (merge_sort Z.le (elements test_dataset_id_set)) train_data_len).

Definition data_split (generated_data : GeneratedData)
  : outcome (list (list Z) * list (list Z)) :=
  match test_dataset_ids generated_data with
  | Raise e => Throw (Core e)
  | Ok ids =>
      let test_dataset_id_set : gset Z := list_to_set ids in
      let train_idx_set := train_ids_of test_dataset_id_set in
      let val_idx_set := test_dataset_id_set ∖ train_idx_set in
      data_split_outer train_idx_set val_idx_set generated_data [] []
  end.

End DataSplit.

(** All the sequences of [generated_data], in the order the loops meet
    them. *)
Definition all_sequences (generated_data : GeneratedData) : list (list Z) :=
  concat (map snd generated_data).

(** The test ids of [generated_data], and whether the test id of a sequence
    is in a set. *)
Definition test_id_set (generated_data : GeneratedData) : gset Z :=
  list_to_set (omap last (all_sequences generated_data)).

Definition last_in (ids : gset Z) (i : list Z) : bool :=
  match last i with
  | Some x => bool_decide (x ∈ ids)
  | None => false
  end.

Definition nonempty {A} (l : list A) : bool :=
  match l with [] => false | _ => true end.

(** ** [encode_text] and [encode_image]

    The CLIP model and its tokenizer or processor are outside the file:
    [text_embeds batch] and [image_embeds batch] are the rows that the model
    returns for a batch, [normalize] divides a row by its norm. *)

Section Encode.

Context {vec Img : Type}.
Variable normalize : vec → vec.
Variable text_embeds : list string → list vec.
Variable open_image : string → Img.
Variable image_embeds : list Img → list vec.

Fixpoint encode_text_loop (batches : list (list string))
    (final_text_feature : list (list vec)) : list (list vec) :=
  match batches with
  | [] => final_text_feature
  | batch :: rest =>
      let text_feature := text_embeds batch in
      let text_feature := map normalize text_feature in
      encode_text_loop rest (final_text_feature ++ [text_feature])
  end.

Definition encode_text (text_list : list string) (batch_size : Z)
  : result (list vec) :=
  rbind (chunked text_list batch_size) (λ batches,
    torch_cat (encode_text_loop batches [])).

Fixpoint encode_image_loop (batches : list (list string))
    (final_image_feature : list (list vec)) : list (list vec) :=
  match batches with
  | [] => final_image_feature
  | batch :: rest =>
      let images := map open_image batch in
      let image_feature := image_embeds images in
      let image_feature := map normalize image_feature in
      encode_image_loop rest (final_image_feature ++ [image_feature])
  end.

Definition encode_image (image_list : list string) (batch_size : Z)
  : result (list vec) :=
  rbind (chunked image_list batch_size) (λ batches,
    torch_cat (encode_image_loop batches [])).

End Encode.

(** ** [cast_type] and [encode_dataset]

    The file system is reduced to the one path that [encode_dataset] reads
    and writes: [cache] is the content of [dataset_embedding_cache_path],
    [None] when the path does not exist. The Flamingo model and its
    tokenizer are outside the file: [forward padding_side batch_data] is the
    last hidden state of a batch, and [pool_last], [pool_mean] and
    [pool_first] are the three poolings of it, one feature for each element
    of the batch. *)

Inductive dtype : Type := float16 | bfloat16 | float32.

Definition cast_type (precision : string) : outcome dtype :=
  if String.eqb precision "fp16" then Return float16
  else if String.eqb precision "bf16" then Return bfloat16
  else if String.eqb precision "fp32" then Return float32
  else Throw (ValueError_precision precision).

(** [get_autocast] returns an autocast object for fp16, a function that
    makes one for bf16, and [contextlib.suppress] otherwise. *)
Inductive autocast : Type :=
| AutocastObject (d : dtype)    (* torch.cuda.amp.autocast(dtype=...) *)
| AutocastFunction (d : dtype)  (* lambda: torch.cuda.amp.autocast(dtype=...) *)
| Suppress.                     (* contextlib.suppress *)

Definition get_autocast (precision : string) : autocast :=
  if String.eqb precision "fp16" then AutocastObject float16
  else if String.eqb precision "bf16" then AutocastFunction bfloat16
  else Suppress.

(** The call [autocast_context()] of the statement
    [with autocast_context():], on what [get_autocast] returned: an autocast
    object is called without the function that its [__call__] expects, which
    raises [TypeError]; the function and [contextlib.suppress] return a
    context manager. *)
Definition call_context (autocast_context : autocast) : result unit :=
  match autocast_context with
  | AutocastObject _ => Raise TypeError
  | AutocastFunction _ => Ok tt
  | Suppress => Ok tt
  end.

Section EncodeDataset.

Context {Item Hidden feature : Type}.
Variable item_idx : Item → Z.
Variable forward : string → list Item → Hidden.
Variables pool_last pool_mean pool_first : Hidden → list feature.

(** [for i, idx in enumerate(idx_list): dataset_embeddings_map[idx] = features[i]] *)
Fixpoint store_features (dataset_embeddings_map : gmap Z feature) (i : nat)
    (idx_list : list Z) (features : list feature) : result (gmap Z feature) :=
  match idx_list with
  | [] => Ok dataset_embeddings_map
  | idx :: rest =>
      rbind (py_nth features i) (λ f,
        store_features (<[idx := f]> dataset_embeddings_map) (S i) rest features)
  end.

Fixpoint encode_dataset_loop (padding_side pool_method : string)
    (batches : list (list Item)) (dataset_embeddings_map : gmap Z feature)
  : outcome (gmap Z feature) :=
  match batches with
  | [] => Return dataset_embeddings_map
  | batch_data :: rest =>
      let features := forward padding_side batch_data in
      let pooled :=
        if String.eqb pool_method "last" then Return (pool_last features)
        else if String.eqb pool_method "mean" then Return (pool_mean features)
        else if String.eqb pool_method "first" then Return (pool_first features)
        else Throw (ValueError_pool_method pool_method) in
      match pooled with
      | Throw e => Throw e
      | Return features =>
          let idx_list := map item_idx batch_data in
          match store_features dataset_embeddings_map 0 idx_list features with
          | Raise e => Throw (Core e)
          | Ok dataset_embeddings_map' =>
              encode_dataset_loop padding_side pool_method rest
                dataset_embeddings_map'
          end
      end
  end.

(** The call returns the new content of the cache path and its outcome.
    [init_flamingo] ends with [tokenizer.padding_side = 'left'], after
    [cast_type(precision)]; the loop runs inside
    [with autocast_context():]. *)
Definition encode_dataset (cache : option (gmap Z feature))
    (coco_dataset : list Item) (pool_method : string) (batch_size : Z)
    (precision : string) : option (gmap Z feature) * outcome (gmap Z feature) :=
  match cache with
  | Some dataset_embeddings_map => (cache, Return dataset_embeddings_map)
  | None =>
      match cast_type precision with
      | Throw e => (None, Throw e)
      | Return _ =>
          let padding_side :=
            if String.eqb pool_method "first" then "right"
            else if String.eqb pool_method "last" then "left"
            else "left" in
          match call_context (get_autocast precision) with
          | Raise e => (None, Throw (Core e))
          | Ok _ =>
              match chunked coco_dataset batch_size with
              | Raise e => (None, Throw (Core e))
              | Ok batches =>
                  match
                    encode_dataset_loop padding_side pool_method batches ∅
                  with
                  | Throw e => (None, Throw e)
                  | Return dataset_embeddings_map =>
                      (Some dataset_embeddings_map,
                       Return dataset_embeddings_map)
                  end
              end
          end
      end
  end.

End EncodeDataset.



(** ** [inference_cider] and [iclm_gene_ice] *)

Section InferenceCider.

Context {Inferencer Retriever Template score : Type}.

(** [inferencer.inference(retriever, ice_prompt, output_json_filename=...,
    return_dict=True)]: the dict of the generations, in iteration order. *)
Variable inference : Inferencer → Retriever → Template → string → OutputDict.

(** [compute_cider(pred_coco, val_ann_path)['CIDEr']] of
    [src/metrics/cider_utils.py]. *)
Variable compute_cider_total : list Pred → string → score.

(** The list [pred_coco] that [inference_cider] builds. *)
Definition inference_pred_coco (output_dict : OutputDict) : list Pred :=
  map (λ '(_, (prediction, img_id)),
         (img_id,
          Some (PyStr.remove_char PyStr.dquote
                  (PyStr.before_first "Output" prediction))))
      output_dict.

Definition inference_cider (inferencer : Inferencer) (retriever : Retriever)
    (ice_prompt : Template) (val_ann_path output_json_filename : string) : score :=
  let output_dict := inference inferencer retriever ice_prompt output_json_filename in
  let pred_coco := inference_pred_coco output_dict in
  compute_cider_total pred_coco val_ann_path.

End InferenceCider.

Section IclmGeneIce.

Context {Data Pixels : Type}.

(** [img_processor(images=data['image'], return_tensors='pt')
    .to(device)['pixel_values']] *)
Variable pixel_values : Data → Pixels.

(** [iclm_model.generation(img, ice_input=..., repetition_penalty=2.0,
    max_new_tokens=shot_num, num_beams=num_beams, min_length=shot_num, ...)]:
    the generated sequences. *)
Variable generation : Pixels → Z → Z → list (list Z).

Fixpoint iclm_gene_ice_loop (ds : list Data) (shot_num : Z)
    (ice_idx_list : list (list Z)) : outcome (list (list Z)) :=
  match ds with
  | [] => Return ice_idx_list
  | data :: rest =>
      let img := pixel_values data in
      let num_beams := if shot_num =? 1 then 1 else 10 in
      match py_nth (generation img num_beams shot_num) 0 with
      | Raise e => Throw (Core e)
      | Ok res =>
          let res := drop 2 res in
          if Z.of_nat (length res) =? shot_num then
            iclm_gene_ice_loop rest shot_num (ice_idx_list ++ [res])
          else Throw (AssertionError (length res))
      end
  end.

Definition iclm_gene_ice (ds : list Data) (shot_num : Z) : outcome (list (list Z)) :=
  iclm_gene_ice_loop ds shot_num [].

End IclmGeneIce.

Definition is_get_cond_prob (e : Event) : bool :=
  match e with EvGetCondProb _ => true | _ => false end.

(** The entry that a datum contributes to the result of [iclm_gene_ice]:
    the first generated sequence without its two leading tokens, of length
    [shot_num]. *)
Definition ice_of {Data Pixels : Type} (pixel_values : Data → Pixels)
    (generation : Pixels → Z → Z → list (list Z))
    (shot_num : Z) (data : Data) (r : list Z) : Prop :=
  ∃ res,
    generation (pixel_values data) (if shot_num =? 1 then 1 else 10) shot_num
      !! 0%nat = Some res
    ∧ r = drop 2 res ∧ Z.of_nat (length r) = shot_num.

(** An event that is neither a generation nor a call of the metric; an
    event that is not a call of [get_cond_prob]. *)
Definition no_generation (ev : Event) : Prop :=
  is_generate ev = false ∧ is_compute_cider ev = false.

Definition no_cond_prob (ev : Event) : Prop := is_get_cond_prob ev = false.

(** The lookup [d.get(k)] on an insertion-ordered dict. *)
Fixpoint dict_lookup {V} (k : Z) (d : list (Z * V)) : option V :=
  match d with
  | [] => None
  | (k', v) :: d' => if Z.eqb k k' then Some v else dict_lookup k d'
  end.

(** Sample data for the further functions: a ratio of one half, and four
    sequences over the test ids 10, 11 and 12. *)
Module Sample.

Definition half (n : nat) : Z := Z.of_nat n / 2.

Definition generated_data : GeneratedData :=
  [("a", [[3; 7; 10]; [1; 11]]); ("b", [[5; 10]; [2; 12]])].

(** Two candidates, under the keys 0 and 1, that carry the same [idx]. *)
Definition candidates_same_idx : gmap Z Example :=
  <[1 := mkExample 0 101 "1.jpg" "two dogs"]> (<[0 := Stub.ex0]> ∅).

(** A dataset of items that are their own [idx], a hidden state that lists
    the items of the batch, and a pooling that gives the item [d] the
    feature [10 * d]. *)
Definition hidden (padding_side : string) (batch_data : list Z) : list Z :=
  batch_data.
Definition pool (h : list Z) : list Z := map (Z.mul 10) h.
Definition embeddings : gmap Z Z := <[5 := 50]> (<[3 := 30]> ∅).

End Sample.

(** * Properties *)

(** ** Results and traced computations *)

Lemma rmapM_ok {A B} (f : A → result B) (g : A → B) l :
  (∀ x, x ∈ l → f x = Ok (g x)) → rmapM f l = Ok (map g l).
Proof.
  induction l as [|x l IH]; intros Hf; [done|].
  simpl. rewrite (Hf x) by left. simpl.
  rewrite IH; [done|]. intros y Hy. apply Hf. by right.
Qed.

Lemma rmapM_length {A B} (f : A → result B) l l' :
  rmapM f l = Ok l' → length l' = length l.
Proof.
  revert l'. induction l as [|x l IH]; intros l' H; simpl in H.
  - by inversion H.
  - destruct (f x); [|done]. simpl in H.
    destruct (rmapM f l) as [ys|]; [|done]. simpl in H.
    inversion H; subst. simpl. f_equal. by apply IH.
Qed.

Lemma rmapM_dict_get {V} (d : gmap Z V) l :
  Forall (λ k, is_Some (d !! k)) l →
  rmapM (dict_get d) l = Ok (omap (λ k, d !! k) l).
Proof.
  induction 1 as [|k l [v Hv] _ IH]; [done|].
  simpl. unfold dict_get at 1. rewrite Hv. simpl. by rewrite IH.
Qed.

Lemma bind_ok {A B} (m : M A) (f : A → M B) t a :
  m = (t, Ok a) → bind m f = (t ++ (f a).1, (f a).2).
Proof. intros ->. simpl. by destruct (f a). Qed.

Lemma bind_raise {A B} (m : M A) (f : A → M B) t e :
  m = (t, Raise e) → bind m f = (t, Raise e).
Proof. by intros ->. Qed.

Lemma bind_lift_ok {A B} (r : result A) (f : A → M B) a :
  r = Ok a → bind (lift r) f = f a.
Proof. intros ->. simpl. by destruct (f a). Qed.

Lemma bind_lift_raise {A B} (r : result A) (f : A → M B) e :
  r = Raise e → bind (lift r) f = ([], Raise e).
Proof. by intros ->. Qed.

Lemma bind_tell {B} (ev : Event) (f : unit → M B) :
  bind (tell ev) f = (ev :: (f tt).1, (f tt).2).
Proof. simpl. by destruct (f tt). Qed.

(** Every event of the trace of [bind m f] is an event of [m] or of the
    continuation. *)
Lemma bind_trace_Forall {A B} (P : Event → Prop) (m : M A) (f : A → M B) :
  Forall P m.1 → (∀ a, m.2 = Ok a → Forall P (f a).1) → Forall P (bind m f).1.
Proof.
  destruct m as [t [a|e]]; simpl; intros Ht Hf; [|done].
  specialize (Hf a eq_refl). destruct (f a) as [t' r]. simpl in *.
  by apply Forall_app.
Qed.

(** ** Sorted keys and chunks *)

Lemma sorted_keys_Permutation {V} (d : gmap Z V) :
  sorted_keys d ≡ₚ (map_to_list d).*1.
Proof. apply merge_sort_Permutation. Qed.

Lemma elem_of_sorted_keys {V} (d : gmap Z V) k :
  k ∈ sorted_keys d ↔ is_Some (d !! k).
Proof.
  rewrite sorted_keys_Permutation, list_elem_of_fmap. split.
  - intros [[k' v] [-> Hin]]. apply elem_of_map_to_list in Hin. by exists v.
  - intros [v Hv]. exists (k, v). split; [done|]. by apply elem_of_map_to_list.
Qed.

Lemma NoDup_sorted_keys {V} (d : gmap Z V) : NoDup (sorted_keys d).
Proof. rewrite sorted_keys_Permutation. apply NoDup_fst_map_to_list. Qed.

Lemma length_sorted_keys {V} (d : gmap Z V) : length (sorted_keys d) = size d.
Proof.
  rewrite sorted_keys_Permutation, length_fmap. apply length_map_to_list.
Qed.

Lemma sorted_keys_nil {V} (d : gmap Z V) : sorted_keys d = [] ↔ d = ∅.
Proof.
  rewrite <-(map_size_empty_iff d), <-length_sorted_keys.
  by destruct (sorted_keys d).
Qed.

Lemma StronglySorted_le_lt (l : list Z) :
  StronglySorted Z.le l → NoDup l → StronglySorted Z.lt l.
Proof.
  induction 1 as [|x l Hl IH Hx]; intros Hnd; [constructor|].
  apply NoDup_cons in Hnd as [Hnotin Hnd]. constructor; [by apply IH|].
  apply Forall_forall. intros y Hy.
  rewrite Forall_forall in Hx. specialize (Hx y Hy).
  assert (x ≠ y) by (intros ->; done). lia.
Qed.

Lemma sorted_keys_ascending {V} (d : gmap Z V) :
  StronglySorted Z.lt (sorted_keys d).
Proof.
  apply StronglySorted_le_lt; [|apply NoDup_sorted_keys].
  apply StronglySorted_merge_sort; apply _.
Qed.

Lemma sorted_keys_present {V} (d : gmap Z V) :
  Forall (λ k, is_Some (d !! k)) (sorted_keys d).
Proof. apply Forall_forall. intros k. by rewrite elem_of_sorted_keys. Qed.

Lemma omap_lookup_Forall2 {V} (d : gmap Z V) l :
  Forall (λ k, is_Some (d !! k)) l →
  Forall2 (λ k v, d !! k = Some v) l (omap (λ k, d !! k) l).
Proof.
  induction 1 as [|k l [v Hv] _ IH]; simpl; [constructor|].
  rewrite Hv. by constructor.
Qed.

Lemma sorted_candidates_lookup (C : gmap Z Example) :
  Forall2 (λ k e, C !! k = Some e) (sorted_keys C) (sorted_candidates C).
Proof. apply omap_lookup_Forall2, sorted_keys_present. Qed.

Lemma length_sorted_candidates (C : gmap Z Example) :
  length (sorted_candidates C) = size C.
Proof.
  rewrite <-length_sorted_keys. symmetry.
  eapply Forall2_length, sorted_candidates_lookup.
Qed.

Lemma elem_of_sorted_candidates (C : gmap Z Example) e :
  e ∈ sorted_candidates C → ∃ k, C !! k = Some e.
Proof.
  intros He. apply list_elem_of_lookup in He as [i Hi].
  destruct (Forall2_lookup_r _ _ _ _ _ (sorted_candidates_lookup C) Hi)
    as (k & _ & Hk).
  by exists k.
Qed.

Lemma chunked_iter_concat {A} (fuel n : nat) (l : list A) :
  (0 < n)%nat → (length l < fuel)%nat → concat (chunked_iter fuel n l) = l.
Proof.
  intros Hn. revert l. induction fuel as [|fuel IH]; intros l Hl; [lia|].
  simpl. destruct (take n l) as [|x c] eqn:Htake.
  - destruct l as [|y l]; [done|]. destruct n; [lia|]. done.
  - simpl. rewrite IH.
    + rewrite app_comm_cons, <-Htake. apply take_drop.
    + rewrite length_drop.
      assert (length l ≠ 0)%nat by (destruct l; [by rewrite take_nil in Htake|done]).
      lia.
Qed.

Lemma chunked_iter_chunks {A} (fuel n : nat) (l : list A) :
  Forall (λ c, c ≠ [] ∧ (length c ≤ n)%nat) (chunked_iter fuel n l).
Proof.
  revert l. induction fuel as [|fuel IH]; intros l; simpl; [constructor|].
  destruct (take n l) as [|x c] eqn:Htake; [constructor|].
  constructor; [|apply IH]. split; [done|].
  rewrite <-Htake, length_take. lia.
Qed.

(** With a batch size of at least one, [chunked] cuts the list into
    non-empty chunks of at most that size, in order. *)
Lemma chunked_spec {A} (l : list A) (n : Z) :
  1 ≤ n →
  ∃ batches, chunked l n = Ok batches ∧ concat batches = l
             ∧ Forall (λ c, c ≠ [] ∧ (Z.of_nat (length c) ≤ n)) batches.
Proof.
  intros Hn. unfold chunked.
  destruct (Z.ltb_spec n 0) as [|_]; [lia|].
  eexists. split; [done|]. split.
  - apply chunked_iter_concat; lia.
  - eapply Forall_impl; [apply chunked_iter_chunks|].
    simpl. intros c [? ?]. split; [done|lia].
Qed.

Lemma chunked_nil {A} (n : Z) : 0 ≤ n → chunked (@nil A) n = Ok [].
Proof.
  intros Hn. unfold chunked. destruct (Z.ltb_spec n 0) as [|_]; [lia|].
  simpl. by rewrite take_nil.
Qed.

Lemma Forall_concat_inv {A} (P : A → Prop) (ls : list (list A)) :
  Forall P (concat ls) → Forall (Forall P) ls.
Proof.
  induction ls as [|l ls IH]; simpl; [constructor|].
  rewrite Forall_app. intros [? ?]. constructor; auto.
Qed.

Lemma concat_map_omap {A B C} (f : A → option B) (g : B → C) (ls : list (list A)) :
  concat (map (λ l, map g (omap f l)) ls) = map g (omap f (concat ls)).
Proof.
  induction ls as [|l ls IH]; simpl; [done|].
  by rewrite IH, omap_app, map_app.
Qed.

(** ** Building the augmented sequences *)

Lemma insert_icd_left S e : insert_icd "left" S e = e :: S.
Proof. reflexivity. Qed.

Lemma insert_icd_right S q e :
  last S = Some q → insert_icd "right" S e = py_init S ++ [e; q].
Proof. intros HS. unfold insert_icd. simpl. by rewrite HS. Qed.

Lemma insert_icd_last order S q e :
  last S = Some q → last (insert_icd order S e) = Some q.
Proof.
  intros HS. unfold insert_icd. destruct (String.eqb order "left").
  - simpl. destruct S as [|x S]; [done|]. by rewrite last_cons, HS.
  - rewrite HS, app_assoc. apply last_snoc.
Qed.

Lemma add_new_icd_seq_list_valid order S q batch_data :
  valid_order order → last S = Some q →
  add_new_icd_seq_list order S batch_data = Ok (map (insert_icd order S) batch_data).
Proof.
  intros [-> | ->] HS; unfold add_new_icd_seq_list; simpl; [done|].
  apply rmapM_ok. intros e _. unfold py_last, insert_icd. by rewrite HS.
Qed.

Lemma add_new_icd_seq_list_invalid order S batch_data :
  ¬ valid_order order →
  add_new_icd_seq_list order S batch_data = Raise (ValueError_construct_order order).
Proof.
  intros Hinv. unfold add_new_icd_seq_list.
  destruct (String.eqb_spec order "left") as [->|_].
  { destruct Hinv. by left. }
  destruct (String.eqb_spec order "right") as [->|_]; [|done].
  destruct Hinv. by right.
Qed.

(** Whenever the augmented sequences of a batch are built, the order is one
    of the two and every sequence is the placement of one element of the
    batch. *)
Lemma add_new_icd_seq_list_inv order S batch_data seqs :
  add_new_icd_seq_list order S batch_data = Ok seqs →
  valid_order order ∧ seqs = map (insert_icd order S) batch_data.
Proof.
  unfold add_new_icd_seq_list.
  destruct (String.eqb_spec order "left") as [->|_].
  { intros [= <-]. split; [by left|done]. }
  destruct (String.eqb_spec order "right") as [->|_]; [|done].
  intros H. split; [by right|].
  destruct (last S) as [q|] eqn:HS.
  - rewrite (rmapM_ok _ (insert_icd "right" S)) in H; [by inversion H|].
    intros e _. unfold py_last, insert_icd. by rewrite HS.
  - destruct batch_data as [|e l]; simpl in H; [by inversion H|].
    unfold py_last in H. by rewrite HS in H.
Qed.

(** ** The information score *)

Section InfoScoreFacts.

Context {Prompts ModelInput GenKwargs score : Type}.
Variable sub : score → score → score.
Variable iface : @Interface Prompts ModelInput GenKwargs score.

Lemma tensor_sub_scalar (a : list score) (y : score) :
  tensor_sub sub a [y] = Ok (map (λ x, sub x y) a).
Proof.
  unfold tensor_sub. destruct a as [|x [|x' a]]; try done.
Qed.

Lemma torch_cat_cons (t : list score) ts : torch_cat (t :: ts) = Ok (concat (t :: ts)).
Proof. done. Qed.

Lemma mask_length_list_eq qmp (seqs : list (list Example)) :
  map (get_input_token_num iface)
    (map (λ icd_mask_prompt, icd_mask_prompt +:+ qmp)
       (map (λ t, concat_prompt iface (py_init t) false true false) seqs))
  = map (mask_length_of iface qmp) seqs.
Proof. by rewrite !map_map. Qed.

Variables (S : list Example) (C : gmap Z Example) (order : string) (qmp : string).

(** The model's conditional probability of the answer, one sequence at a
    time: [P] is what [get_cond_prob] returns for every element of a batch. *)
Variable P : list Example → score.
Hypothesis cond_prob_law : ∀ seqs,
  get_cond_prob iface
    (prepare_input iface (transfer_prompts iface seqs false) false true)
    (map (mask_length_of iface qmp) seqs)
  = map P seqs.

Lemma info_score_loop_run q p0 batches acc :
  valid_order order → last S = Some q →
  Forall (Forall (λ k, is_Some (C !! k))) batches →
  info_score_loop sub iface S C order qmp [p0] batches acc
  = (info_loop_trace iface S C order qmp batches,
     Ok (acc ++ map (λ b, map (λ e, sub (P (insert_icd order S e)) p0)
                           (omap (λ k, C !! k) b)) batches)).
Proof.
  intros Hord HS Hall. revert acc.
  induction Hall as [|b batches Hb _ IH]; intros acc.
  { simpl. by rewrite app_nil_r. }
  cbn [info_score_loop].
  rewrite (bind_lift_ok _ _ _ (rmapM_dict_get C b Hb)).
  rewrite (bind_lift_ok _ _ _ (add_new_icd_seq_list_valid _ _ _ _ Hord HS)).
  rewrite !bind_tell. rewrite mask_length_list_eq, cond_prob_law.
  rewrite (bind_lift_ok _ _ _ (tensor_sub_scalar _ _)).
  rewrite IH. cbn [fst snd]. rewrite <-app_assoc.
  unfold info_loop_trace. cbn [map concat app]. by rewrite !map_map.
Qed.

Lemma get_info_score_run q sep batch_size batches :
  last S = Some q → sep ≠ EmptyString →
  qmp = PyStr.before_first sep (gen_ice_prompt iface q true) +:+ sep →
  valid_order order →
  chunked (sorted_keys C) batch_size = Ok batches →
  concat batches = sorted_keys C →
  C ≠ ∅ →
  get_info_score sub iface S C batch_size (Some sep) order
  = (EvTransferPrompts [S] false :: EvGetCondProb [mask_length_of iface qmp S]
       :: info_loop_trace iface S C order qmp batches,
     Ok (map (λ e, sub (P (insert_icd order S e)) (P S)) (sorted_candidates C))).
Proof.
  intros HS Hsep Hqmp Hord Hchunk Hcat Hne.
  unfold get_info_score.
  rewrite (bind_lift_ok _ _ q) by (unfold py_last; by rewrite HS).
  rewrite bind_tell.
  assert (get_query_mask_part (gen_ice_prompt iface q true) (Some sep) = Ok qmp)
    as Hq.
  { unfold get_query_mask_part.
    destruct (String.eqb_spec sep EmptyString); [done|by rewrite Hqmp]. }
  rewrite (bind_lift_ok _ _ _ Hq), bind_tell.
  rewrite (bind_lift_ok _ _ _ Hchunk).
  change (get_input_token_num iface
            (concat_prompt iface (py_init S) false true false +:+ qmp))
    with (mask_length_of iface qmp S).
  change [mask_length_of iface qmp S] with (map (mask_length_of iface qmp) [S]).
  rewrite cond_prob_law. cbn [map].
  assert (Forall (Forall (λ k, is_Some (C !! k))) batches) as Hall.
  { apply Forall_concat_inv. rewrite Hcat. apply sorted_keys_present. }
  erewrite bind_ok by (eapply info_score_loop_run; eauto).
  cbn [fst snd app]. rewrite app_nil_r.
  destruct batches as [|b batches].
  { simpl in Hcat. symmetry in Hcat. by apply sorted_keys_nil in Hcat. }
  f_equal. cbn [map lift snd]. rewrite torch_cat_cons.
  change (?x :: map ?f batches) with (map f (b :: batches)).
  by rewrite concat_map_omap, Hcat.
Qed.

End InfoScoreFacts.

(** ** [caption_postprocess] on the examples of the specification *)

(** C7 (as stated, refuted): a model name that contains ['idefics'] and also
    ['flamingo'] takes the first branch, which cuts at ["Output"]; the
    marker ["Caption"] and what follows it stay in the result. *)
Lemma caption_postprocess_idefics_counterexample :
  PyStr.contains "idefics" "idefics-flamingo" = true
  ∧ caption_postprocess quoted_cat_text "idefics-flamingo"
    = Ok (Some "A cat.Caption: junk")
  ∧ caption_postprocess quoted_cat_text "idefics-flamingo" ≠ Ok (Some "A cat.").
Proof. repeat split; done. Qed.

(** C7 (amended): for every model name containing ['flamingo'],
    [caption_postprocess] maps ["A dog.Output extra"] to ["A dog."]; for
    every model name containing ['idefics'] and not ['flamingo'], it maps
    the quoted text ["A cat."] followed by ["Caption: junk"] to ["A cat."]
    without the quotes. *)
Theorem caption_postprocess_examples (name_f name_i : string) :
  PyStr.contains "flamingo" name_f = true →
  PyStr.contains "idefics" name_i = true →
  PyStr.contains "flamingo" name_i = false →
  caption_postprocess "A dog.Output extra" name_f = Ok (Some "A dog.")
  ∧ caption_postprocess quoted_cat_text name_i = Ok (Some "A cat.").
Proof.
  intros Hf Hi Hif. unfold caption_postprocess. by rewrite Hf, Hif, Hi.
Qed.

Lemma caption_postprocess_examples_witness :
  caption_postprocess "A dog.Output extra" "flamingo" = Ok (Some "A dog.")
  ∧ caption_postprocess quoted_cat_text "idefics" = Ok (Some "A cat.").
Proof.
  apply (caption_postprocess_examples "flamingo" "idefics"); reflexivity.
Defined.

(** C8 (as stated, refuted): for the model name ["blip"], which contains
    neither family name, the call raises nothing: it returns [None]. *)
Lemma caption_postprocess_unknown_counterexample :
  PyStr.contains "flamingo" "blip" = false
  ∧ PyStr.contains "idefics" "blip" = false
  ∧ caption_postprocess "A dog.Output extra" "blip" = Ok None
  ∧ ¬ ∃ e, caption_postprocess "A dog.Output extra" "blip" = Raise e.
Proof. repeat split; try done. by intros [e He]. Qed.

(** C8 (amended): for every model name that contains neither ['flamingo']
    nor ['idefics'], [caption_postprocess] raises no error and returns
    [None], whatever the text. *)
Theorem caption_postprocess_unknown (text model_name : string) :
  PyStr.contains "flamingo" model_name = false →
  PyStr.contains "idefics" model_name = false →
  caption_postprocess text model_name = Ok None.
Proof. intros Hf Hi. unfold caption_postprocess. by rewrite Hf, Hi. Qed.

Lemma caption_postprocess_unknown_witness :
  caption_postprocess "A dog.Output extra" "blip" = Ok None.
Proof. apply caption_postprocess_unknown; reflexivity. Defined.

(** ** [get_info_score]: the score vector *)

(** C1 (as stated, refuted): on the empty candidate set the call returns no
    vector of length zero; it raises at the final [torch.cat]. *)
Lemma get_info_score_empty_counterexample :
  (get_info_score Stub.qsub Stub.interface [Stub.query] ∅ 2 (Some "Output:") "left").2
  = Raise RuntimeError_cat_empty
  ∧ ¬ ∃ v, (get_info_score Stub.qsub Stub.interface [Stub.query] ∅ 2
              (Some "Output:") "left").2 = Ok v
           ∧ length v = size (∅ : gmap Z Example).
Proof. split; [done|]. by intros [v [Hv _]]. Qed.

(** C1 (amended): for every chosen sequence [S] whose last element is the
    query, every non-empty candidate set [C], every batch size of at least
    one, a non-empty split token and an insertion order among left and
    right, [get_info_score] returns a vector of length [|C|]; the keys of
    [C] sorted are strictly ascending, and the [i]-th entry is the
    conditional probability [P] of the sequence with the candidate of the
    [i]-th sorted key inserted, minus [P S]. [P] is the probability that the
    interface returns for each element of a batch. The baseline is the call
    on the batch [[S]]: it is the first call of the run and is followed only
    by the calls on the batches of augmented sequences. *)
Theorem get_info_score_scores {Prompts ModelInput GenKwargs score : Type}
    (sub : score → score → score)
    (iface : @Interface Prompts ModelInput GenKwargs score)
    (P : list Example → score)
    (S : list Example) (q : Example) (C : gmap Z Example)
    (batch_size : Z) (sep order : string) :
  last S = Some q → C ≠ ∅ → 1 ≤ batch_size → sep ≠ EmptyString →
  valid_order order →
  (∀ seqs,
     get_cond_prob iface
       (prepare_input iface (transfer_prompts iface seqs false) false true)
       (map (mask_length_of iface
               (PyStr.before_first sep (gen_ice_prompt iface q true) +:+ sep)) seqs)
     = map P seqs) →
  ∃ v batches,
    (get_info_score sub iface S C batch_size (Some sep) order).2 = Ok v
    ∧ length v = size C
    ∧ StronglySorted Z.lt (sorted_keys C)
    ∧ (∀ k, k ∈ sorted_keys C ↔ is_Some (C !! k))
    ∧ (∀ i k, sorted_keys C !! i = Some k →
         ∃ e, C !! k = Some e
              ∧ v !! i = Some (sub (P (insert_icd order S e)) (P S)))
    ∧ chunked (sorted_keys C) batch_size = Ok batches
    ∧ (get_info_score sub iface S C batch_size (Some sep) order).1
      = EvTransferPrompts [S] false
          :: EvGetCondProb
               [mask_length_of iface
                  (PyStr.before_first sep (gen_ice_prompt iface q true) +:+ sep) S]
          :: info_loop_trace iface S C order
               (PyStr.before_first sep (gen_ice_prompt iface q true) +:+ sep) batches.
Proof.
  intros HS Hne Hbs Hsep Hord Hlaw.
  destruct (chunked_spec (sorted_keys C) batch_size Hbs) as (bs & Hch & Hcat & _).
  pose proof (get_info_score_run sub iface S C order _ P Hlaw q sep batch_size bs
                HS Hsep eq_refl Hord Hch Hcat Hne) as Hrun.
  eexists _, bs. rewrite Hrun. cbn [fst snd].
  split; [done|].
  split; [by rewrite length_map, length_sorted_candidates|].
  split; [apply sorted_keys_ascending|].
  split; [apply elem_of_sorted_keys|].
  split; [|done].
  intros i k Hi.
  destruct (Forall2_lookup_l _ _ _ _ _ (sorted_candidates_lookup C) Hi)
    as (e & He & Hk).
  exists e. split; [done|].
  change map with (@fmap list _) in |- *. by rewrite list_lookup_fmap, He.
Qed.

Lemma get_info_score_scores_witness :
  ∃ v batches,
    (get_info_score Stub.qsub Stub.interface [Stub.query] Stub.candidates3 2
       (Some "Output:") "left").2 = Ok v
    ∧ length v = size Stub.candidates3
    ∧ StronglySorted Z.lt (sorted_keys Stub.candidates3)
    ∧ (∀ k, k ∈ sorted_keys Stub.candidates3 ↔ is_Some (Stub.candidates3 !! k))
    ∧ (∀ i k, sorted_keys Stub.candidates3 !! i = Some k →
         ∃ e, Stub.candidates3 !! k = Some e
              ∧ v !! i = Some (Stub.qsub (Stub.prob (insert_icd "left" [Stub.query] e))
                                         (Stub.prob [Stub.query])))
    ∧ chunked (sorted_keys Stub.candidates3) 2 = Ok batches
    ∧ (get_info_score Stub.qsub Stub.interface [Stub.query] Stub.candidates3 2
         (Some "Output:") "left").1
      = EvTransferPrompts [[Stub.query]] false
          :: EvGetCondProb
               [mask_length_of Stub.interface
                  (PyStr.before_first "Output:"
                     (gen_ice_prompt Stub.interface Stub.query true) +:+ "Output:")
                  [Stub.query]]
          :: info_loop_trace Stub.interface [Stub.query] Stub.candidates3 "left"
               (PyStr.before_first "Output:"
                  (gen_ice_prompt Stub.interface Stub.query true) +:+ "Output:")
               batches.
Proof.
  apply (get_info_score_scores Stub.qsub Stub.interface Stub.prob
           [Stub.query] Stub.query Stub.candidates3 2 "Output:" "left").
  - reflexivity.
  - intros H. apply (f_equal size) in H. vm_compute in H. discriminate.
  - lia.
  - discriminate.
  - left. reflexivity.
  - intros seqs. reflexivity.
Defined.

(** The scenario of the specification: baseline 0.2, candidates 0.5, 0.1 and
    0.3, batches of two. *)
Example get_info_score_scenario :
  (get_info_score Stub.qsub Stub.interface [Stub.query] Stub.candidates3 2
     (Some "Output:") "left").2
  = Ok [3 # 10; -1 # 10; 1 # 10]%Q.
Proof. reflexivity. Qed.

(** C9: on the empty candidate set [get_info_score] never returns: every
    call raises. When the baseline is computed (a non-empty sequence, a
    non-empty split token) and the batch size is not negative, the two
    baseline events are the whole trace and the error is the one of
    [torch.cat] on the empty list of per-batch results. *)
Theorem get_info_score_empty_candidates {Prompts ModelInput GenKwargs score : Type}
    (sub : score → score → score)
    (iface : @Interface Prompts ModelInput GenKwargs score)
    (S : list Example) (batch_size : Z) (split_token : option string)
    (order : string) :
  (∃ e, (get_info_score sub iface S ∅ batch_size split_token order).2 = Raise e)
  ∧ (∀ q sep, last S = Some q → split_token = Some sep → sep ≠ EmptyString →
       0 ≤ batch_size →
       get_info_score sub iface S ∅ batch_size split_token order
       = ([EvTransferPrompts [S] false;
           EvGetCondProb
             [mask_length_of iface
                (PyStr.before_first sep (gen_ice_prompt iface q true) +:+ sep) S]],
          Raise RuntimeError_cat_empty)).
Proof.
  assert (sorted_keys (∅ : gmap Z Example) = []) as Hkeys by by apply sorted_keys_nil.
  split.
  - unfold get_info_score. rewrite Hkeys.
    unfold py_last. destruct (last S) as [q|]; [|by eexists].
    rewrite (bind_lift_ok _ _ q) by done. rewrite bind_tell. cbn [snd].
    destruct (get_query_mask_part _ split_token) as [qmp|e] eqn:Hq;
      [|by exists e].
    rewrite (bind_lift_ok _ _ _ eq_refl), bind_tell. cbn [snd].
    unfold chunked. destruct (batch_size <? 0); [by eexists|].
    simpl. rewrite take_nil. simpl. by eexists.
  - intros q sep HS -> Hsep Hbs.
    unfold get_info_score. rewrite Hkeys.
    rewrite (bind_lift_ok _ _ q) by (unfold py_last; by rewrite HS).
    rewrite bind_tell. unfold get_query_mask_part.
    destruct (String.eqb_spec sep EmptyString); [done|].
    rewrite (bind_lift_ok _ _ _ eq_refl), bind_tell.
    rewrite (bind_lift_ok _ _ _ (chunked_nil _ Hbs)). done.
Qed.

Lemma get_info_score_empty_candidates_witness :
  get_info_score Stub.qsub Stub.interface [Stub.query] ∅ 2 (Some "Output:") "left"
  = ([EvTransferPrompts [[Stub.query]] false; EvGetCondProb [14]],
     Raise RuntimeError_cat_empty).
Proof.
  apply (proj2 (get_info_score_empty_candidates Stub.qsub Stub.interface
                  [Stub.query] 2 (Some "Output:") "left") Stub.query "Output:").
  - reflexivity.
  - reflexivity.
  - discriminate.
  - lia.
Defined.

(** ** The sequences handed to the model interface *)

Lemma rmapM_dict_get_inv {V} (d : gmap Z V) l vs :
  rmapM (dict_get d) l = Ok vs → Forall2 (λ k v, d !! k = Some v) l vs.
Proof.
  revert vs. induction l as [|k l IH]; intros vs H; simpl in H.
  - inversion H. constructor.
  - unfold dict_get at 1 in H. destruct (d !! k) as [v|] eqn:Hk; [|done].
    simpl in H. destruct (rmapM (dict_get d) l) as [vs'|]; [|done].
    simpl in H. inversion H; subst. constructor; auto.
Qed.

Section TraceFacts.

Context {Prompts ModelInput GenKwargs score : Type}.
Variable sub : score → score → score.
Variable compute_cider : list Pred → string → gmap Z score.
Variable iface : @Interface Prompts ModelInput GenKwargs score.
Variables (S : list Example) (C : gmap Z Example) (order : string).

Lemma batch_sequences_built batch batch_data seqs :
  rmapM (dict_get C) batch = Ok batch_data →
  add_new_icd_seq_list order S batch_data = Ok seqs →
  Forall (built_from S C order) seqs.
Proof.
  intros Hbd Hseqs.
  apply rmapM_dict_get_inv in Hbd.
  apply add_new_icd_seq_list_inv in Hseqs as [Hord ->].
  apply Forall_forall. intros seq Hin.
  change map with (@fmap list _) in Hin.
  apply list_elem_of_fmap in Hin as (c & -> & Hc).
  apply list_elem_of_lookup in Hc as [i Hi].
  destruct (Forall2_lookup_r _ _ _ _ _ Hbd Hi) as (k & _ & Hk).
  right. by exists k, c.
Qed.

Lemma info_score_loop_built qmp cond_prob batches acc :
  Forall (sequences_built S C order)
    (info_score_loop sub iface S C order qmp cond_prob batches acc).1.
Proof.
  revert acc. induction batches as [|b batches IH]; intros acc; [constructor|].
  cbn [info_score_loop].
  apply bind_trace_Forall; [constructor|]. intros bd Hbd.
  apply bind_trace_Forall; [constructor|]. intros seqs Hseqs.
  apply bind_trace_Forall.
  { constructor; [|constructor]. exact (batch_sequences_built _ _ _ Hbd Hseqs). }
  intros _ _. apply bind_trace_Forall.
  { constructor; constructor. }
  intros _ _. apply bind_trace_Forall; [constructor|]. intros s _. apply IH.
Qed.

Lemma get_info_score_built batch_size split_token :
  Forall (sequences_built S C order)
    (get_info_score sub iface S C batch_size split_token order).1.
Proof.
  unfold get_info_score.
  apply bind_trace_Forall; [constructor|]. intros q _.
  apply bind_trace_Forall.
  { constructor; [|constructor]. constructor; [by left|constructor]. }
  intros _ _. apply bind_trace_Forall; [constructor|]. intros qmp _.
  apply bind_trace_Forall; [constructor; constructor|]. intros _ _.
  apply bind_trace_Forall; [constructor|]. intros bs _.
  apply bind_trace_Forall; [apply info_score_loop_built|]. intros l _.
  constructor.
Qed.

Lemma generate_texts_built seqs gen_kwargs :
  Forall (built_from S C order) seqs →
  Forall (sequences_built S C order) (generate_texts iface seqs gen_kwargs).1.
Proof.
  intros Hseqs. unfold generate_texts.
  apply bind_trace_Forall; [by repeat constructor|]. intros _ _.
  apply bind_trace_Forall; [constructor|]. intros kw _.
  apply bind_trace_Forall; [repeat constructor|]. intros _ _. constructor.
Qed.

Lemma cider_loop_built gen_kwargs batches output_dict :
  Forall (sequences_built S C order)
    (cider_loop iface S C order gen_kwargs batches output_dict).1.
Proof.
  revert output_dict.
  induction batches as [|b batches IH]; intros output_dict; [constructor|].
  cbn [cider_loop].
  apply bind_trace_Forall; [constructor|]. intros bd Hbd.
  apply bind_trace_Forall; [constructor|]. intros seqs Hseqs.
  apply bind_trace_Forall.
  { apply generate_texts_built. exact (batch_sequences_built _ _ _ Hbd Hseqs). }
  intros generated _.
  apply bind_trace_Forall; [constructor|]. intros od _. apply IH.
Qed.

Lemma get_cider_score_built batch_size model_name ann gen_kwargs :
  Forall (sequences_built S C order)
    (get_cider_score sub compute_cider iface S C batch_size model_name ann
       order gen_kwargs).1.
Proof.
  unfold get_cider_score.
  apply bind_trace_Forall.
  { apply generate_texts_built. constructor; [by left|constructor]. }
  intros generated _.
  apply bind_trace_Forall; [constructor|]. intros q _.
  apply bind_trace_Forall; [constructor|]. intros caption _.
  apply bind_trace_Forall; [repeat constructor|]. intros _ _.
  apply bind_trace_Forall; [constructor|]. intros q' _.
  apply bind_trace_Forall; [constructor|]. intros origin _.
  apply bind_trace_Forall; [constructor|]. intros bs _.
  apply bind_trace_Forall; [apply cider_loop_built|]. intros od _.
  apply bind_trace_Forall; [constructor|]. intros preds _.
  apply bind_trace_Forall; [repeat constructor|]. intros _ _.
  apply bind_trace_Forall; [constructor|]. intros cs _. constructor.
Qed.

Lemma built_from_sequences (trace : list Event) ev seq :
  Forall (sequences_built S C order) trace → ev ∈ trace → seq ∈ event_sequences ev →
  built_from S C order seq.
Proof.
  intros Hall Hev Hseq. rewrite Forall_forall in Hall.
  specialize (Hall ev Hev). unfold sequences_built in Hall.
  rewrite Forall_forall in Hall. auto.
Qed.

End TraceFacts.

(** ** The accumulator [output_dict] *)

Lemma dict_set_fresh {V} (k : Z) (v : V) (d : list (Z * V)) :
  k ∉ d.*1 → dict_set k v d = d ++ [(k, v)].
Proof.
  induction d as [|[k' v'] d IH]; simpl; intros Hk; [done|].
  apply not_elem_of_cons in Hk as [Hne Hk].
  destruct (Z.eqb_spec k k') as [->|_]; [done|]. by rewrite IH.
Qed.

Lemma foldl_dict_set_fresh {A V} (key : A → Z) (val : A → V) (l : list A)
    (d : list (Z * V)) :
  NoDup (d.*1 ++ map key l) →
  foldl (λ d e, dict_set (key e) (val e) d) d l = d ++ map (λ e, (key e, val e)) l.
Proof.
  revert d. induction l as [|e l IH]; intros d Hnd; simpl.
  { by rewrite app_nil_r. }
  rewrite dict_set_fresh.
  - rewrite IH.
    + by rewrite <-app_assoc.
    + rewrite fmap_app. simpl. rewrite <-app_assoc. done.
  - simpl in Hnd. apply NoDup_app in Hnd as (_ & Hdis & _).
    intros Hin. apply (Hdis _ Hin). by left.
Qed.

Lemma sorted_candidates_idx (C : gmap Z Example) :
  keyed_by_idx C → map idx (sorted_candidates C) = sorted_keys C.
Proof.
  intros Hkey. pose proof (sorted_candidates_lookup C) as H.
  induction H as [|k e ks es Hk _ IH]; simpl; [done|].
  by rewrite (Hkey _ _ Hk), IH.
Qed.

(** When the candidate set is keyed by [idx], no entry of [output_dict] is
    ever overwritten: it holds one record for each candidate, in order. *)
Lemma accumulate_keyed G order S (C : gmap Z Example) model_name :
  keyed_by_idx C →
  pred_coco_of model_name (accumulate G order S (sorted_candidates C) [])
  = candidate_preds G model_name order S C.
Proof.
  intros Hkey. unfold accumulate, candidate_preds, pred_coco_of.
  rewrite foldl_dict_set_fresh.
  - simpl. by rewrite map_map.
  - simpl. rewrite sorted_candidates_idx by done. apply NoDup_sorted_keys.
Qed.

Lemma accumulated_pred_coco_ok model_name (output_dict : list (Z * (string * Z))) :
  accumulated_pred_coco model_name output_dict
  = Ok (pred_coco_of model_name output_dict).
Proof.
  unfold accumulated_pred_coco, pred_coco_of.
  apply rmapM_ok. intros [k [prediction img]] _.
  unfold postprocessed, caption_postprocess.
  by repeat case_match.
Qed.

(** ** The CIDEr score *)

Lemma generate_texts_some {Prompts ModelInput GenKwargs score : Type}
    (iface : @Interface Prompts ModelInput GenKwargs score) seqs kw :
  generate_texts iface seqs (Some kw)
  = ([EvTransferPrompts seqs true; EvGenerate], Ok (decoded_texts iface seqs kw)).
Proof. reflexivity. Qed.

Lemma rmapM_cider_lookup_inv {score : Type} (C : gmap Z Example)
    (info : gmap Z score) keys cs :
  rmapM (λ i, rbind (dict_get C i) (λ data, dict_get info (image_id data))) keys
  = Ok cs →
  Forall2 (λ k x, ∃ e, C !! k = Some e ∧ info !! image_id e = Some x) keys cs.
Proof.
  revert cs. induction keys as [|k keys IH]; intros cs H; simpl in H.
  { inversion H. constructor. }
  unfold dict_get at 1 2 in H.
  destruct (C !! k) as [e|] eqn:Hk; [|done]. simpl in H.
  destruct (info !! image_id e) as [x|] eqn:Hx; [|done]. simpl in H.
  destruct (rmapM _ keys) as [cs'|]; [|done]. simpl in H.
  inversion H; subst. constructor; eauto.
Qed.

Lemma rmapM_cider_lookup_ok {score : Type} (C : gmap Z Example)
    (info : gmap Z score) keys :
  Forall (λ k, ∃ e, C !! k = Some e ∧ is_Some (info !! image_id e)) keys →
  is_ok (rmapM (λ i, rbind (dict_get C i) (λ data, dict_get info (image_id data)))
           keys) = true.
Proof.
  induction 1 as [|k keys (e & Hk & x & Hx) _ IH]; [done|].
  simpl. unfold dict_get at 1 2. rewrite Hk. simpl. rewrite Hx. simpl.
  by destruct (rmapM _ keys).
Qed.

(** What [cider_scores] returns, entry by entry. *)
Lemma cider_scores_inv {score : Type} (sub : score → score → score)
    (C : gmap Z Example) (info : gmap Z score) origin v :
  cider_scores sub C info origin = Ok v →
  length v = size C
  ∧ ∀ i k, sorted_keys C !! i = Some k →
      ∃ e x, C !! k = Some e ∧ info !! image_id e = Some x
             ∧ v !! i = Some (sub x origin).
Proof.
  unfold cider_scores. intros H.
  destruct (rmapM _ (sorted_keys C)) as [cs|] eqn:Hcs; [|done].
  simpl in H. inversion H; subst. clear H.
  split.
  { rewrite length_map, <-length_sorted_keys. eapply rmapM_length, Hcs. }
  apply rmapM_cider_lookup_inv in Hcs. intros i k Hi.
  destruct (Forall2_lookup_l _ _ _ _ _ Hcs Hi) as (x & Hx & e & He & Hinfo).
  exists e, x. repeat split; try done.
  change map with (@fmap list _). by rewrite list_lookup_fmap, Hx.
Qed.

Lemma cider_scores_ok {score : Type} (sub : score → score → score)
    (C : gmap Z Example) (info : gmap Z score) origin :
  (∀ k e, C !! k = Some e → is_Some (info !! image_id e)) →
  ∃ v, cider_scores sub C info origin = Ok v.
Proof.
  intros Hcov. unfold cider_scores.
  pose proof (rmapM_cider_lookup_ok C info (sorted_keys C)) as Hok.
  destruct (rmapM _ (sorted_keys C)) as [cs|err]; [by eexists|].
  discriminate Hok. apply Forall_forall. intros k Hk.
  apply elem_of_sorted_keys in Hk as [c Hc]. eauto.
Qed.

Section CiderFacts.

Context {Prompts ModelInput GenKwargs score : Type}.
Variable sub : score → score → score.
Variable compute_cider : list Pred → string → gmap Z score.
Variable iface : @Interface Prompts ModelInput GenKwargs score.
Variables (S : list Example) (C : gmap Z Example).
Variables (model_name ann order : string) (kw : GenKwargs).

(** The text generated for a sequence: [G] is what the interface decodes
    for every element of a batch. *)
Variable G : list Example → string.
Hypothesis generate_law : ∀ seqs, decoded_texts iface seqs kw = map G seqs.

Lemma generate_texts_run seqs :
  generate_texts iface seqs (Some kw)
  = ([EvTransferPrompts seqs true; EvGenerate], Ok (map G seqs)).
Proof. by rewrite generate_texts_some, generate_law. Qed.

Lemma store_batch_run (val : Example → string) output_dict pre batch_data :
  store_batch output_dict (length pre) batch_data (map val (pre ++ batch_data))
  = Ok (foldl (λ d e, dict_set (idx e) (val e, image_id e) d) output_dict batch_data).
Proof.
  revert output_dict pre.
  induction batch_data as [|e l IH]; intros output_dict pre; [done|].
  cbn [store_batch foldl]. unfold py_nth.
  change map with (@fmap list _).
  rewrite list_lookup_fmap, lookup_app_r by lia.
  rewrite Nat.sub_diag. cbn [lookup list_lookup fmap option_fmap option_map rbind].
  change (@fmap list _) with map.
  specialize (IH (dict_set (idx e) (val e, image_id e) output_dict) (pre ++ [e])).
  rewrite length_app, Nat.add_1_r, <-app_assoc in IH. exact IH.
Qed.

Lemma cider_loop_run q batches output_dict :
  valid_order order → last S = Some q →
  Forall (Forall (λ k, is_Some (C !! k))) batches →
  cider_loop iface S C order (Some kw) batches output_dict
  = (cider_loop_trace S C order batches,
     Ok (accumulate G order S (omap (λ k, C !! k) (concat batches)) output_dict)).
Proof.
  intros Hord HS Hall. revert output_dict.
  induction Hall as [|b batches Hb _ IH]; intros output_dict; [done|].
  cbn [cider_loop].
  rewrite (bind_lift_ok _ _ _ (rmapM_dict_get C b Hb)).
  rewrite (bind_lift_ok _ _ _ (add_new_icd_seq_list_valid _ _ _ _ Hord HS)).
  rewrite (bind_ok _ _ _ _ (generate_texts_run _)). cbn [fst snd app].
  rewrite map_map.
  pose proof (store_batch_run (λ e, G (insert_icd order S e)) output_dict []
                (omap (λ k, C !! k) b)) as Hstore.
  cbn [length app] in Hstore. rewrite (bind_lift_ok _ _ _ Hstore).
  rewrite IH. cbn [fst snd concat]. unfold accumulate.
  by rewrite omap_app, foldl_app.
Qed.

(** An order that is neither left nor right is met at the first batch. *)
Lemma cider_loop_invalid b batches output_dict gen_kwargs :
  ¬ valid_order order → Forall (λ k, is_Some (C !! k)) b →
  cider_loop iface S C order gen_kwargs (b :: batches) output_dict
  = ([], Raise (ValueError_construct_order order)).
Proof.
  intros Hinv Hb. cbn [cider_loop].
  rewrite (bind_lift_ok _ _ _ (rmapM_dict_get C b Hb)).
  by rewrite (bind_lift_raise _ _ _ (add_new_icd_seq_list_invalid _ _ _ Hinv)).
Qed.

Lemma get_cider_score_run q origin batch_size batches :
  last S = Some q →
  compute_cider [(image_id q, Some (G S))] ann !! image_id q = Some origin →
  valid_order order →
  chunked (sorted_keys C) batch_size = Ok batches →
  concat batches = sorted_keys C →
  get_cider_score sub compute_cider iface S C batch_size model_name ann order (Some kw)
  = ([EvTransferPrompts [S] true; EvGenerate;
      EvComputeCider [(image_id q, Some (G S))]]
       ++ cider_loop_trace S C order batches
       ++ [EvComputeCider
             (pred_coco_of model_name
                (accumulate G order S (sorted_candidates C) []))],
     cider_scores sub C
       (compute_cider
          (pred_coco_of model_name (accumulate G order S (sorted_candidates C) []))
          ann)
       origin).
Proof.
  intros HS Horigin Hord Hchunk Hcat.
  unfold get_cider_score.
  rewrite (bind_ok _ _ _ _ (generate_texts_run _)). cbn [map].
  rewrite (bind_lift_ok _ _ q) by (unfold py_last; by rewrite HS).
  rewrite (bind_lift_ok _ _ (G S)) by done.
  rewrite bind_tell.
  rewrite (bind_lift_ok _ _ q) by (unfold py_last; by rewrite HS).
  rewrite (bind_lift_ok _ _ origin) by (unfold dict_get; by rewrite Horigin).
  rewrite (bind_lift_ok _ _ _ Hchunk).
  assert (Forall (Forall (λ k, is_Some (C !! k))) batches) as Hall.
  { apply Forall_concat_inv. rewrite Hcat. apply sorted_keys_present. }
  rewrite (bind_ok _ _ _ _ (cider_loop_run q batches [] Hord HS Hall)).
  rewrite Hcat. fold (sorted_candidates C).
  rewrite (bind_lift_ok _ _ _ (accumulated_pred_coco_ok _ _)).
  rewrite bind_tell. cbn [fst snd app]. unfold cider_scores.
  destruct (rmapM _ (sorted_keys C)) as [cs|e]; done.
Qed.

End CiderFacts.

(** ** Runs that end early *)

Section EarlyExits.

Context {Prompts ModelInput GenKwargs score : Type}.
Variable sub : score → score → score.
Variable compute_cider : list Pred → string → gmap Z score.
Variable iface : @Interface Prompts ModelInput GenKwargs score.
Variables (S : list Example) (C : gmap Z Example).
Variables (model_name ann order : string) (kw : GenKwargs).

(** With at least one candidate and a batch size of at least one there is a
    first batch, and its keys are keys of the candidate set. *)
Lemma first_batch batch_size :
  C ≠ ∅ → 1 ≤ batch_size →
  ∃ b batches, chunked (sorted_keys C) batch_size = Ok (b :: batches)
               ∧ Forall (λ k, is_Some (C !! k)) b.
Proof.
  intros Hne Hbs.
  destruct (chunked_spec (sorted_keys C) batch_size Hbs) as (bs & Hch & Hcat & _).
  destruct bs as [|b bs].
  { simpl in Hcat. symmetry in Hcat. by apply sorted_keys_nil in Hcat. }
  exists b, bs. split; [done|].
  pose proof (sorted_keys_present C) as Hall.
  rewrite <-Hcat in Hall. simpl in Hall. by apply Forall_app in Hall as [? _].
Qed.

Lemma info_score_loop_invalid qmp cond_prob b batches acc :
  ¬ valid_order order → Forall (λ k, is_Some (C !! k)) b →
  info_score_loop sub iface S C order qmp cond_prob (b :: batches) acc
  = ([], Raise (ValueError_construct_order order)).
Proof.
  intros Hinv Hb. cbn [info_score_loop].
  rewrite (bind_lift_ok _ _ _ (rmapM_dict_get C b Hb)).
  by rewrite (bind_lift_raise _ _ _ (add_new_icd_seq_list_invalid _ _ _ Hinv)).
Qed.

Lemma get_info_score_invalid q sep batch_size :
  last S = Some q → sep ≠ EmptyString → ¬ valid_order order →
  C ≠ ∅ → 1 ≤ batch_size →
  get_info_score sub iface S C batch_size (Some sep) order
  = ([EvTransferPrompts [S] false;
      EvGetCondProb
        [mask_length_of iface
           (PyStr.before_first sep (gen_ice_prompt iface q true) +:+ sep) S]],
     Raise (ValueError_construct_order order)).
Proof.
  intros HS Hsep Hinv Hne Hbs.
  destruct (first_batch batch_size Hne Hbs) as (b & batches & Hch & Hb).
  unfold get_info_score.
  rewrite (bind_lift_ok _ _ q) by (unfold py_last; by rewrite HS).
  rewrite bind_tell. unfold get_query_mask_part.
  destruct (String.eqb_spec sep EmptyString); [done|].
  rewrite (bind_lift_ok _ _ _ eq_refl), bind_tell.
  rewrite (bind_lift_ok _ _ _ Hch).
  by rewrite (bind_raise _ _ _ _ (info_score_loop_invalid _ _ b batches [] Hinv Hb)).
Qed.

Variables (q : Example) (caption : string) (origin : score).
Hypothesis query_last : last S = Some q.
Hypothesis baseline_caption : decoded_texts iface [S] kw !! 0%nat = Some caption.

Lemma get_cider_score_origin_missing batch_size :
  compute_cider [(image_id q, Some caption)] ann !! image_id q = None →
  get_cider_score sub compute_cider iface S C batch_size model_name ann order (Some kw)
  = ([EvTransferPrompts [S] true; EvGenerate;
      EvComputeCider [(image_id q, Some caption)]],
     Raise KeyError).
Proof.
  intros Hnone. unfold get_cider_score.
  rewrite (bind_ok _ _ _ _ (generate_texts_some _ _ _)).
  rewrite (bind_lift_ok _ _ q) by (unfold py_last; by rewrite query_last).
  rewrite (bind_lift_ok _ _ caption) by (unfold py_nth; by rewrite baseline_caption).
  rewrite bind_tell.
  rewrite (bind_lift_ok _ _ q) by (unfold py_last; by rewrite query_last).
  rewrite (bind_lift_raise _ _ KeyError) by (unfold dict_get; by rewrite Hnone).
  done.
Qed.

Hypothesis baseline_cider :
  compute_cider [(image_id q, Some caption)] ann !! image_id q = Some origin.

Lemma get_cider_score_invalid batch_size :
  ¬ valid_order order → C ≠ ∅ → 1 ≤ batch_size →
  get_cider_score sub compute_cider iface S C batch_size model_name ann order (Some kw)
  = ([EvTransferPrompts [S] true; EvGenerate;
      EvComputeCider [(image_id q, Some caption)]],
     Raise (ValueError_construct_order order)).
Proof.
  intros Hinv Hne Hbs.
  destruct (first_batch batch_size Hne Hbs) as (b & batches & Hch & Hb).
  unfold get_cider_score.
  rewrite (bind_ok _ _ _ _ (generate_texts_some _ _ _)).
  rewrite (bind_lift_ok _ _ q) by (unfold py_last; by rewrite query_last).
  rewrite (bind_lift_ok _ _ caption) by (unfold py_nth; by rewrite baseline_caption).
  rewrite bind_tell.
  rewrite (bind_lift_ok _ _ q) by (unfold py_last; by rewrite query_last).
  rewrite (bind_lift_ok _ _ origin) by (unfold dict_get; by rewrite baseline_cider).
  rewrite (bind_lift_ok _ _ _ Hch).
  by rewrite (bind_raise _ _ _ _ (cider_loop_invalid iface S C order b batches []
                                    (Some kw) Hinv Hb)).
Qed.

(** Without candidates no batch is processed and no order is ever looked
    at: the metric runs on the empty prediction set. *)
Lemma get_cider_score_no_candidates batch_size :
  0 ≤ batch_size →
  get_cider_score sub compute_cider iface S ∅ batch_size model_name ann order (Some kw)
  = ([EvTransferPrompts [S] true; EvGenerate;
      EvComputeCider [(image_id q, Some caption)]; EvComputeCider []],
     Ok []).
Proof.
  intros Hbs.
  assert (sorted_keys (∅ : gmap Z Example) = []) as Hkeys by by apply sorted_keys_nil.
  unfold get_cider_score. rewrite Hkeys.
  rewrite (bind_ok _ _ _ _ (generate_texts_some _ _ _)).
  rewrite (bind_lift_ok _ _ q) by (unfold py_last; by rewrite query_last).
  rewrite (bind_lift_ok _ _ caption) by (unfold py_nth; by rewrite baseline_caption).
  rewrite bind_tell.
  rewrite (bind_lift_ok _ _ q) by (unfold py_last; by rewrite query_last).
  rewrite (bind_lift_ok _ _ origin) by (unfold dict_get; by rewrite baseline_cider).
  rewrite (bind_lift_ok _ _ _ (chunked_nil _ Hbs)).
  done.
Qed.

End EarlyExits.

(** ** Facts about the stub interface *)

Lemma stub_generate_law (seqs : list (list Example)) :
  decoded_texts Stub.interface seqs tt = map Stub.text seqs.
Proof. unfold decoded_texts. simpl. by rewrite !map_map. Qed.

Lemma stub_candidates2_keyed : keyed_by_idx Stub.candidates2.
Proof.
  apply (bool_decide_unpack (map_Forall (λ k e, idx e = k) Stub.candidates2)).
  vm_compute. exact I.
Qed.

Lemma stub_same_image_keyed : keyed_by_idx Stub.candidates_same_image.
Proof.
  apply (bool_decide_unpack
           (map_Forall (λ k e, idx e = k) Stub.candidates_same_image)).
  vm_compute. exact I.
Qed.

Lemma stub_candidates2_covered :
  ∀ k e, Stub.candidates2 !! k = Some e →
    is_Some (Stub.compute_cider
               (candidate_preds Stub.text "flamingo" "left" [Stub.query] Stub.candidates2)
               "ann.json" !! image_id e).
Proof.
  apply (bool_decide_unpack
           (map_Forall (λ (k : Z) e,
              is_Some (Stub.compute_cider
                         (candidate_preds Stub.text "flamingo" "left" [Stub.query]
                            Stub.candidates2) "ann.json" !! image_id e))
              Stub.candidates2)).
  vm_compute. exact I.
Qed.

Lemma stub_candidates_nonempty : Stub.candidates2 ≠ ∅ ∧ Stub.candidates3 ≠ ∅.
Proof.
  split; intros H; apply (f_equal size) in H; vm_compute in H; discriminate.
Qed.

Lemma middle_not_valid : ¬ valid_order "middle".
Proof. intros [H|H]; discriminate. Qed.

Lemma valid_order_dec order : valid_order order ∨ ¬ valid_order order.
Proof.
  unfold valid_order.
  destruct (String.eqb_spec order "left"); [by left; left|].
  destruct (String.eqb_spec order "right"); [by left; right|].
  right. by intros [?|?].
Qed.

(** ** Where the candidates are placed *)

Lemma insert_icd_placed order front q e :
  insert_icd order (front ++ [q]) e = placed order front q e.
Proof.
  unfold insert_icd, placed, py_init. rewrite last_snoc, removelast_last.
  by destruct (String.eqb order "left").
Qed.




Section PlacementFacts.

Context {Prompts ModelInput GenKwargs score : Type}.
Variable sub : score → score → score.
Variable compute_cider : list Pred → string → gmap Z score.
Variable iface : @Interface Prompts ModelInput GenKwargs score.
Variables (front : list Example) (q : Example) (C : gmap Z Example).
Variable order : string.












End PlacementFacts.


(** A run of each function with three candidates in batches of two, for the
    right order: the sequences handed to the interface. *)
Example augmented_sequences_run :
  transferred
    (get_info_score Stub.qsub Stub.interface [Stub.ex2; Stub.query]
       Stub.candidates2 2 (Some "Output:") "right").1
  = [[[Stub.ex2; Stub.query]];
     [[Stub.ex2; Stub.ex0; Stub.query]; [Stub.ex2; Stub.ex1; Stub.query]]]
  ∧ transferred
      (get_cider_score Stub.qsub Stub.compute_cider Stub.interface
         [Stub.ex2; Stub.query] Stub.candidates2 1 "flamingo" "ann.json" "left"
         (Some tt)).1
    = [[[Stub.ex2; Stub.query]];
       [[Stub.ex0; Stub.ex2; Stub.query]];
       [[Stub.ex1; Stub.ex2; Stub.query]]].
Proof. split; reflexivity. Qed.

(** ** An insertion order that is neither left nor right *)

(** C5 (as stated, refuted): with the order ["middle"] and no candidate,
    [get_info_score] raises the error of [torch.cat], not the error about
    the order, and [get_cider_score] returns the empty vector. *)
Lemma invalid_construct_order_counterexample :
  ¬ valid_order "middle"
  ∧ (get_info_score Stub.qsub Stub.interface [Stub.query] ∅ 2 (Some "Output:")
       "middle").2 = Raise RuntimeError_cat_empty
  ∧ (get_cider_score Stub.qsub Stub.compute_cider Stub.interface [Stub.query] ∅ 1
       "flamingo" "ann.json" "middle" (Some tt)).2 = Ok [].
Proof. split; [apply middle_not_valid|]. split; reflexivity. Qed.

(** C5 (amended): when [construct_order] is neither ['left'] nor ['right'],
    no sequence other than the chosen sequence itself is ever handed to the
    model interface (no order is assumed in its place); and when there is at
    least one candidate, the batch size is at least one and the baseline
    is computed, [get_info_score] and [get_cider_score] raise the error
    about the order at the first batch, right after the baseline events. *)
Theorem invalid_construct_order_raises {Prompts ModelInput GenKwargs score : Type}
    (sub : score → score → score)
    (compute_cider : list Pred → string → gmap Z score)
    (iface : @Interface Prompts ModelInput GenKwargs score)
    (S : list Example) (C : gmap Z Example) (batch_size : Z)
    (split_token : option string) (model_name ann order : string)
    (gen_kwargs : option GenKwargs) :
  ¬ valid_order order →
  (∀ ev seq,
     ev ∈ (get_info_score sub iface S C batch_size split_token order).1
     ∨ ev ∈ (get_cider_score sub compute_cider iface S C batch_size model_name ann
               order gen_kwargs).1 →
     seq ∈ event_sequences ev → seq = S)
  ∧ (∀ q sep, last S = Some q → split_token = Some sep → sep ≠ EmptyString →
       C ≠ ∅ → 1 ≤ batch_size →
       get_info_score sub iface S C batch_size split_token order
       = ([EvTransferPrompts [S] false;
           EvGetCondProb
             [mask_length_of iface
                (PyStr.before_first sep (gen_ice_prompt iface q true) +:+ sep) S]],
          Raise (ValueError_construct_order order)))
  ∧ (∀ q kw caption origin, last S = Some q → gen_kwargs = Some kw →
       decoded_texts iface [S] kw !! 0%nat = Some caption →
       compute_cider [(image_id q, Some caption)] ann !! image_id q = Some origin →
       C ≠ ∅ → 1 ≤ batch_size →
       get_cider_score sub compute_cider iface S C batch_size model_name ann order
         gen_kwargs
       = ([EvTransferPrompts [S] true; EvGenerate;
           EvComputeCider [(image_id q, Some caption)]],
          Raise (ValueError_construct_order order))).
Proof.
  intros Hinv. repeat split.
  - intros ev seq Hev Hseq.
    assert (built_from S C order seq) as [->|(k & c & _ & Hord & _)]; [|done..].
    destruct Hev as [Hev|Hev].
    + exact (built_from_sequences S C order _ ev seq
               (get_info_score_built sub iface S C order batch_size split_token)
               Hev Hseq).
    + exact (built_from_sequences S C order _ ev seq
               (get_cider_score_built sub compute_cider iface S C order batch_size
                  model_name ann gen_kwargs) Hev Hseq).
  - intros q sep HS -> Hsep Hne Hbs. by apply get_info_score_invalid.
  - intros q kw caption origin HS -> Hcap Horigin Hne Hbs.
    by eapply get_cider_score_invalid.
Qed.

Lemma invalid_construct_order_raises_witness :
  get_info_score Stub.qsub Stub.interface [Stub.query] Stub.candidates3 2
    (Some "Output:") "middle"
  = ([EvTransferPrompts [[Stub.query]] false; EvGetCondProb [14]],
     Raise (ValueError_construct_order "middle"))
  ∧ get_cider_score Stub.qsub Stub.compute_cider Stub.interface [Stub.query]
      Stub.candidates3 2 "flamingo" "ann.json" "middle" (Some tt)
    = ([EvTransferPrompts [[Stub.query]] true; EvGenerate;
        EvComputeCider [(900, Some "a cat")]],
       Raise (ValueError_construct_order "middle")).
Proof.
  pose proof (invalid_construct_order_raises Stub.qsub Stub.compute_cider
                Stub.interface [Stub.query] Stub.candidates3 2 (Some "Output:")
                "flamingo" "ann.json" "middle" (Some tt) middle_not_valid)
    as (_ & Hinfo & Hcider).
  split.
  - apply (Hinfo Stub.query "Output:");
      [reflexivity|reflexivity|discriminate|apply stub_candidates_nonempty|lia].
  - apply (Hcider Stub.query tt "a cat" 1%Q);
      [reflexivity|reflexivity|reflexivity|reflexivity
      |apply stub_candidates_nonempty|lia].
Defined.

(** ** [get_cider_score]: the score vector *)

Lemma cider_loop_trace_no_cider S C order batches :
  List.filter is_compute_cider (cider_loop_trace S C order batches) = [].
Proof. induction batches as [|b batches IH]; [done|exact IH]. Qed.

Lemma cider_loop_trace_generates S C order batches :
  length (List.filter is_generate (cider_loop_trace S C order batches))
  = length batches.
Proof.
  induction batches as [|b batches IH]; [done|].
  simpl. f_equal. exact IH.
Qed.

Lemma postprocessed_known model_name text :
  known_model model_name →
  postprocessed text model_name = Some (cleaned model_name text).
Proof.
  intros Hknown. unfold postprocessed, caption_postprocess, cleaned.
  destruct (PyStr.contains "flamingo" model_name) eqn:Hf; [done|].
  destruct Hknown as [H|H]; [congruence|]. by rewrite H.
Qed.

(** The records of the candidates, read off the candidate set, are the
    records built from the placements. *)
Lemma candidate_preds_records G model_name order front q (C : gmap Z Example) :
  candidate_preds G model_name order (front ++ [q]) C
  = records_of G (λ text, postprocessed text model_name) order front q
      (sorted_candidates C).
Proof.
  unfold candidate_preds, records_of. apply map_ext. intros e.
  by rewrite insert_icd_placed.
Qed.

Lemma records_of_known G model_name order front q cands :
  known_model model_name →
  records_of G (λ text, postprocessed text model_name) order front q cands
  = records_of G (λ text, Some (cleaned model_name text)) order front q cands.
Proof.
  intros Hknown. unfold records_of. apply map_ext. intros e.
  by rewrite postprocessed_known.
Qed.

Lemma stub_candidates2_images :
  ∀ k k' e e', Stub.candidates2 !! k = Some e → Stub.candidates2 !! k' = Some e' →
    image_id e = image_id e' → k = k'.
Proof.
  intros k k' e e' Hk Hk'.
  pose proof (bool_decide_unpack
                (map_Forall (λ k e,
                   map_Forall (λ k' e', image_id e = image_id e' → k = k')
                     Stub.candidates2) Stub.candidates2)) as H.
  exact (H I k e Hk k' e' Hk').
Qed.

Lemma stub_candidates2_records_covered :
  ∀ k e, Stub.candidates2 !! k = Some e →
    is_Some (Stub.compute_cider
               (records_of Stub.text (λ text, Some (cleaned "flamingo" text)) "left"
                  [] Stub.query (sorted_candidates Stub.candidates2))
               "ann.json" !! image_id e).
Proof.
  apply (bool_decide_unpack
           (map_Forall (λ (k : Z) e,
              is_Some (Stub.compute_cider
                         (records_of Stub.text (λ text, Some (cleaned "flamingo" text))
                            "left" [] Stub.query
                            (sorted_candidates Stub.candidates2))
                         "ann.json" !! image_id e))
              Stub.candidates2)).
  vm_compute. exact I.
Qed.

(** C2 (as stated, refuted): the entry of a candidate is read under its
    image, and the metric gets the caption that [caption_postprocess]
    returns. With two candidates of one image and a metric that reads the
    first record of an image, the entry of the second candidate is
    [1/2]: the score [3/2] of the text generated with the first candidate,
    minus the baseline [1]; the text generated with the second candidate
    itself scores [4/5], which would give [-1/5]. With the model name
    ["blip"] the metric gets no caption at all, and both entries are
    [0 - 1]. With two candidates that carry one [idx], the record of the
    first is replaced by the record of the second, and no vector is
    returned. *)
Lemma get_cider_score_scores_counterexample :
  keyed_by_idx Stub.candidates_same_image
  ∧ (get_cider_score Stub.qsub Stub.compute_cider Stub.interface [Stub.query]
       Stub.candidates_same_image 1 "flamingo" "ann.json" "left" (Some tt)).2
    = Ok [1 # 2; 1 # 2]%Q
  ∧ Stub.text [Stub.query] = "a cat"
  ∧ Stub.compute_cider [(900, Some "a cat")] "ann.json" !! 900 = Some 1%Q
  ∧ Stub.text [Stub.ex1_same_image; Stub.query] = "two dogs"
  ∧ Stub.compute_cider [(100, Some "two dogs")] "ann.json" !! 100 = Some (4 # 5)%Q
  ∧ Stub.qsub (4 # 5) 1 = (-1 # 5)%Q
  ∧ (1 # 2)%Q ≠ (-1 # 5)%Q
  ∧ get_cider_score Stub.qsub Stub.compute_cider Stub.interface [Stub.query]
      Stub.candidates2 1 "blip" "ann.json" "left" (Some tt)
    = ([EvTransferPrompts [[Stub.query]] true; EvGenerate;
        EvComputeCider [(900, Some "a cat")];
        EvTransferPrompts [[Stub.ex0; Stub.query]] true; EvGenerate;
        EvTransferPrompts [[Stub.ex1; Stub.query]] true; EvGenerate;
        EvComputeCider [(100, None); (101, None)]],
       Ok [-1 # 1; -1 # 1]%Q)
  ∧ get_cider_score Stub.qsub Stub.compute_cider Stub.interface [Stub.query]
      Sample.candidates_same_idx 1 "flamingo" "ann.json" "left" (Some tt)
    = ([EvTransferPrompts [[Stub.query]] true; EvGenerate;
        EvComputeCider [(900, Some "a cat")];
        EvTransferPrompts [[Stub.ex0; Stub.query]] true; EvGenerate;
        EvTransferPrompts [[mkExample 0 101 "1.jpg" "two dogs"; Stub.query]] true;
        EvGenerate;
        EvComputeCider [(101, Some "A dog.")]],
       Raise KeyError).
Proof.
  split; [apply stub_same_image_keyed|]. repeat split; try reflexivity.
  discriminate.
Qed.

(** C2 (amended): for a chosen sequence [front ++ [q]], a candidate set [C]
    keyed by [idx] whose candidates have pairwise different images, a model
    name that [caption_postprocess] knows, a batch size of at least one and
    an order among left and right, [get_cider_score] returns a vector of
    length [|C|] that follows the keys of [C] in ascending order. The
    metric is called twice: on the text generated from the chosen sequence
    alone, whose entry for the query image is [origin], and once on the
    records of all candidates. For the candidate [e] of the [i]-th key, the
    only record of its image in that call holds the caption of the text
    generated with [e] placed in the chosen sequence, and the [i]-th entry of
    the vector is the entry of that image in the result of the call, minus
    [origin]. [G] is the text that the interface decodes for each element of
    a batch; the metric is assumed to return an entry for the images it is
    asked about. *)
Theorem get_cider_score_scores {Prompts ModelInput GenKwargs score : Type}
    (sub : score → score → score)
    (compute_cider : list Pred → string → gmap Z score)
    (iface : @Interface Prompts ModelInput GenKwargs score)
    (G : list Example → string)
    (front : list Example) (q : Example) (C : gmap Z Example) (batch_size : Z)
    (model_name ann order : string) (kw : GenKwargs) (origin : score) :
  1 ≤ batch_size → valid_order order → known_model model_name →
  keyed_by_idx C →
  (∀ k k' e e', C !! k = Some e → C !! k' = Some e' →
     image_id e = image_id e' → k = k') →
  (∀ seqs, decoded_texts iface seqs kw = map G seqs) →
  compute_cider [(image_id q, Some (G (front ++ [q])))] ann !! image_id q
  = Some origin →
  (∀ k e, C !! k = Some e →
     is_Some (compute_cider
                (records_of G (λ text, Some (cleaned model_name text)) order
                   front q (sorted_candidates C)) ann !! image_id e)) →
  ∃ v,
    (get_cider_score sub compute_cider iface (front ++ [q]) C batch_size
       model_name ann order (Some kw)).2 = Ok v
    ∧ length v = size C
    ∧ StronglySorted Z.lt (sorted_keys C)
    ∧ (∀ k, k ∈ sorted_keys C ↔ is_Some (C !! k))
    ∧ List.filter is_compute_cider
        (get_cider_score sub compute_cider iface (front ++ [q]) C batch_size
           model_name ann order (Some kw)).1
      = [EvComputeCider [(image_id q, Some (G (front ++ [q])))];
         EvComputeCider
           (records_of G (λ text, Some (cleaned model_name text)) order front q
              (sorted_candidates C))]
    ∧ (∀ i k, sorted_keys C !! i = Some k →
         ∃ e x, C !! k = Some e
                ∧ (∀ caption,
                     (image_id e, caption)
                       ∈ records_of G (λ text, Some (cleaned model_name text))
                           order front q (sorted_candidates C)
                     ↔ caption
                       = Some (cleaned model_name (G (placed order front q e))))
                ∧ compute_cider
                    (records_of G (λ text, Some (cleaned model_name text)) order
                       front q (sorted_candidates C)) ann
                    !! image_id e = Some x
                ∧ v !! i = Some (sub x origin)).
Proof.
  intros Hbs Hord Hknown Hkey Himg Hlaw Horigin Hcov.
  assert (last (front ++ [q]) = Some q) as HS by apply last_snoc.
  destruct (chunked_spec (sorted_keys C) batch_size Hbs) as (bs & Hch & Hcat & _).
  pose proof (get_cider_score_run sub compute_cider iface (front ++ [q]) C
                model_name ann order kw G Hlaw q origin batch_size bs HS Horigin
                Hord Hch Hcat) as Hrun.
  rewrite accumulate_keyed, candidate_preds_records, records_of_known in Hrun
    by done.
  destruct (cider_scores_ok sub C _ origin Hcov) as [v Hv].
  exists v. rewrite Hrun. cbn [fst snd]. split; [done|].
  destruct (cider_scores_inv _ _ _ _ _ Hv) as [Hlen Hentries].
  split; [done|]. split; [apply sorted_keys_ascending|].
  split; [apply elem_of_sorted_keys|]. split.
  { rewrite !List.filter_app, cider_loop_trace_no_cider. done. }
  intros i k Hi. destruct (Hentries i k Hi) as (e & x & He & Hx & Hvi).
  exists e, x. split; [done|]. split; [|by split].
  intros caption. unfold records_of. change map with (@fmap list _).
  rewrite list_elem_of_fmap. split.
  - intros (e' & Heq & He'). inversion Heq as [[Himg' Hcap]].
    apply elem_of_sorted_candidates in He' as [k' Hk'].
    assert (k = k') as <- by (by apply (Himg k k' e e')).
    by assert (e' = e) as -> by congruence.
  - intros ->. exists e. split; [done|].
    destruct (Forall2_lookup_l _ _ _ _ _ (sorted_candidates_lookup C) Hi)
      as (e' & He' & Hk).
    assert (e' = e) as -> by congruence.
    by eapply list_elem_of_lookup_2.
Qed.

Lemma get_cider_score_scores_witness :
  ∃ v,
    (get_cider_score Stub.qsub Stub.compute_cider Stub.interface ([] ++ [Stub.query])
       Stub.candidates2 1 "flamingo" "ann.json" "left" (Some tt)).2 = Ok v
    ∧ length v = size Stub.candidates2
    ∧ StronglySorted Z.lt (sorted_keys Stub.candidates2)
    ∧ (∀ k, k ∈ sorted_keys Stub.candidates2 ↔ is_Some (Stub.candidates2 !! k))
    ∧ List.filter is_compute_cider
        (get_cider_score Stub.qsub Stub.compute_cider Stub.interface
           ([] ++ [Stub.query]) Stub.candidates2 1 "flamingo" "ann.json" "left"
           (Some tt)).1
      = [EvComputeCider [(image_id Stub.query, Some (Stub.text ([] ++ [Stub.query])))];
         EvComputeCider
           (records_of Stub.text (λ text, Some (cleaned "flamingo" text)) "left" []
              Stub.query (sorted_candidates Stub.candidates2))]
    ∧ (∀ i k, sorted_keys Stub.candidates2 !! i = Some k →
         ∃ e x, Stub.candidates2 !! k = Some e
                ∧ (∀ caption,
                     (image_id e, caption)
                       ∈ records_of Stub.text (λ text, Some (cleaned "flamingo" text))
                           "left" [] Stub.query (sorted_candidates Stub.candidates2)
                     ↔ caption
                       = Some (cleaned "flamingo"
                                 (Stub.text (placed "left" [] Stub.query e))))
                ∧ Stub.compute_cider
                    (records_of Stub.text (λ text, Some (cleaned "flamingo" text))
                       "left" [] Stub.query (sorted_candidates Stub.candidates2))
                    "ann.json" !! image_id e = Some x
                ∧ v !! i = Some (Stub.qsub x 1%Q)).
Proof.
  apply (get_cider_score_scores Stub.qsub Stub.compute_cider Stub.interface
           Stub.text [] Stub.query Stub.candidates2 1
           "flamingo" "ann.json" "left" tt 1%Q).
  - lia.
  - left. reflexivity.
  - left. reflexivity.
  - apply stub_candidates2_keyed.
  - apply stub_candidates2_images.
  - apply stub_generate_law.
  - reflexivity.
  - apply stub_candidates2_records_covered.
Defined.

(** The scenario of the specification: origin score 1.0, two candidates
    scoring 1.5 and 0.8. *)
Example get_cider_score_scenario :
  (get_cider_score Stub.qsub Stub.compute_cider Stub.interface [Stub.query]
     Stub.candidates2 1 "flamingo" "ann.json" "left" (Some tt)).2
  = Ok [1 # 2; -1 # 5]%Q.
Proof. reflexivity. Qed.

(** ** [get_cider_score]: batches and the metric *)

(** The events of the loop, batch by batch, in terms of the candidates of
    each batch. *)
Lemma cider_loop_trace_placed front q (C : gmap Z Example) order kbs :
  cider_loop_trace (front ++ [q]) C order kbs
  = concat (map (λ batch, [EvTransferPrompts (map (placed order front q) batch) true;
                           EvGenerate])
              (map (omap (λ k, C !! k)) kbs)).
Proof.
  unfold cider_loop_trace. rewrite map_map. f_equal. apply map_ext. intros kb.
  do 2 f_equal. apply map_ext. intros e. apply insert_icd_placed.
Qed.

Lemma candidate_batches (C : gmap Z Example) batch_size :
  1 ≤ batch_size →
  ∃ kbs, chunked (sorted_keys C) batch_size = Ok kbs
         ∧ concat kbs = sorted_keys C
         ∧ concat (map (omap (λ k, C !! k)) kbs) = sorted_candidates C
         ∧ Forall (λ batch, batch ≠ [] ∧ Z.of_nat (length batch) ≤ batch_size)
             (map (omap (λ k, C !! k)) kbs).
Proof.
  intros Hbs.
  destruct (chunked_spec (sorted_keys C) batch_size Hbs) as (kbs & Hch & Hcat & Hall).
  exists kbs. split; [done|]. split; [done|].
  assert (Forall (Forall (λ k, is_Some (C !! k))) kbs) as Hpresent.
  { apply Forall_concat_inv. rewrite Hcat. apply sorted_keys_present. }
  split.
  - unfold sorted_candidates. rewrite <-Hcat. clear.
    induction kbs as [|kb l IH]; [done|]. simpl. by rewrite omap_app, IH.
  - clear Hch Hcat. induction Hall as [|kb l [Hne Hlen] _ IH]; [constructor|].
    apply Forall_cons in Hpresent as [Hkb Hl].
    cbn [map]. constructor; [|by apply IH].
    pose proof (Forall2_length _ _ _ (omap_lookup_Forall2 C kb Hkb)) as Heq.
    rewrite <-Heq. split; [|done]. intros Hnil. rewrite Hnil in Heq.
    by destruct kb.
Qed.

(** C3: with a generation [G] that does not depend on how sequences are
    batched, the result of [get_cider_score] is the same for any two batch
    sizes of at least one (the score vector, or the same error). When the
    order is left or right, the baseline has a CIDEr entry and the
    candidates are keyed by [idx], the trace of a call is: the generation
    from the chosen sequence alone and its one metric call; then, for every
    batch of at most [B1] candidates, taken in ascending order of the keys,
    one generation and no metric call; then one metric call, whose records
    are those of the candidates of all batches, one for each candidate. *)
Theorem get_cider_score_batch_invariance {Prompts ModelInput GenKwargs score : Type}
    (sub : score → score → score)
    (compute_cider : list Pred → string → gmap Z score)
    (iface : @Interface Prompts ModelInput GenKwargs score)
    (G : list Example → string)
    (front : list Example) (q : Example) (C : gmap Z Example) (B1 B2 : Z)
    (model_name ann order : string) (kw : GenKwargs) :
  1 ≤ B1 → 1 ≤ B2 →
  (∀ seqs, decoded_texts iface seqs kw = map G seqs) →
  (get_cider_score sub compute_cider iface (front ++ [q]) C B1 model_name ann order
     (Some kw)).2
  = (get_cider_score sub compute_cider iface (front ++ [q]) C B2 model_name ann
       order (Some kw)).2
  ∧ (valid_order order →
     is_Some (compute_cider [(image_id q, Some (G (front ++ [q])))] ann
                !! image_id q) →
     keyed_by_idx C →
     ∃ batches : list (list Example),
       concat batches = sorted_candidates C
       ∧ Forall (λ batch, batch ≠ [] ∧ Z.of_nat (length batch) ≤ B1) batches
       ∧ (get_cider_score sub compute_cider iface (front ++ [q]) C B1 model_name
            ann order (Some kw)).1
         = [EvTransferPrompts [front ++ [q]] true; EvGenerate;
            EvComputeCider [(image_id q, Some (G (front ++ [q])))]]
             ++ concat (map (λ batch,
                               [EvTransferPrompts
                                  (map (placed order front q) batch) true;
                                EvGenerate])
                          batches)
             ++ [EvComputeCider
                   (records_of G (λ text, postprocessed text model_name) order
                      front q (concat batches))]
       ∧ List.filter is_compute_cider
           (get_cider_score sub compute_cider iface (front ++ [q]) C B1 model_name
              ann order (Some kw)).1
         = [EvComputeCider [(image_id q, Some (G (front ++ [q])))];
            EvComputeCider
              (records_of G (λ text, postprocessed text model_name) order front q
                 (concat batches))]).
Proof.
  intros HB1 HB2 Hlaw.
  assert (last (front ++ [q]) = Some q) as HS by apply last_snoc.
  assert (decoded_texts iface [front ++ [q]] kw !! 0%nat = Some (G (front ++ [q])))
    as Hcap by by rewrite Hlaw.
  destruct (candidate_batches C B1 HB1) as (bs1 & Hch1 & Hcat1 & Hcands1 & Hall1).
  destruct (chunked_spec (sorted_keys C) B2 HB2) as (bs2 & Hch2 & Hcat2 & _).
  split.
  - destruct (compute_cider [(image_id q, Some (G (front ++ [q])))] ann !! image_id q)
      as [origin|] eqn:Horigin.
    2:{ by rewrite !(get_cider_score_origin_missing sub compute_cider iface _ C
                       model_name ann order kw q _ HS Hcap _ Horigin). }
    destruct (valid_order_dec order) as [Hord|Hinv].
    { by rewrite (get_cider_score_run sub compute_cider iface _ C model_name ann
                    order kw G Hlaw q origin B1 bs1 HS Horigin Hord Hch1 Hcat1),
                 (get_cider_score_run sub compute_cider iface _ C model_name ann
                    order kw G Hlaw q origin B2 bs2 HS Horigin Hord Hch2 Hcat2). }
    destruct (decide (C = ∅)) as [->|Hne].
    + by rewrite !(get_cider_score_no_candidates sub compute_cider iface _
                     model_name ann order kw q _ origin HS Hcap Horigin) by lia.
    + by rewrite !(get_cider_score_invalid sub compute_cider iface _ C model_name
                     ann order kw q _ origin HS Hcap Horigin _ Hinv Hne) by lia.
  - intros Hord [origin Horigin] Hkey.
    exists (map (omap (λ k, C !! k)) bs1). split; [done|]. split; [done|].
    rewrite (get_cider_score_run sub compute_cider iface _ C model_name ann
               order kw G Hlaw q origin B1 bs1 HS Horigin Hord Hch1 Hcat1).
    cbn [fst].
    rewrite accumulate_keyed, candidate_preds_records, cider_loop_trace_placed,
      Hcands1 by done.
    split; [done|].
    rewrite !List.filter_app. cbn [List.filter is_compute_cider app].
    f_equal. clear. induction bs1 as [|kb l IH]; [done|exact IH].
Qed.

Lemma get_cider_score_batch_invariance_witness :
  (get_cider_score Stub.qsub Stub.compute_cider Stub.interface ([] ++ [Stub.query])
     Stub.candidates3 1 "flamingo" "ann.json" "right" (Some tt)).2
  = (get_cider_score Stub.qsub Stub.compute_cider Stub.interface
       ([] ++ [Stub.query]) Stub.candidates3 2 "flamingo" "ann.json" "right"
       (Some tt)).2.
Proof.
  apply (get_cider_score_batch_invariance Stub.qsub Stub.compute_cider
           Stub.interface Stub.text [] Stub.query Stub.candidates3 1 2
           "flamingo" "ann.json" "right" tt).
  - lia.
  - lia.
  - apply stub_generate_law.
Defined.

(** A run with three candidates in batches of two: the predictions of both
    batches reach the one metric call at the end. *)
Example get_cider_score_batches_run :
  (get_cider_score Stub.qsub Stub.compute_cider Stub.interface [Stub.query]
     Stub.candidates3 2 "flamingo" "ann.json" "right" (Some tt)).1
  = [EvTransferPrompts [[Stub.query]] true; EvGenerate;
     EvComputeCider [(900, Some "a cat")];
     EvTransferPrompts [[Stub.ex0; Stub.query]; [Stub.ex1; Stub.query]] true;
     EvGenerate;
     EvTransferPrompts [[Stub.ex2; Stub.query]] true; EvGenerate;
     EvComputeCider [(100, Some "A dog."); (101, Some "two dogs");
                     (102, Some "a bird")]].
Proof. reflexivity. Qed.

(** ** Candidates that share an image *)

Lemma bind_snd_ok_inv {A B} (m : M A) (f : A → M B) b :
  (bind m f).2 = Ok b → ∃ a, m.2 = Ok a ∧ (f a).2 = Ok b.
Proof.
  destruct m as [t [a|e]]; simpl; [|done].
  intros H. exists a. split; [done|]. by destruct (f a).
Qed.

(** A vector returned by [get_cider_score] is the last step applied to the
    result of one call of the metric. *)
Lemma get_cider_score_ok_inv {Prompts ModelInput GenKwargs score : Type}
    (sub : score → score → score)
    (compute_cider : list Pred → string → gmap Z score)
    (iface : @Interface Prompts ModelInput GenKwargs score)
    S C batch_size model_name ann order gen_kwargs v :
  (get_cider_score sub compute_cider iface S C batch_size model_name ann order
     gen_kwargs).2 = Ok v →
  ∃ origin preds, cider_scores sub C (compute_cider preds ann) origin = Ok v.
Proof.
  unfold get_cider_score. intros H.
  apply bind_snd_ok_inv in H as (generated & _ & H).
  apply bind_snd_ok_inv in H as (query & _ & H).
  apply bind_snd_ok_inv in H as (caption & _ & H).
  apply bind_snd_ok_inv in H as (_ & _ & H).
  apply bind_snd_ok_inv in H as (query' & _ & H).
  apply bind_snd_ok_inv in H as (origin & _ & H).
  apply bind_snd_ok_inv in H as (batches & _ & H).
  apply bind_snd_ok_inv in H as (output_dict & _ & H).
  apply bind_snd_ok_inv in H as (preds & _ & H).
  apply bind_snd_ok_inv in H as (_ & _ & H).
  apply bind_snd_ok_inv in H as (cs & Hcs & H).
  exists origin, preds. unfold cider_scores.
  simpl in Hcs. rewrite Hcs. exact H.
Qed.

Lemma stub_same_image_covered :
  ∀ k e, Stub.candidates_same_image !! k = Some e →
    is_Some (Stub.compute_cider
               (candidate_preds Stub.text "flamingo" "left" [Stub.query]
                  Stub.candidates_same_image)
               "ann.json" !! image_id e).
Proof.
  apply (bool_decide_unpack
           (map_Forall (λ (k : Z) e,
              is_Some (Stub.compute_cider
                         (candidate_preds Stub.text "flamingo" "left" [Stub.query]
                            Stub.candidates_same_image) "ann.json" !! image_id e))
              Stub.candidates_same_image)).
  vm_compute. exact I.
Qed.

(** C10 (as stated, refuted): two candidates, keys 0 and 1, of the same
    image 100. The prediction of key 0 is not overwritten: the prediction
    set handed to the metric holds the records of both candidates; and with
    a metric that reads the first record of an image, both scores come from
    the prediction of key 0, the smaller one (1.5 - 1.0), not from that of
    key 1 (0.8 - 1.0). *)
Lemma get_cider_score_same_image_counterexample :
  sorted_keys Stub.candidates_same_image = [0; 1]
  ∧ last (get_cider_score Stub.qsub Stub.compute_cider Stub.interface [Stub.query]
            Stub.candidates_same_image 1 "flamingo" "ann.json" "left" (Some tt)).1
    = Some (EvComputeCider [(100, Some "A dog."); (100, Some "two dogs")])
  ∧ (get_cider_score Stub.qsub Stub.compute_cider Stub.interface [Stub.query]
       Stub.candidates_same_image 1 "flamingo" "ann.json" "left" (Some tt)).2
    = Ok [Stub.qsub (Stub.cider_of_caption (Some "A dog.")) 1;
          Stub.qsub (Stub.cider_of_caption (Some "A dog.")) 1]
  ∧ Stub.qsub (Stub.cider_of_caption (Some "A dog.")) 1
    ≠ Stub.qsub (Stub.cider_of_caption (Some "two dogs")) 1.
Proof. repeat split; try reflexivity. discriminate. Qed.

(** C10 (amended): the final scores are looked up by [image_id]. Whenever
    [get_cider_score] returns a vector, the entries of two candidates of the
    same image are equal. Moreover, for a candidate set keyed by [idx] and
    under the conditions of a complete run, the accumulated predictions are
    keyed by [idx], so the records of both candidates are in the prediction
    set of the last metric call, and both entries are the CIDEr entry that
    this call returns for the common image, minus the baseline. *)
Theorem get_cider_score_same_image {Prompts ModelInput GenKwargs score : Type}
    (sub : score → score → score)
    (compute_cider : list Pred → string → gmap Z score)
    (iface : @Interface Prompts ModelInput GenKwargs score)
    (G : list Example → string)
    (S : list Example) (q : Example) (C : gmap Z Example) (batch_size : Z)
    (model_name ann order : string) (gen_kwargs : option GenKwargs)
    (i j : nat) (ki kj : Z) (ei ej : Example) :
  sorted_keys C !! i = Some ki → sorted_keys C !! j = Some kj →
  C !! ki = Some ei → C !! kj = Some ej →
  image_id ei = image_id ej →
  (∀ v, (get_cider_score sub compute_cider iface S C batch_size model_name ann
           order gen_kwargs).2 = Ok v →
        v !! i = v !! j)
  ∧ (∀ kw origin,
       gen_kwargs = Some kw → last S = Some q → 1 ≤ batch_size →
       valid_order order → keyed_by_idx C →
       (∀ seqs, decoded_texts iface seqs kw = map G seqs) →
       compute_cider [(image_id q, Some (G S))] ann !! image_id q = Some origin →
       (∀ k e, C !! k = Some e →
          is_Some (compute_cider (candidate_preds G model_name order S C) ann
                     !! image_id e)) →
       ∃ v x,
         (get_cider_score sub compute_cider iface S C batch_size model_name ann
            order gen_kwargs).2 = Ok v
         ∧ last (get_cider_score sub compute_cider iface S C batch_size model_name
                   ann order gen_kwargs).1
           = Some (EvComputeCider (candidate_preds G model_name order S C))
         ∧ (image_id ei, postprocessed (G (insert_icd order S ei)) model_name)
             ∈ candidate_preds G model_name order S C
         ∧ (image_id ej, postprocessed (G (insert_icd order S ej)) model_name)
             ∈ candidate_preds G model_name order S C
         ∧ compute_cider (candidate_preds G model_name order S C) ann
             !! image_id ei = Some x
         ∧ v !! i = Some (sub x origin)
         ∧ v !! j = Some (sub x origin)).
Proof.
  intros Hi Hj Hei Hej Himg.
  assert (∀ v origin info, cider_scores sub C info origin = Ok v →
            ∃ x, info !! image_id ei = Some x
                 ∧ v !! i = Some (sub x origin) ∧ v !! j = Some (sub x origin))
    as Hsame.
  { intros v origin info Hv.
    destruct (cider_scores_inv _ _ _ _ _ Hv) as [_ Hentries].
    destruct (Hentries i ki Hi) as (e1 & x1 & He1 & Hx1 & Hv1).
    destruct (Hentries j kj Hj) as (e2 & x2 & He2 & Hx2 & Hv2).
    assert (e1 = ei) as -> by congruence.
    assert (e2 = ej) as -> by congruence.
    rewrite <-Himg, Hx1 in Hx2. inversion Hx2; subst.
    by exists x2. }
  assert (∀ k e n, sorted_keys C !! n = Some k → C !! k = Some e →
            (image_id e, postprocessed (G (insert_icd order S e)) model_name)
              ∈ candidate_preds G model_name order S C) as Hin.
  { intros k e n Hn He. unfold candidate_preds. change map with (@fmap list _).
    apply list_elem_of_fmap. exists e. split; [done|].
    destruct (Forall2_lookup_l _ _ _ _ _ (sorted_candidates_lookup C) Hn)
      as (e' & He' & Hk).
    assert (e' = e) as -> by congruence.
    by eapply list_elem_of_lookup_2. }
  split.
  - intros v Hv.
    apply get_cider_score_ok_inv in Hv as (origin & preds & Hv).
    destruct (Hsame _ _ _ Hv) as (x & _ & -> & ->). done.
  - intros kw origin -> HS Hbs Hord Hkey Hlaw Horigin Hcov.
    destruct (chunked_spec (sorted_keys C) batch_size Hbs) as (bs & Hch & Hcat & _).
    pose proof (get_cider_score_run sub compute_cider iface S C model_name ann
                  order kw G Hlaw q origin batch_size bs HS Horigin Hord Hch Hcat)
      as Hrun.
    rewrite accumulate_keyed in Hrun by done.
    destruct (cider_scores_ok sub C _ origin Hcov) as [v Hv].
    destruct (Hsame _ _ _ Hv) as (x & Hx & Hvi & Hvj).
    exists v, x. rewrite Hrun. cbn [fst snd].
    split; [done|]. split.
    { by rewrite !app_assoc, last_snoc. }
    eauto 10.
Qed.

Lemma get_cider_score_same_image_witness :
  ∃ v x,
    (get_cider_score Stub.qsub Stub.compute_cider Stub.interface [Stub.query]
       Stub.candidates_same_image 1 "flamingo" "ann.json" "left" (Some tt)).2 = Ok v
    ∧ last (get_cider_score Stub.qsub Stub.compute_cider Stub.interface [Stub.query]
              Stub.candidates_same_image 1 "flamingo" "ann.json" "left" (Some tt)).1
      = Some (EvComputeCider
                (candidate_preds Stub.text "flamingo" "left" [Stub.query]
                   Stub.candidates_same_image))
    ∧ (image_id Stub.ex0,
       postprocessed (Stub.text (insert_icd "left" [Stub.query] Stub.ex0)) "flamingo")
        ∈ candidate_preds Stub.text "flamingo" "left" [Stub.query]
            Stub.candidates_same_image
    ∧ (image_id Stub.ex1_same_image,
       postprocessed (Stub.text (insert_icd "left" [Stub.query] Stub.ex1_same_image))
         "flamingo")
        ∈ candidate_preds Stub.text "flamingo" "left" [Stub.query]
            Stub.candidates_same_image
    ∧ Stub.compute_cider
        (candidate_preds Stub.text "flamingo" "left" [Stub.query]
           Stub.candidates_same_image) "ann.json" !! image_id Stub.ex0 = Some x
    ∧ v !! 0%nat = Some (Stub.qsub x 1%Q)
    ∧ v !! 1%nat = Some (Stub.qsub x 1%Q).
Proof.
  apply (proj2 (get_cider_score_same_image Stub.qsub Stub.compute_cider
                  Stub.interface Stub.text [Stub.query] Stub.query
                  Stub.candidates_same_image 1 "flamingo" "ann.json" "left"
                  (Some tt) 0%nat 1%nat 0 1 Stub.ex0 Stub.ex1_same_image
                  eq_refl eq_refl eq_refl eq_refl eq_refl) tt 1%Q).
  - reflexivity.
  - reflexivity.
  - lia.
  - left. reflexivity.
  - apply stub_same_image_keyed.
  - apply stub_generate_law.
  - reflexivity.
  - apply stub_same_image_covered.
Defined.

(** ** The random sampler *)

Section RandSamplerFacts.

Variable draws : nat → list Z.
Variables (candidate_num : Z) (len_train_ds : nat).

(** The loop returns a draw of the generator that does not hold the anchor,
    and every draw it went through before held it. *)
Lemma resample_spec fuel s_idx cur t c t' :
  resample draws candidate_num len_train_ds fuel s_idx cur t = Some (Ok (c, t')) →
  (s_idx ∉ c)
  ∧ ((c = cur ∧ t' = t)
     ∨ (s_idx ∈ cur
        ∧ ∃ j, (t ≤ j)%nat ∧ t' = Datatypes.S j ∧ c = draws j
               ∧ ∀ i, (t ≤ i < j)%nat → s_idx ∈ draws i)).
Proof.
  revert cur t. induction fuel as [|fuel IH]; intros cur t H; [done|].
  simpl in H. case_bool_decide as Hin.
  - unfold random_sample in H.
    destruct ((candidate_num <? 0) || (Z.of_nat len_train_ds <? candidate_num));
      [done|].
    apply IH in H as [Hnot [[-> ->]|(Hin' & j & Hj & -> & -> & Hbefore)]].
    + split; [done|]. right. split; [done|]. exists t. repeat split; try done; lia.
    + split; [done|]. right. split; [done|].
      exists j. repeat split; try done; [lia|].
      intros i Hi. destruct (decide (i = t)) as [->|]; [done|]. apply Hbefore. lia.
  - inversion H; subst. split; [done|by left].
Qed.

Lemma sample_anchor_spec fuel s_idx t c t' :
  sample_anchor draws candidate_num len_train_ds fuel s_idx t = Some (Ok (c, t')) →
  ∃ j, (t ≤ j)%nat ∧ t' = Datatypes.S j ∧ c = draws j ∧ (s_idx ∉ draws j)
       ∧ ∀ i, (t ≤ i < j)%nat → s_idx ∈ draws i.
Proof.
  unfold sample_anchor, random_sample.
  destruct ((candidate_num <? 0) || (Z.of_nat len_train_ds <? candidate_num));
    [done|].
  intros H. apply resample_spec in H as [Hnot [[-> ->]|(Hin & j & Hj & -> & -> & Hb)]].
  - exists t. repeat split; try done. lia.
  - exists j. repeat split; try done; [lia|].
    intros i Hi. destruct (decide (i = t)) as [->|]; [done|]. apply Hb. lia.
Qed.

Lemma sample_loop_spec fuel anchor_set d0 t d t' :
  sample_loop draws candidate_num len_train_ds fuel anchor_set d0 t
  = Some (Ok (d, t')) →
  (∀ a, a ∈ anchor_set ∨ is_Some (d0 !! a) → is_Some (d !! a))
  ∧ (∀ a c, d !! a = Some c →
       (a ∈ anchor_set ∧ (a ∉ c) ∧ ∃ j, c = draws j) ∨ d0 !! a = Some c).
Proof.
  revert d0 t. induction anchor_set as [|s_idx rest IH]; intros d0 t H; simpl in H.
  { inversion H; subst. split; [|by right].
    intros a [Ha|Ha]; [by inversion Ha|done]. }
  destruct (sample_anchor _ _ _ fuel s_idx t) as [[[c0 t0]|e]|] eqn:Hanchor;
    [|done..].
  apply sample_anchor_spec in Hanchor as (j & _ & _ & -> & Hnot & _).
  apply IH in H as [Hdom Hval]. split.
  - intros a Ha. apply Hdom.
    destruct Ha as [Ha|Ha].
    + apply elem_of_cons in Ha as [->|Ha]; [|by left].
      right. by rewrite lookup_insert_eq.
    + right. destruct (decide (s_idx = a)) as [->|Hne].
      * by rewrite lookup_insert_eq.
      * by rewrite lookup_insert_ne.
  - intros a c Hc. destruct (Hval a c Hc) as [(Ha & Hac & Hj)|Hd1].
    + left. split; [by right|done].
    + destruct (decide (s_idx = a)) as [->|Hne].
      * rewrite lookup_insert_eq in Hd1. inversion Hd1; subst.
        left. split; [by left|]. split; [done|by exists j].
      * rewrite lookup_insert_ne in Hd1 by done. by right.
Qed.

(** With valid arguments, the loop ends as soon as the generator yields a
    draw without the anchor within the tests that the fuel allows. *)
Lemma resample_total fuel s_idx cur t :
  0 ≤ candidate_num ≤ Z.of_nat len_train_ds →
  ((s_idx ∉ cur) ∧ (0 < fuel)%nat)
  ∨ (∃ j, (t ≤ j)%nat ∧ (Datatypes.S j < t + fuel)%nat ∧ s_idx ∉ draws j) →
  ∃ c t', resample draws candidate_num len_train_ds fuel s_idx cur t
          = Some (Ok (c, t')).
Proof.
  intros Hk. revert cur t. induction fuel as [|fuel IH]; intros cur t Hgood.
  { destruct Hgood as [[_ ?]|(j & ? & ? & _)]; lia. }
  simpl. case_bool_decide as Hin; [|by eauto].
  destruct Hgood as [[? _]|(j & Hj & Hlt & Hnot)]; [done|].
  unfold random_sample.
  destruct (Z.ltb_spec candidate_num 0); [lia|].
  destruct (Z.ltb_spec (Z.of_nat len_train_ds) candidate_num); [lia|].
  simpl. apply IH. destruct (decide (j = t)) as [->|Hne].
  - left. split; [done|lia].
  - right. exists j. repeat split; [lia|lia|done].
Qed.

Lemma sample_anchor_total fuel s_idx t :
  0 ≤ candidate_num ≤ Z.of_nat len_train_ds →
  (∃ j, (t ≤ j < t + fuel)%nat ∧ s_idx ∉ draws j) →
  ∃ c t', sample_anchor draws candidate_num len_train_ds fuel s_idx t
          = Some (Ok (c, t')).
Proof.
  intros Hk (j & Hj & Hnot). unfold sample_anchor, random_sample.
  destruct (Z.ltb_spec candidate_num 0); [lia|].
  destruct (Z.ltb_spec (Z.of_nat len_train_ds) candidate_num); [lia|].
  simpl. apply resample_total; [done|].
  destruct (decide (j = t)) as [->|Hne].
  - left. split; [done|lia].
  - right. exists j. repeat split; [lia|lia|done].
Qed.

Lemma sample_loop_total fuel anchor_set d0 t :
  0 ≤ candidate_num ≤ Z.of_nat len_train_ds →
  (∀ a t0, a ∈ anchor_set → ∃ j, (t0 ≤ j < t0 + fuel)%nat ∧ a ∉ draws j) →
  ∃ d t', sample_loop draws candidate_num len_train_ds fuel anchor_set d0 t
          = Some (Ok (d, t')).
Proof.
  intros Hk. revert d0 t.
  induction anchor_set as [|s_idx rest IH]; intros d0 t Hfair; simpl; [by eauto|].
  destruct (sample_anchor_total fuel s_idx t Hk) as (c & t' & ->).
  { apply Hfair. by left. }
  apply IH. intros a t0 Ha. apply Hfair. by right.
Qed.

End RandSamplerFacts.

Lemma stub_draws_contract (t : nat) :
  NoDup (Stub.draws t) ∧ Z.of_nat (length (Stub.draws t)) = 2
  ∧ ∀ x, x ∈ Stub.draws t → 0 ≤ x < Z.of_nat 4.
Proof.
  unfold Stub.draws. destruct (Nat.even t); (split; [|split; [done|]]).
  - apply (bool_decide_unpack _). by vm_compute.
  - intros x Hx. repeat (apply elem_of_cons in Hx as [->|Hx]; [lia|]).
    by apply elem_of_nil in Hx.
  - apply (bool_decide_unpack _). by vm_compute.
  - intros x Hx. repeat (apply elem_of_cons in Hx as [->|Hx]; [lia|]).
    by apply elem_of_nil in Hx.
Qed.

(** C6: when every call of [random.sample] returns [candidate_num] distinct
    indices of [[0, len(train_ds))], every candidate list that
    [RandSampler.sample] returns for an anchor [a] does not hold [a], has
    exactly [candidate_num] distinct elements, all in [[0, len(train_ds))],
    and is one whole draw of the generator. For one anchor, the loop
    returns the first draw without the anchor: every earlier draw held it
    and was dropped whole. The call returns as soon as, for every anchor,
    such a draw comes within the tests that the fuel allows. *)
Theorem rand_sampler_sample (draws : nat → list Z) (candidate_num : Z)
    (len_train_ds : nat) :
  (∀ t, NoDup (draws t) ∧ Z.of_nat (length (draws t)) = candidate_num
        ∧ ∀ x, x ∈ draws t → 0 ≤ x < Z.of_nat len_train_ds) →
  candidate_num ≤ Z.of_nat len_train_ds →
  (∀ fuel anchor_set t d t',
     sample draws candidate_num len_train_ds fuel anchor_set t = Some (Ok (d, t')) →
     ∀ a, a ∈ anchor_set →
       ∃ c, d !! a = Some c ∧ (a ∉ c) ∧ NoDup c
            ∧ Z.of_nat (length c) = candidate_num
            ∧ (∀ x, x ∈ c → 0 ≤ x < Z.of_nat len_train_ds)
            ∧ ∃ j, c = draws j)
  ∧ (∀ fuel a t c t',
       sample_anchor draws candidate_num len_train_ds fuel a t = Some (Ok (c, t')) →
       ∃ j, (t ≤ j)%nat ∧ t' = S j ∧ c = draws j ∧ (a ∉ draws j)
            ∧ ∀ i, (t ≤ i < j)%nat → a ∈ draws i)
  ∧ (∀ fuel anchor_set t,
       (∀ a t0, a ∈ anchor_set → ∃ j, (t0 ≤ j < t0 + fuel)%nat ∧ a ∉ draws j) →
       ∃ d t', sample draws candidate_num len_train_ds fuel anchor_set t
               = Some (Ok (d, t'))).
Proof.
  intros Hcontract Hle.
  assert (0 ≤ candidate_num ≤ Z.of_nat len_train_ds) as Hk.
  { destruct (Hcontract 0%nat) as (_ & <- & _). lia. }
  split; [|split].
  - intros fuel anchor_set t d t' Hrun a Ha.
    apply sample_loop_spec in Hrun as [Hdom Hval].
    destruct (Hdom a (or_introl Ha)) as [c Hc]. exists c. split; [done|].
    destruct (Hval a c Hc) as [(_ & Hnot & j & ->)|Hempty].
    + destruct (Hcontract j) as (Hnd & Hlen & Hrange). eauto 10.
    + by rewrite lookup_empty in Hempty.
  - intros fuel a t c t'. apply sample_anchor_spec.
  - intros fuel anchor_set t Hfair. by apply sample_loop_total.
Qed.

Lemma rand_sampler_sample_witness :
  ∃ c, (<[7 := [2; 3]]> (<[3 := [0; 1]]> (<[0 := [2; 3]]> ∅)) : gmap Z (list Z))
         !! 0 = Some c
       ∧ (0 ∉ c) ∧ NoDup c ∧ Z.of_nat (length c) = 2
       ∧ (∀ x, x ∈ c → 0 ≤ x < Z.of_nat 4)
       ∧ ∃ j, c = Stub.draws j.
Proof.
  apply (proj1 (rand_sampler_sample Stub.draws 2 4 stub_draws_contract
                  ltac:(lia)) 2%nat [0; 3; 7] 0%nat _ 4%nat).
  - reflexivity.
  - left.
Defined.

(** The run behind the witness: the first draw for anchor 0 holds 0 and is
    dropped; four draws are used for the three anchors. *)
Example rand_sampler_sample_run :
  sample Stub.draws 2 4 2 [0; 3; 7] 0
  = Some (Ok (<[7 := [2; 3]]> (<[3 := [0; 1]]> (<[0 := [2; 3]]> ∅)), 4%nat)).
Proof. reflexivity. Qed.

(** * Properties of the further functions *)

(** ** [data_split] *)

Lemma rmapM_py_last (l : list (list Z)) :
  rmapM py_last l
  = if forallb nonempty l then Ok (omap last l) else Raise IndexError.
Proof.
  induction l as [|i l IH]; [done|].
  simpl. unfold py_last at 1. destruct i as [|x i]; [done|].
  destruct (last (x :: i)) as [y|] eqn:Hy.
  - simpl. rewrite IH. by destruct (forallb nonempty l).
  - by apply last_None in Hy.
Qed.

Lemma test_dataset_ids_spec (gd : GeneratedData) :
  test_dataset_ids gd
  = if forallb nonempty (all_sequences gd)
    then Ok (omap last (all_sequences gd)) else Raise IndexError.
Proof.
  induction gd as [|[d id_list] gd IH]; [done|].
  cbn [test_dataset_ids]. unfold all_sequences in *. cbn [map snd concat].
  rewrite rmapM_py_last, forallb_app, omap_app.
  destruct (forallb nonempty id_list); [|done].
  simpl. rewrite IH. by destruct (forallb nonempty _).
Qed.

Section DataSplitFacts.

Variable train_len : nat → Z.

Lemma data_split_inner_spec (train ids : gset Z) l tr va :
  Forall (λ i, ∃ x, last i = Some x ∧ x ∈ ids) l →
  data_split_inner train (ids ∖ train) l tr va
  = Return (tr ++ filter (λ i, last_in train i) l,
            va ++ filter (λ i, ¬ last_in train i) l).
Proof.
  intros Hl. revert tr va.
  induction Hl as [|i l (x & Hx & Hin) _ IH]; intros tr va.
  { simpl. by rewrite !app_nil_r. }
  assert (last_in train i = bool_decide (x ∈ train)) as Hli
    by (unfold last_in; by rewrite Hx).
  cbn [data_split_inner]. unfold py_last. rewrite Hx, !filter_cons.
  destruct (bool_decide (x ∈ train)) eqn:Htrain.
  - rewrite decide_True, decide_False by (rewrite Hli; simpl; tauto).
    rewrite IH. by rewrite <-app_assoc.
  - rewrite decide_False, decide_True by (rewrite Hli; simpl; tauto).
    apply bool_decide_eq_false in Htrain.
    rewrite bool_decide_true by set_solver. rewrite IH. by rewrite <-app_assoc.
Qed.

Lemma data_split_outer_spec (train ids : gset Z) (gd : GeneratedData) tr va :
  Forall (λ i, ∃ x, last i = Some x ∧ x ∈ ids) (all_sequences gd) →
  data_split_outer train (ids ∖ train) gd tr va
  = Return (tr ++ filter (λ i, last_in train i) (all_sequences gd),
            va ++ filter (λ i, ¬ last_in train i) (all_sequences gd)).
Proof.
  revert tr va. induction gd as [|[d id_list] gd IH]; intros tr va Hall.
  { simpl. by rewrite !app_nil_r. }
  unfold all_sequences in *. cbn [map snd concat] in *.
  apply Forall_app in Hall as [Hhere Hrest].
  cbn [data_split_outer]. rewrite (data_split_inner_spec _ _ _ _ _ Hhere).
  rewrite IH by done. by rewrite !filter_app, !app_assoc.
Qed.

Lemma all_sequences_ids (gd : GeneratedData) :
  forallb nonempty (all_sequences gd) = true →
  Forall (λ i, ∃ x, last i = Some x ∧ x ∈ test_id_set gd) (all_sequences gd).
Proof.
  intros Hne. apply Forall_forall. intros i Hi.
  destruct (last i) as [x|] eqn:Hx.
  - exists x. split; [done|]. unfold test_id_set.
    apply elem_of_list_to_set, list_elem_of_omap. eauto.
  - apply last_None in Hx as ->.
    rewrite forallb_forall in Hne. apply list_elem_of_In in Hi.
    by apply Hne in Hi.
Qed.

(** What [data_split] returns: the sequences whose test id is a train id,
    and the others, both in the order of [generated_data]. *)
Lemma data_split_spec (gd : GeneratedData) :
  data_split train_len gd
  = if forallb nonempty (all_sequences gd)
    then Return
           (filter (λ i, last_in (train_ids_of train_len (test_id_set gd)) i)
              (all_sequences gd),
            filter (λ i, ¬ last_in (train_ids_of train_len (test_id_set gd)) i)
              (all_sequences gd))
    else Throw (Core IndexError).
Proof.
  unfold data_split. rewrite test_dataset_ids_spec.
  destruct (forallb nonempty (all_sequences gd)) eqn:Hne; [|done].
  fold (test_id_set gd).
  by rewrite (data_split_outer_spec _ _ gd [] [] (all_sequences_ids gd Hne)).
Qed.

End DataSplitFacts.

Lemma sorted_elements (ids : gset Z) :
  StronglySorted Z.lt (merge_sort Z.le (elements ids))
  ∧ NoDup (merge_sort Z.le (elements ids))
  ∧ (∀ x, x ∈ merge_sort Z.le (elements ids) ↔ x ∈ ids)
  ∧ length (merge_sort Z.le (elements ids)) = size ids.
Proof.
  assert (NoDup (merge_sort Z.le (elements ids))) as Hnd.
  { rewrite merge_sort_Permutation. apply NoDup_elements. }
  split; [|split; [done|split]].
  - apply StronglySorted_le_lt; [|done].
    apply StronglySorted_merge_sort; apply _.
  - intros x. by rewrite merge_sort_Permutation, elem_of_elements.
  - by rewrite merge_sort_Permutation.
Qed.

Lemma py_slice_to_take {A} (l : list A) k :
  py_slice_to l k = take (slice_count (length l) k) l.
Proof.
  unfold py_slice_to, slice_count. destruct (Z.ltb_spec k 0).
  - f_equal. lia.
  - destruct (Z.le_gt_cases k (Z.of_nat (length l))).
    + f_equal. lia.
    + rewrite !take_ge by lia. done.
Qed.

Section TrainIds.

Variable train_len : nat → Z.

Lemma train_ids_subset (ids : gset Z) : train_ids_of train_len ids ⊆ ids.
Proof.
  intros x. unfold train_ids_of. rewrite elem_of_list_to_set, py_slice_to_take.
  intros Hx. apply elem_of_take in Hx as (i & Hi & _).
  apply (sorted_elements ids). by eapply list_elem_of_lookup_2.
Qed.

(** The train ids are the smallest ids. *)
Lemma train_ids_below (ids : gset Z) x y :
  x ∈ train_ids_of train_len ids → y ∈ ids → y ∉ train_ids_of train_len ids →
  x < y.
Proof.
  unfold train_ids_of. rewrite !elem_of_list_to_set, py_slice_to_take.
  set (l := merge_sort Z.le (elements ids)).
  set (m := slice_count _ _). intros Hx Hy Hny.
  destruct (sorted_elements ids) as (Hsorted & _ & Hmem & _). fold l in Hsorted, Hmem.
  rewrite <-(take_drop m l) in Hsorted.
  apply (StronglySorted_app_1_elem_of _ _ _ _ _ Hsorted Hx).
  apply Hmem in Hy. rewrite <-(take_drop m l) in Hy.
  apply elem_of_app in Hy as [Hy|Hy]; [done|exact Hy].
Qed.

Lemma size_train_ids (ids : gset Z) :
  size (train_ids_of train_len ids)
  = slice_count (size ids) (train_len (size ids)).
Proof.
  unfold train_ids_of. destruct (sorted_elements ids) as (_ & Hnd & _ & Hlen).
  rewrite py_slice_to_take, Hlen.
  set (m := slice_count _ _).
  rewrite <-(take_drop m (merge_sort Z.le (elements ids))) in Hnd.
  apply NoDup_app in Hnd as [Hnd _].
  rewrite size_list_to_set, length_take, Hlen by done.
  unfold m, slice_count. destruct (Z.ltb_spec (train_len (size ids)) 0); lia.
Qed.

End TrainIds.

Lemma data_split_return_inv train_len (gd : GeneratedData) tr va :
  data_split train_len gd = Return (tr, va) →
  forallb nonempty (all_sequences gd) = true
  ∧ tr = filter (λ i, last_in (train_ids_of train_len (test_id_set gd)) i)
           (all_sequences gd)
  ∧ va = filter (λ i, ¬ last_in (train_ids_of train_len (test_id_set gd)) i)
           (all_sequences gd).
Proof.
  rewrite data_split_spec.
  destruct (forallb nonempty (all_sequences gd)); [|done].
  by intros [= <- <-].
Qed.

Lemma last_in_true (ids : gset Z) i :
  last_in ids i ↔ ∃ x, last i = Some x ∧ x ∈ ids.
Proof.
  unfold last_in. destruct (last i) as [x|].
  - rewrite bool_decide_spec. split.
    + intros Hx. by exists x.
    + by intros (x' & [= <-] & Hx).
  - simpl. split; [done|]. by intros (x & Hx & _).
Qed.

(** X1: [data_split] raises [IndexError] when some sequence is empty and
    returns otherwise; the [ValueError] of its last branch is never
    raised. *)
Theorem data_split_outcome (train_len : nat → Z) (gd : GeneratedData) :
  (Forall (λ i, i ≠ []) (all_sequences gd) →
   ∃ tr va, data_split train_len gd = Return (tr, va))
  ∧ (Exists (λ i, i = []) (all_sequences gd) →
     data_split train_len gd = Throw (Core IndexError))
  ∧ data_split train_len gd ≠ Throw ValueError.
Proof.
  rewrite data_split_spec.
  destruct (forallb nonempty (all_sequences gd)) eqn:Hne.
  - split; [by eauto|]. split; [|done].
    intros Hex. apply Exists_exists in Hex as (i & Hi & ->).
    rewrite forallb_forall in Hne. apply list_elem_of_In in Hi.
    by apply Hne in Hi.
  - split; [|done]. intros Hall. exfalso.
    assert (forallb nonempty (all_sequences gd) = true); [|congruence].
    apply forallb_forall. intros i Hi. apply list_elem_of_In in Hi.
    rewrite Forall_forall in Hall. specialize (Hall i Hi). by destruct i.
Qed.

Lemma data_split_outcome_witness :
  (∃ tr va, data_split Sample.half Sample.generated_data = Return (tr, va))
  ∧ data_split Sample.half [("a", [[3; 10]; []])] = Throw (Core IndexError).
Proof.
  split.
  - apply (proj1 (data_split_outcome Sample.half Sample.generated_data)).
    repeat constructor; discriminate.
  - apply (proj1 (proj2 (data_split_outcome Sample.half [("a", [[3; 10]; []])]))).
    right. left. reflexivity.
Defined.

(** X2: the two lists that [data_split] returns share out the sequences of
    [generated_data]: together they are a permutation of all of them, and
    each keeps the order in which the sequences are met. *)
Theorem data_split_partition (train_len : nat → Z) (gd : GeneratedData) tr va :
  data_split train_len gd = Return (tr, va) →
  tr ++ va ≡ₚ all_sequences gd
  ∧ sublist tr (all_sequences gd)
  ∧ sublist va (all_sequences gd).
Proof.
  intros (_ & -> & ->)%data_split_return_inv. split; [|split].
  - apply filter_app_complement.
  - apply sublist_filter.
  - apply sublist_filter.
Qed.

Lemma data_split_partition_witness :
  [[3; 7; 10]; [5; 10]] ++ [[1; 11]; [2; 12]] ≡ₚ all_sequences Sample.generated_data
  ∧ sublist [[3; 7; 10]; [5; 10]] (all_sequences Sample.generated_data)
  ∧ sublist [[1; 11]; [2; 12]] (all_sequences Sample.generated_data).
Proof.
  apply (data_split_partition Sample.half Sample.generated_data). reflexivity.
Defined.

(** X3: the split follows the order of the test ids: the test id of every
    sequence of the train list is smaller than the test id of every
    sequence of the validation list. No test id is on both sides. *)
Theorem data_split_ordered (train_len : nat → Z) (gd : GeneratedData) tr va
    (i j : list Z) (x y : Z) :
  data_split train_len gd = Return (tr, va) →
  i ∈ tr → j ∈ va → last i = Some x → last j = Some y → x < y.
Proof.
  intros (Hne & -> & ->)%data_split_return_inv Hi Hj Hx Hy.
  apply list_elem_of_filter in Hi as [Hi _].
  apply list_elem_of_filter in Hj as [Hj Hjall].
  apply last_in_true in Hi as (x' & Hx' & Hin).
  assert (x' = x) as -> by congruence.
  apply (train_ids_below train_len (test_id_set gd)); [done|..].
  - unfold test_id_set. apply elem_of_list_to_set, list_elem_of_omap. eauto.
  - intros Hy'. apply Hj. apply last_in_true. eauto.
Qed.

Lemma data_split_ordered_witness : 10 < 12.
Proof.
  apply (data_split_ordered Sample.half Sample.generated_data
           [[3; 7; 10]; [5; 10]] [[1; 11]; [2; 12]] [5; 10] [2; 12] 10 12).
  - reflexivity.
  - right. left.
  - right. left.
  - reflexivity.
  - reflexivity.
Defined.

(** X4: the train list holds exactly the sequences of the [k] smallest test
    ids, where [k] is what the slice [[:train_data_len]] keeps of the [n]
    distinct test ids: [min(train_data_len, n)], or [max(0, n +
    train_data_len)] when [train_data_len] is negative. With
    [train_data_len = 0] the train list is empty; with [train_data_len >= n]
    the validation list is empty. *)
Theorem data_split_train_ids (train_len : nat → Z) (gd : GeneratedData) tr va :
  data_split train_len gd = Return (tr, va) →
  (list_to_set (omap last tr) : gset Z) = train_ids_of train_len (test_id_set gd)
  ∧ size (train_ids_of train_len (test_id_set gd))
    = slice_count (size (test_id_set gd)) (train_len (size (test_id_set gd)))
  ∧ (train_len (size (test_id_set gd)) = 0 → tr = [])
  ∧ (Z.of_nat (size (test_id_set gd)) ≤ train_len (size (test_id_set gd)) → va = []).
Proof.
  intros (Hne & -> & ->)%data_split_return_inv.
  set (train := train_ids_of train_len (test_id_set gd)).
  assert (∀ x, x ∈ train →
            ∃ i, i ∈ all_sequences gd ∧ last i = Some x) as Hcover.
  { intros x Hx. apply (train_ids_subset train_len) in Hx.
    unfold test_id_set in Hx.
    by apply elem_of_list_to_set, list_elem_of_omap in Hx. }
  split; [|split; [apply size_train_ids|split]].
  - apply set_eq. intros x.
    rewrite elem_of_list_to_set, list_elem_of_omap. split.
    + intros (i & Hi & Hx). apply list_elem_of_filter in Hi as [Hi _].
      apply last_in_true in Hi as (x' & Hx' & Hin). congruence.
    + intros Hx. destruct (Hcover x Hx) as (i & Hi & Hlast).
      exists i. split; [|done]. apply list_elem_of_filter. split; [|done].
      apply last_in_true. eauto.
  - intros Hzero.
    assert (train = ∅) as Hempty.
    { apply leibniz_equiv, size_empty_inv.
      unfold train. rewrite size_train_ids, Hzero. unfold slice_count. simpl. lia. }
    destruct (filter _ _) as [|i l] eqn:Hf; [done|].
    assert (i ∈ filter (λ i, last_in train i) (all_sequences gd)) as Hi
      by (rewrite Hf; left).
    apply list_elem_of_filter in Hi as [Hi _].
    apply last_in_true in Hi as (x & _ & Hx). rewrite Hempty in Hx. set_solver.
  - intros Hall.
    assert (train = test_id_set gd) as Hfull.
    { apply leibniz_equiv, set_subseteq_size_equiv.
      - apply train_ids_subset.
      - unfold train. rewrite size_train_ids. unfold slice_count.
        destruct (Z.ltb_spec (train_len (size (test_id_set gd))) 0); lia. }
    destruct (filter _ _) as [|i l] eqn:Hf; [done|].
    assert (i ∈ filter (λ i, ¬ last_in train i) (all_sequences gd)) as Hi
      by (rewrite Hf; left).
    apply list_elem_of_filter in Hi as [Hi Hiall]. destruct Hi.
    pose proof (all_sequences_ids gd Hne) as Hids.
    rewrite Forall_forall in Hids.
    destruct (Hids i Hiall) as (x & Hx & Hin).
    apply last_in_true. exists x. by rewrite Hfull.
Qed.

Lemma data_split_train_ids_witness :
  (list_to_set (omap last [[3; 7; 10]; [5; 10]]) : gset Z)
  = train_ids_of Sample.half (test_id_set Sample.generated_data)
  ∧ size (train_ids_of Sample.half (test_id_set Sample.generated_data))
    = slice_count (size (test_id_set Sample.generated_data))
        (Sample.half (size (test_id_set Sample.generated_data)))
  ∧ (Sample.half (size (test_id_set Sample.generated_data)) = 0 →
     [[3; 7; 10]; [5; 10]] = [])
  ∧ (Z.of_nat (size (test_id_set Sample.generated_data))
     ≤ Sample.half (size (test_id_set Sample.generated_data)) →
     [[1; 11]; [2; 12]] = []).
Proof.
  apply (data_split_train_ids Sample.half Sample.generated_data
           [[3; 7; 10]; [5; 10]] [[1; 11]; [2; 12]]).
  reflexivity.
Defined.

(** ** The scoring engine at the edges of its inputs *)

Lemma chunked_iter_length {A} (fuel n : nat) (l : list A) :
  (0 < n)%nat → (length l < fuel)%nat →
  length (chunked_iter fuel n l) = ((length l + n - 1) / n)%nat.
Proof.
  intros Hn. revert l. induction fuel as [|fuel IH]; intros l Hl; [lia|].
  simpl. destruct (take n l) as [|x c] eqn:Htake.
  - destruct l as [|y l]; [|by destruct n; [lia|]].
    simpl. symmetry. apply Nat.div_small. lia.
  - assert (length l ≠ 0)%nat as Hlen
      by (destruct l; [by rewrite take_nil in Htake|done]).
    simpl. rewrite IH by (rewrite length_drop; lia). rewrite length_drop.
    destruct (Nat.le_gt_cases n (length l)) as [Hge|Hlt].
    + replace (length l + n - 1)%nat with ((length l - n + n - 1) + 1 * n)%nat by lia.
      rewrite Nat.div_add by lia. lia.
    + replace (length l - n + n - 1)%nat with (n - 1)%nat by lia.
      rewrite (Nat.div_small (n - 1)) by lia.
      apply (Nat.div_unique _ _ _ (length l - 1)); lia.
Qed.

(** The number of batches: the candidates over the batch size, rounded
    up. *)
Lemma chunked_length {A} (l : list A) (n : Z) batches :
  1 ≤ n → chunked l n = Ok batches →
  Z.of_nat (length batches) = (Z.of_nat (length l) + n - 1) / n.
Proof.
  intros Hn Hch.
  assert (batches = chunked_iter (S (length l)) (Z.to_nat n) l) as ->.
  { unfold chunked in Hch. destruct (Z.ltb_spec n 0); [lia|]. congruence. }
  rewrite chunked_iter_length by lia.
  rewrite Nat2Z.inj_div, Nat2Z.inj_sub, Nat2Z.inj_add by lia.
  by rewrite Z2Nat.id by lia.
Qed.

Lemma info_loop_trace_cond_probs {Prompts ModelInput GenKwargs score : Type}
    (iface : @Interface Prompts ModelInput GenKwargs score) S C order qmp batches :
  length (List.filter is_get_cond_prob (info_loop_trace iface S C order qmp batches))
  = length batches.
Proof.
  induction batches as [|b batches IH]; [done|].
  simpl. f_equal. exact IH.
Qed.

(** X5: on the empty chosen sequence both functions raise [IndexError];
    [get_info_score] does so before any call of the model interface, while
    [get_cider_score] first renders the empty sequence and runs a
    generation on it. *)
Theorem empty_sequence_outcomes {Prompts ModelInput GenKwargs score : Type}
    (sub : score → score → score)
    (compute_cider : list Pred → string → gmap Z score)
    (iface : @Interface Prompts ModelInput GenKwargs score)
    (C : gmap Z Example) (batch_size : Z) (split_token : option string)
    (model_name ann order : string) (kw : GenKwargs) :
  get_info_score sub iface [] C batch_size split_token order = ([], Raise IndexError)
  ∧ get_cider_score sub compute_cider iface [] C batch_size model_name ann order
      (Some kw)
    = ([EvTransferPrompts [[]] true; EvGenerate], Raise IndexError).
Proof. split; reflexivity. Qed.

(** X6: with [split_token = None], the default, [get_info_score] never
    returns: after rendering the chosen sequence it raises ([TypeError], or
    [IndexError] when the query prompt is blank) before any conditional
    probability is computed. *)
Theorem get_info_score_default_split_token {Prompts ModelInput GenKwargs score : Type}
    (sub : score → score → score)
    (iface : @Interface Prompts ModelInput GenKwargs score)
    (S : list Example) (q : Example) (C : gmap Z Example) (batch_size : Z)
    (order : string) :
  last S = Some q →
  get_info_score sub iface S C batch_size None order
  = ([EvTransferPrompts [S] false],
     Raise (if PyStr.all_space (gen_ice_prompt iface q true)
            then IndexError else TypeError)).
Proof.
  intros HS. unfold get_info_score.
  rewrite (bind_lift_ok _ _ q) by (unfold py_last; by rewrite HS).
  rewrite bind_tell. unfold get_query_mask_part.
  by destruct (PyStr.all_space _).
Qed.

Lemma get_info_score_default_split_token_witness :
  get_info_score Stub.qsub Stub.interface [Stub.query] Stub.candidates3 2 None "left"
  = ([EvTransferPrompts [[Stub.query]] false], Raise TypeError).
Proof.
  apply (get_info_score_default_split_token Stub.qsub Stub.interface
           [Stub.query] Stub.query Stub.candidates3 2 "left").
  reflexivity.
Defined.

(** A prompt of blanks only, here a no-break space, a next-line character
    and a space, splits into no word at all. *)
Example get_query_mask_part_blank :
  get_query_mask_part (String "160" (String "133" " ")) None = Raise IndexError
  ∧ get_query_mask_part "a b" None = Raise TypeError.
Proof. split; reflexivity. Qed.

(** X7: with [gen_kwargs = None], the default, [get_cider_score] raises
    [TypeError] for every input: the chosen sequence is rendered, and the
    call of [generate] fails on [**gen_kwargs] before any text is
    generated. *)
Theorem get_cider_score_default_gen_kwargs {Prompts ModelInput GenKwargs score : Type}
    (sub : score → score → score)
    (compute_cider : list Pred → string → gmap Z score)
    (iface : @Interface Prompts ModelInput GenKwargs score)
    (S : list Example) (C : gmap Z Example) (batch_size : Z)
    (model_name ann order : string) :
  get_cider_score sub compute_cider iface S C batch_size model_name ann order None
  = ([EvTransferPrompts [S] true], Raise TypeError).
Proof. reflexivity. Qed.

Section BatchSizeFacts.

Context {Prompts ModelInput GenKwargs score : Type}.
Variable sub : score → score → score.
Variable compute_cider : list Pred → string → gmap Z score.
Variable iface : @Interface Prompts ModelInput GenKwargs score.
Variables (S : list Example) (q : Example).
Variables (sep order : string).
Hypothesis query_last : last S = Some q.
Hypothesis sep_nonempty : sep ≠ EmptyString.

(** The run of [get_info_score] up to the loop. *)
Lemma get_info_score_baseline (C : gmap Z Example) batch_size :
  get_info_score sub iface S C batch_size (Some sep) order
  = let qmp := PyStr.before_first sep (gen_ice_prompt iface q true) +:+ sep in
    let cond_prob :=
      get_cond_prob iface
        (prepare_input iface (transfer_prompts iface [S] false) false true)
        [mask_length_of iface qmp S] in
    bind ([EvTransferPrompts [S] false; EvGetCondProb [mask_length_of iface qmp S]],
          chunked (sorted_keys C) batch_size)
      (λ batches,
         bind (info_score_loop sub iface S C order qmp cond_prob batches [])
           (λ info_score_list, lift (torch_cat info_score_list))).
Proof.
  unfold get_info_score.
  rewrite (bind_lift_ok _ _ q) by (unfold py_last; by rewrite query_last).
  rewrite bind_tell. unfold get_query_mask_part.
  destruct (String.eqb_spec sep EmptyString); [done|].
  rewrite (bind_lift_ok _ _ _ eq_refl), bind_tell.
  cbv zeta. unfold mask_length_of.
  destruct (chunked (sorted_keys C) batch_size) as [batches|e]; [|done].
  rewrite (bind_lift_ok _ _ _ eq_refl).
  simpl. by destruct (bind _ _).
Qed.

Lemma get_info_score_low_batch_size (C : gmap Z Example) batch_size :
  batch_size ≤ 0 →
  get_info_score sub iface S C batch_size (Some sep) order
  = ([EvTransferPrompts [S] false;
      EvGetCondProb
        [mask_length_of iface
           (PyStr.before_first sep (gen_ice_prompt iface q true) +:+ sep) S]],
     Raise (if batch_size <? 0 then ValueError_islice else RuntimeError_cat_empty)).
Proof.
  intros Hbs. rewrite get_info_score_baseline. cbv zeta. unfold chunked.
  destruct (Z.ltb_spec batch_size 0); [done|].
  assert (batch_size = 0) as -> by lia. done.
Qed.

Lemma get_info_score_no_candidates batch_size :
  0 ≤ batch_size →
  get_info_score sub iface S ∅ batch_size (Some sep) order
  = ([EvTransferPrompts [S] false;
      EvGetCondProb
        [mask_length_of iface
           (PyStr.before_first sep (gen_ice_prompt iface q true) +:+ sep) S]],
     Raise RuntimeError_cat_empty).
Proof.
  intros Hbs. rewrite get_info_score_baseline. cbv zeta.
  assert (sorted_keys (∅ : gmap Z Example) = []) as -> by by apply sorted_keys_nil.
  by rewrite chunked_nil.
Qed.

End BatchSizeFacts.

Section CiderBaseline.

Context {Prompts ModelInput GenKwargs score : Type}.
Variable sub : score → score → score.
Variable compute_cider : list Pred → string → gmap Z score.
Variable iface : @Interface Prompts ModelInput GenKwargs score.
Variables (S : list Example) (q : Example) (C : gmap Z Example).
Variables (model_name ann order : string) (kw : GenKwargs).
Variables (caption : string) (origin : score).
Hypothesis query_last : last S = Some q.
Hypothesis baseline_caption : decoded_texts iface [S] kw !! 0%nat = Some caption.
Hypothesis baseline_cider :
  compute_cider [(image_id q, Some caption)] ann !! image_id q = Some origin.

(** The run of [get_cider_score] up to the loop. *)
Lemma get_cider_score_baseline batch_size :
  get_cider_score sub compute_cider iface S C batch_size model_name ann order (Some kw)
  = bind ([EvTransferPrompts [S] true; EvGenerate;
           EvComputeCider [(image_id q, Some caption)]],
          chunked (sorted_keys C) batch_size)
      (λ batches,
         bind (cider_loop iface S C order (Some kw) batches [])
           (λ output_dict,
              ([EvComputeCider (pred_coco_of model_name output_dict)],
               cider_scores sub C
                 (compute_cider (pred_coco_of model_name output_dict) ann) origin))).
Proof.
  unfold get_cider_score.
  rewrite (bind_ok _ _ _ _ (generate_texts_some _ _ _)).
  rewrite (bind_lift_ok _ _ q) by (unfold py_last; by rewrite query_last).
  rewrite (bind_lift_ok _ _ caption) by (unfold py_nth; by rewrite baseline_caption).
  rewrite bind_tell.
  rewrite (bind_lift_ok _ _ q) by (unfold py_last; by rewrite query_last).
  rewrite (bind_lift_ok _ _ origin) by (unfold dict_get; by rewrite baseline_cider).
  destruct (chunked (sorted_keys C) batch_size) as [batches|e]; [|done].
  rewrite (bind_lift_ok _ _ _ eq_refl).
  rewrite (bind_ok _ _ _ batches eq_refl).
  destruct (cider_loop iface S C order (Some kw) batches []) as [t [od|e]].
  - rewrite !(bind_ok _ _ t od eq_refl).
    rewrite (bind_lift_ok _ _ _ (accumulated_pred_coco_ok _ _)), bind_tell.
    unfold cider_scores. destruct (rmapM _ (sorted_keys C)); done.
  - by rewrite !(bind_raise _ _ t e eq_refl).
Qed.

Lemma get_cider_score_low_batch_size batch_size :
  batch_size ≤ 0 →
  get_cider_score sub compute_cider iface S C batch_size model_name ann order (Some kw)
  = if batch_size <? 0
    then ([EvTransferPrompts [S] true; EvGenerate;
           EvComputeCider [(image_id q, Some caption)]],
          Raise ValueError_islice)
    else ([EvTransferPrompts [S] true; EvGenerate;
           EvComputeCider [(image_id q, Some caption)]; EvComputeCider []],
          cider_scores sub C (compute_cider [] ann) origin).
Proof.
  intros Hbs. rewrite get_cider_score_baseline. unfold chunked.
  destruct (Z.ltb_spec batch_size 0); [done|].
  assert (batch_size = 0) as -> by lia. done.
Qed.

End CiderBaseline.

(** X8: a batch size below one never scores a candidate. Once the baseline
    is computed, a negative batch size makes both functions raise the
    [ValueError] of [islice]; with batch size zero no batch is formed:
    [get_info_score] raises at [torch.cat], and [get_cider_score] calls the
    metric on the empty prediction set and reads the scores of the
    candidates from that result. *)
Theorem batch_size_below_one {Prompts ModelInput GenKwargs score : Type}
    (sub : score → score → score)
    (compute_cider : list Pred → string → gmap Z score)
    (iface : @Interface Prompts ModelInput GenKwargs score)
    (S : list Example) (q : Example) (C : gmap Z Example) (batch_size : Z)
    (sep model_name ann order : string) (kw : GenKwargs)
    (caption : string) (origin : score) :
  last S = Some q → batch_size ≤ 0 →
  (sep ≠ EmptyString →
   get_info_score sub iface S C batch_size (Some sep) order
   = ([EvTransferPrompts [S] false;
       EvGetCondProb
         [mask_length_of iface
            (PyStr.before_first sep (gen_ice_prompt iface q true) +:+ sep) S]],
      Raise (if batch_size <? 0 then ValueError_islice else RuntimeError_cat_empty)))
  ∧ (decoded_texts iface [S] kw !! 0%nat = Some caption →
     compute_cider [(image_id q, Some caption)] ann !! image_id q = Some origin →
     get_cider_score sub compute_cider iface S C batch_size model_name ann order
       (Some kw)
     = if batch_size <? 0
       then ([EvTransferPrompts [S] true; EvGenerate;
              EvComputeCider [(image_id q, Some caption)]],
             Raise ValueError_islice)
       else ([EvTransferPrompts [S] true; EvGenerate;
              EvComputeCider [(image_id q, Some caption)]; EvComputeCider []],
             cider_scores sub C (compute_cider [] ann) origin)).
Proof.
  intros HS Hbs. split.
  - intros Hsep. by apply get_info_score_low_batch_size.
  - intros Hcap Horigin. by apply get_cider_score_low_batch_size.
Qed.

Lemma batch_size_below_one_witness :
  get_info_score Stub.qsub Stub.interface [Stub.query] Stub.candidates3 0
    (Some "Output:") "left"
  = ([EvTransferPrompts [[Stub.query]] false; EvGetCondProb [14]],
     Raise RuntimeError_cat_empty)
  ∧ get_cider_score Stub.qsub Stub.compute_cider Stub.interface [Stub.query]
      Stub.candidates3 (-1) "flamingo" "ann.json" "left" (Some tt)
    = ([EvTransferPrompts [[Stub.query]] true; EvGenerate;
        EvComputeCider [(900, Some "a cat")]],
       Raise ValueError_islice).
Proof.
  split.
  - apply (proj1 (batch_size_below_one Stub.qsub Stub.compute_cider Stub.interface
                    [Stub.query] Stub.query Stub.candidates3 0 "Output:"
                    "flamingo" "ann.json" "left" tt "a cat" 1%Q eq_refl ltac:(lia))).
    discriminate.
  - apply (proj2 (batch_size_below_one Stub.qsub Stub.compute_cider Stub.interface
                    [Stub.query] Stub.query Stub.candidates3 (-1) "Output:"
                    "flamingo" "ann.json" "left" tt "a cat" 1%Q eq_refl ltac:(lia)));
      reflexivity.
Defined.

(** X9: with conditional probabilities that do not depend on how sequences
    are batched, the result of [get_info_score] (the score vector, or the
    error) is the same for any two batch sizes of at least one. *)
Theorem get_info_score_batch_invariance {Prompts ModelInput GenKwargs score : Type}
    (sub : score → score → score)
    (iface : @Interface Prompts ModelInput GenKwargs score)
    (P : list Example → score)
    (S : list Example) (q : Example) (C : gmap Z Example) (B1 B2 : Z)
    (sep order : string) :
  last S = Some q → sep ≠ EmptyString → 1 ≤ B1 → 1 ≤ B2 →
  (∀ seqs,
     get_cond_prob iface
       (prepare_input iface (transfer_prompts iface seqs false) false true)
       (map (mask_length_of iface
               (PyStr.before_first sep (gen_ice_prompt iface q true) +:+ sep)) seqs)
     = map P seqs) →
  (get_info_score sub iface S C B1 (Some sep) order).2
  = (get_info_score sub iface S C B2 (Some sep) order).2.
Proof.
  intros HS Hsep HB1 HB2 Hlaw.
  destruct (decide (C = ∅)) as [->|Hne].
  { by rewrite !(get_info_score_no_candidates sub iface S q sep order HS Hsep) by lia. }
  destruct (valid_order_dec order) as [Hord|Hinv].
  - destruct (chunked_spec (sorted_keys C) B1 HB1) as (bs1 & Hch1 & Hcat1 & _).
    destruct (chunked_spec (sorted_keys C) B2 HB2) as (bs2 & Hch2 & Hcat2 & _).
    by rewrite (get_info_score_run sub iface S C order _ P Hlaw q sep B1 bs1
                  HS Hsep eq_refl Hord Hch1 Hcat1 Hne),
               (get_info_score_run sub iface S C order _ P Hlaw q sep B2 bs2
                  HS Hsep eq_refl Hord Hch2 Hcat2 Hne).
  - by rewrite !(get_info_score_invalid sub iface S C order q sep _ HS Hsep Hinv Hne)
      by lia.
Qed.

Lemma get_info_score_batch_invariance_witness :
  (get_info_score Stub.qsub Stub.interface [Stub.query] Stub.candidates3 1
     (Some "Output:") "right").2
  = (get_info_score Stub.qsub Stub.interface [Stub.query] Stub.candidates3 3
       (Some "Output:") "right").2.
Proof.
  apply (get_info_score_batch_invariance Stub.qsub Stub.interface Stub.prob
           [Stub.query] Stub.query Stub.candidates3 1 3 "Output:" "right").
  - reflexivity.
  - discriminate.
  - lia.
  - lia.
  - intros seqs. reflexivity.
Defined.

(** X10: the cost of a complete run of [get_info_score]: one call of
    [get_cond_prob] for the baseline and one for every batch, that is
    [1 + ceil(|C| / batch_size)] calls. *)
Theorem get_info_score_cond_prob_calls {Prompts ModelInput GenKwargs score : Type}
    (sub : score → score → score)
    (iface : @Interface Prompts ModelInput GenKwargs score)
    (P : list Example → score)
    (S : list Example) (q : Example) (C : gmap Z Example)
    (batch_size : Z) (sep order : string) :
  last S = Some q → C ≠ ∅ → 1 ≤ batch_size → sep ≠ EmptyString →
  valid_order order →
  (∀ seqs,
     get_cond_prob iface
       (prepare_input iface (transfer_prompts iface seqs false) false true)
       (map (mask_length_of iface
               (PyStr.before_first sep (gen_ice_prompt iface q true) +:+ sep)) seqs)
     = map P seqs) →
  Z.of_nat (length (List.filter is_get_cond_prob
                      (get_info_score sub iface S C batch_size (Some sep) order).1))
  = 1 + (Z.of_nat (size C) + batch_size - 1) / batch_size.
Proof.
  intros HS Hne Hbs Hsep Hord Hlaw.
  destruct (chunked_spec (sorted_keys C) batch_size Hbs) as (bs & Hch & Hcat & _).
  rewrite (get_info_score_run sub iface S C order _ P Hlaw q sep batch_size bs
             HS Hsep eq_refl Hord Hch Hcat Hne).
  cbn [fst List.filter is_get_cond_prob length].
  rewrite info_loop_trace_cond_probs.
  pose proof (chunked_length _ _ _ Hbs Hch) as Hlen.
  rewrite length_sorted_keys in Hlen. rewrite <-Hlen. lia.
Qed.

Lemma get_info_score_cond_prob_calls_witness :
  Z.of_nat (length (List.filter is_get_cond_prob
                      (get_info_score Stub.qsub Stub.interface [Stub.query]
                         Stub.candidates3 2 (Some "Output:") "left").1))
  = 1 + (Z.of_nat (size Stub.candidates3) + 2 - 1) / 2.
Proof.
  apply (get_info_score_cond_prob_calls Stub.qsub Stub.interface Stub.prob
           [Stub.query] Stub.query Stub.candidates3 2 "Output:" "left").
  - reflexivity.
  - apply stub_candidates_nonempty.
  - lia.
  - discriminate.
  - left. reflexivity.
  - intros seqs. reflexivity.
Defined.

(** X11: the cost of a complete run of [get_cider_score]: one generation
    for the baseline and one for every batch, that is
    [1 + ceil(|C| / batch_size)] calls of [generate], whatever the metric
    returns afterwards. *)
Theorem get_cider_score_generate_calls {Prompts ModelInput GenKwargs score : Type}
    (sub : score → score → score)
    (compute_cider : list Pred → string → gmap Z score)
    (iface : @Interface Prompts ModelInput GenKwargs score)
    (G : list Example → string)
    (S : list Example) (q : Example) (C : gmap Z Example) (batch_size : Z)
    (model_name ann order : string) (kw : GenKwargs) (origin : score) :
  last S = Some q → 1 ≤ batch_size → valid_order order →
  (∀ seqs, decoded_texts iface seqs kw = map G seqs) →
  compute_cider [(image_id q, Some (G S))] ann !! image_id q = Some origin →
  Z.of_nat (length (List.filter is_generate
                      (get_cider_score sub compute_cider iface S C batch_size
                         model_name ann order (Some kw)).1))
  = 1 + (Z.of_nat (size C) + batch_size - 1) / batch_size.
Proof.
  intros HS Hbs Hord Hlaw Horigin.
  destruct (chunked_spec (sorted_keys C) batch_size Hbs) as (bs & Hch & Hcat & _).
  rewrite (get_cider_score_run sub compute_cider iface S C model_name ann order
             kw G Hlaw q origin batch_size bs HS Horigin Hord Hch Hcat).
  cbn [fst]. rewrite !List.filter_app, !length_app, cider_loop_trace_generates.
  pose proof (chunked_length _ _ _ Hbs Hch) as Hlen.
  rewrite length_sorted_keys in Hlen. rewrite <-Hlen. simpl. lia.
Qed.

Lemma get_cider_score_generate_calls_witness :
  Z.of_nat (length (List.filter is_generate
                      (get_cider_score Stub.qsub Stub.compute_cider Stub.interface
                         [Stub.query] Stub.candidates3 2 "flamingo" "ann.json"
                         "left" (Some tt)).1))
  = 1 + (Z.of_nat (size Stub.candidates3) + 2 - 1) / 2.
Proof.
  apply (get_cider_score_generate_calls Stub.qsub Stub.compute_cider
           Stub.interface Stub.text [Stub.query] Stub.query Stub.candidates3 2
           "flamingo" "ann.json" "left" tt 1%Q).
  - reflexivity.
  - lia.
  - left. reflexivity.
  - apply stub_generate_law.
  - reflexivity.
Defined.

(** X12: without candidates [get_cider_score] does not fail: for every
    order, also one that is neither left nor right, and every batch size
    that is not negative, it calls the metric on the empty prediction set
    and returns the empty vector. *)
Theorem get_cider_score_empty_candidates {Prompts ModelInput GenKwargs score : Type}
    (sub : score → score → score)
    (compute_cider : list Pred → string → gmap Z score)
    (iface : @Interface Prompts ModelInput GenKwargs score)
    (S : list Example) (q : Example) (batch_size : Z)
    (model_name ann order : string) (kw : GenKwargs)
    (caption : string) (origin : score) :
  last S = Some q → 0 ≤ batch_size →
  decoded_texts iface [S] kw !! 0%nat = Some caption →
  compute_cider [(image_id q, Some caption)] ann !! image_id q = Some origin →
  get_cider_score sub compute_cider iface S ∅ batch_size model_name ann order
    (Some kw)
  = ([EvTransferPrompts [S] true; EvGenerate;
      EvComputeCider [(image_id q, Some caption)]; EvComputeCider []],
     Ok []).
Proof.
  intros HS Hbs Hcap Horigin.
  by apply (get_cider_score_no_candidates sub compute_cider iface S model_name
              ann order kw q caption origin).
Qed.

Lemma get_cider_score_empty_candidates_witness :
  get_cider_score Stub.qsub Stub.compute_cider Stub.interface [Stub.query] ∅ 4
    "idefics" "ann.json" "nowhere" (Some tt)
  = ([EvTransferPrompts [[Stub.query]] true; EvGenerate;
      EvComputeCider [(900, Some "a cat")]; EvComputeCider []],
     Ok []).
Proof.
  apply (get_cider_score_empty_candidates Stub.qsub Stub.compute_cider
           Stub.interface [Stub.query] Stub.query 4 "idefics" "ann.json"
           "nowhere" tt "a cat" 1%Q).
  - reflexivity.
  - lia.
  - reflexivity.
  - reflexivity.
Defined.

(** X13: an unrecognized [model_name] is not rejected by [get_cider_score]:
    in a complete run every candidate's record reaches the metric with the
    caption [None] in place of a text, and the scores are read from that
    call. *)
Theorem get_cider_score_unknown_model {Prompts ModelInput GenKwargs score : Type}
    (sub : score → score → score)
    (compute_cider : list Pred → string → gmap Z score)
    (iface : @Interface Prompts ModelInput GenKwargs score)
    (G : list Example → string)
    (S : list Example) (q : Example) (C : gmap Z Example) (batch_size : Z)
    (model_name ann order : string) (kw : GenKwargs) (origin : score) :
  PyStr.contains "flamingo" model_name = false →
  PyStr.contains "idefics" model_name = false →
  last S = Some q → 1 ≤ batch_size → valid_order order → keyed_by_idx C →
  (∀ seqs, decoded_texts iface seqs kw = map G seqs) →
  compute_cider [(image_id q, Some (G S))] ann !! image_id q = Some origin →
  last (get_cider_score sub compute_cider iface S C batch_size model_name ann
          order (Some kw)).1
  = Some (EvComputeCider (map (λ e, (image_id e, None)) (sorted_candidates C)))
  ∧ (get_cider_score sub compute_cider iface S C batch_size model_name ann order
       (Some kw)).2
    = cider_scores sub C
        (compute_cider (map (λ e, (image_id e, None)) (sorted_candidates C)) ann)
        origin.
Proof.
  intros Hf Hi HS Hbs Hord Hkey Hlaw Horigin.
  destruct (chunked_spec (sorted_keys C) batch_size Hbs) as (bs & Hch & Hcat & _).
  rewrite (get_cider_score_run sub compute_cider iface S C model_name ann order
             kw G Hlaw q origin batch_size bs HS Horigin Hord Hch Hcat).
  rewrite accumulate_keyed by done.
  assert (candidate_preds G model_name order S C
          = map (λ e, (image_id e, None)) (sorted_candidates C)) as ->.
  { unfold candidate_preds. apply map_ext. intros e.
    unfold postprocessed, caption_postprocess. by rewrite Hf, Hi. }
  cbn [fst snd]. split; [|done]. by rewrite !app_assoc, last_snoc.
Qed.

Lemma get_cider_score_unknown_model_witness :
  last (get_cider_score Stub.qsub Stub.compute_cider Stub.interface [Stub.query]
          Stub.candidates2 1 "blip" "ann.json" "left" (Some tt)).1
  = Some (EvComputeCider
            (map (λ e, (image_id e, None)) (sorted_candidates Stub.candidates2)))
  ∧ (get_cider_score Stub.qsub Stub.compute_cider Stub.interface [Stub.query]
       Stub.candidates2 1 "blip" "ann.json" "left" (Some tt)).2
    = cider_scores Stub.qsub Stub.candidates2
        (Stub.compute_cider
           (map (λ e, (image_id e, None)) (sorted_candidates Stub.candidates2))
           "ann.json")
        1%Q.
Proof.
  apply (get_cider_score_unknown_model Stub.qsub Stub.compute_cider Stub.interface
           Stub.text [Stub.query] Stub.query Stub.candidates2 1 "blip" "ann.json"
           "left" tt 1%Q).
  - reflexivity.
  - reflexivity.
  - reflexivity.
  - lia.
  - left. reflexivity.
  - apply stub_candidates2_keyed.
  - apply stub_generate_law.
  - reflexivity.
Defined.

(** ** Writes to [output_dict] *)

Lemma dict_lookup_set {V} (k k' : Z) (v : V) (d : list (Z * V)) :
  dict_lookup k' (dict_set k v d)
  = if Z.eqb k' k then Some v else dict_lookup k' d.
Proof.
  induction d as [|[k0 v0] d IH]; simpl.
  { by destruct (Z.eqb_spec k' k). }
  destruct (Z.eqb_spec k k0) as [->|Hne]; simpl.
  - by destruct (Z.eqb_spec k' k0).
  - rewrite IH. destruct (Z.eqb_spec k' k0) as [->|]; [|done].
    by destruct (Z.eqb_spec k0 k) as [->|].
Qed.

Lemma dict_set_keys {V} (k : Z) (v : V) (d : list (Z * V)) :
  (∀ k', k' ∈ (dict_set k v d).*1 ↔ k' = k ∨ k' ∈ d.*1)
  ∧ (NoDup d.*1 → NoDup (dict_set k v d).*1).
Proof.
  induction d as [|[k0 v0] d [IHmem IHnd]]; simpl.
  { split; [|intros _; apply NoDup_singleton].
    intros k'. rewrite list_elem_of_singleton. split; [by left|].
    intros [?|H]; [done|by inversion H]. }
  destruct (Z.eqb_spec k k0) as [->|Hne]; simpl.
  - split; [|done]. intros k'. rewrite elem_of_cons. tauto.
  - split.
    + intros k'. rewrite !elem_of_cons, IHmem. tauto.
    + rewrite !NoDup_cons. intros [Hnotin Hnd]. split; [|by apply IHnd].
      rewrite IHmem. intros [?|?]; [by subst|done].
Qed.

Section Writes.

Context {A V : Type}.
Variables (key : A → Z) (val : A → V).

Lemma foldl_dict_set_keys (l : list A) (d : list (Z * V)) :
  (∀ k, k ∈ (foldl (λ d e, dict_set (key e) (val e) d) d l).*1
        ↔ k ∈ map key l ∨ k ∈ d.*1)
  ∧ (NoDup d.*1 → NoDup (foldl (λ d e, dict_set (key e) (val e) d) d l).*1).
Proof.
  revert d. induction l as [|e l IH]; intros d; simpl.
  { split; [|done]. intros k. split; [by right|]. intros [H|H]; [by inversion H|done]. }
  destruct (IH (dict_set (key e) (val e) d)) as [IHmem IHnd].
  destruct (dict_set_keys (key e) (val e) d) as [Hmem Hnd].
  split.
  - intros k. rewrite IHmem, Hmem, elem_of_cons. tauto.
  - intros Hd. by apply IHnd, Hnd.
Qed.

Lemma foldl_dict_set_untouched (l : list A) (d : list (Z * V)) k :
  k ∉ map key l →
  dict_lookup k (foldl (λ d e, dict_set (key e) (val e) d) d l) = dict_lookup k d.
Proof.
  revert d. induction l as [|e l IH]; intros d Hk; [done|].
  simpl in *. apply not_elem_of_cons in Hk as [Hne Hk].
  rewrite IH by done. rewrite dict_lookup_set.
  by destruct (Z.eqb_spec k (key e)).
Qed.

(** The value kept under a key is the one of its last write. *)
Lemma foldl_dict_set_last (l : list A) (d : list (Z * V)) i e :
  l !! i = Some e →
  (∀ j e', l !! j = Some e' → key e' = key e → (j ≤ i)%nat) →
  dict_lookup (key e) (foldl (λ d e, dict_set (key e) (val e) d) d l)
  = Some (val e).
Proof.
  revert d i. induction l as [|e0 l IH]; intros d i Hi Hlast; [done|].
  destruct i as [|i]; simpl in *.
  - inversion Hi; subst. rewrite foldl_dict_set_untouched.
    + rewrite dict_lookup_set. by rewrite Z.eqb_refl.
    + intros Hin. change map with (@fmap list _) in Hin.
      apply list_elem_of_fmap in Hin as (e' & Hkey & He').
      apply list_elem_of_lookup in He' as [j Hj].
      specialize (Hlast (S j) e' Hj (eq_sym Hkey)). lia.
  - apply (IH _ i Hi). intros j e' Hj Hkey.
    specialize (Hlast (S j) e' Hj Hkey). lia.
Qed.

End Writes.

(** X14: [output_dict] is written under [data['idx']]: in a complete run
    the prediction set of the last metric call has one record for every
    distinct [idx] among the candidates, and when several candidates carry
    the same [idx], the record kept under it is the one of the candidate
    with the largest key: its write replaces the earlier ones. *)
Theorem get_cider_score_last_write_wins {Prompts ModelInput GenKwargs score : Type}
    (sub : score → score → score)
    (compute_cider : list Pred → string → gmap Z score)
    (iface : @Interface Prompts ModelInput GenKwargs score)
    (G : list Example → string)
    (S : list Example) (q : Example) (C : gmap Z Example) (batch_size : Z)
    (model_name ann order : string) (kw : GenKwargs) (origin : score) :
  last S = Some q → 1 ≤ batch_size → valid_order order →
  (∀ seqs, decoded_texts iface seqs kw = map G seqs) →
  compute_cider [(image_id q, Some (G S))] ann !! image_id q = Some origin →
  ∃ output_dict : list (Z * (string * Z)),
    last (get_cider_score sub compute_cider iface S C batch_size model_name ann
            order (Some kw)).1
    = Some (EvComputeCider (pred_coco_of model_name output_dict))
    ∧ NoDup output_dict.*1
    ∧ length (pred_coco_of model_name output_dict)
      = size (list_to_set (map idx (sorted_candidates C)) : gset Z)
    ∧ (∀ i e, sorted_candidates C !! i = Some e →
         (∀ j e', sorted_candidates C !! j = Some e' → idx e' = idx e → (j ≤ i)%nat) →
         dict_lookup (idx e) output_dict
         = Some (G (insert_icd order S e), image_id e)).
Proof.
  intros HS Hbs Hord Hlaw Horigin.
  destruct (chunked_spec (sorted_keys C) batch_size Hbs) as (bs & Hch & Hcat & _).
  exists (accumulate G order S (sorted_candidates C) []).
  rewrite (get_cider_score_run sub compute_cider iface S C model_name ann order
             kw G Hlaw q origin batch_size bs HS Horigin Hord Hch Hcat).
  cbn [fst]. split; [by rewrite !app_assoc, last_snoc|].
  unfold accumulate.
  destruct (foldl_dict_set_keys idx
              (λ e, (G (insert_icd order S e), image_id e))
              (sorted_candidates C) []) as [Hmem Hnd].
  specialize (Hnd (NoDup_nil_2)).
  split; [done|]. split.
  - unfold pred_coco_of. rewrite length_map.
    rewrite <-(length_fmap fst), <-(size_list_to_set (C:=gset Z)) by done.
    f_equal. apply set_eq. intros k.
    rewrite !elem_of_list_to_set, Hmem. split; [|by left].
    intros [?|H]; [done|by inversion H].
  - intros i e Hi Hlast.
    by apply (foldl_dict_set_last idx (λ e, (G (insert_icd order S e), image_id e))
                _ _ i e).
Qed.

Lemma get_cider_score_last_write_wins_witness :
  ∃ output_dict : list (Z * (string * Z)),
    last (get_cider_score Stub.qsub Stub.compute_cider Stub.interface [Stub.query]
            Sample.candidates_same_idx 1 "flamingo" "ann.json" "left" (Some tt)).1
    = Some (EvComputeCider (pred_coco_of "flamingo" output_dict))
    ∧ NoDup output_dict.*1
    ∧ length (pred_coco_of "flamingo" output_dict)
      = size (list_to_set (map idx (sorted_candidates Sample.candidates_same_idx))
              : gset Z)
    ∧ (∀ i e, sorted_candidates Sample.candidates_same_idx !! i = Some e →
         (∀ j e', sorted_candidates Sample.candidates_same_idx !! j = Some e' →
                  idx e' = idx e → (j ≤ i)%nat) →
         dict_lookup (idx e) output_dict
         = Some (Stub.text (insert_icd "left" [Stub.query] e), image_id e)).
Proof.
  apply (get_cider_score_last_write_wins Stub.qsub Stub.compute_cider
           Stub.interface Stub.text [Stub.query] Stub.query
           Sample.candidates_same_idx 1 "flamingo" "ann.json" "left" tt 1%Q).
  - reflexivity.
  - lia.
  - left. reflexivity.
  - apply stub_generate_law.
  - reflexivity.
Defined.

(** The run behind the witness: one record reaches the metric, with the
    image of the candidate under key 1. *)
Example get_cider_score_same_idx_run :
  last (get_cider_score Stub.qsub Stub.compute_cider Stub.interface [Stub.query]
          Sample.candidates_same_idx 1 "flamingo" "ann.json" "left" (Some tt)).1
  = Some (EvComputeCider [(101, Some "A dog.")]).
Proof. reflexivity. Qed.

(** ** Calls that a strategy never makes *)

Section NeverCalls.

Context {Prompts ModelInput GenKwargs score : Type}.
Variable sub : score → score → score.
Variable compute_cider : list Pred → string → gmap Z score.
Variable iface : @Interface Prompts ModelInput GenKwargs score.
Variables (S : list Example) (C : gmap Z Example) (order : string).

Lemma info_score_loop_no_generation qmp cond_prob batches acc :
  Forall no_generation
    (info_score_loop sub iface S C order qmp cond_prob batches acc).1.
Proof.
  revert acc. induction batches as [|b batches IH]; intros acc; [constructor|].
  cbn [info_score_loop].
  apply bind_trace_Forall; [constructor|]. intros bd _.
  apply bind_trace_Forall; [constructor|]. intros seqs _.
  apply bind_trace_Forall; [by repeat constructor|]. intros _ _.
  apply bind_trace_Forall; [by repeat constructor|]. intros _ _.
  apply bind_trace_Forall; [constructor|]. intros s _. apply IH.
Qed.

Lemma get_info_score_no_generation batch_size split_token :
  Forall no_generation
    (get_info_score sub iface S C batch_size split_token order).1.
Proof.
  unfold get_info_score.
  apply bind_trace_Forall; [constructor|]. intros q _.
  apply bind_trace_Forall; [by repeat constructor|]. intros _ _.
  apply bind_trace_Forall; [constructor|]. intros qmp _.
  apply bind_trace_Forall; [by repeat constructor|]. intros _ _.
  apply bind_trace_Forall; [constructor|]. intros bs _.
  apply bind_trace_Forall; [apply info_score_loop_no_generation|]. intros l _.
  constructor.
Qed.

Lemma generate_texts_no_cond_prob seqs gen_kwargs :
  Forall no_cond_prob (generate_texts iface seqs gen_kwargs).1.
Proof.
  unfold generate_texts.
  apply bind_trace_Forall; [by repeat constructor|]. intros _ _.
  apply bind_trace_Forall; [constructor|]. intros kw _.
  apply bind_trace_Forall; [by repeat constructor|]. intros _ _. constructor.
Qed.

Lemma cider_loop_no_cond_prob gen_kwargs batches output_dict :
  Forall no_cond_prob (cider_loop iface S C order gen_kwargs batches output_dict).1.
Proof.
  revert output_dict.
  induction batches as [|b batches IH]; intros output_dict; [constructor|].
  cbn [cider_loop].
  apply bind_trace_Forall; [constructor|]. intros bd _.
  apply bind_trace_Forall; [constructor|]. intros seqs _.
  apply bind_trace_Forall; [apply generate_texts_no_cond_prob|]. intros g _.
  apply bind_trace_Forall; [constructor|]. intros od _. apply IH.
Qed.

Lemma get_cider_score_no_cond_prob batch_size model_name ann gen_kwargs :
  Forall no_cond_prob
    (get_cider_score sub compute_cider iface S C batch_size model_name ann
       order gen_kwargs).1.
Proof.
  unfold get_cider_score.
  apply bind_trace_Forall; [apply generate_texts_no_cond_prob|]. intros g _.
  apply bind_trace_Forall; [constructor|]. intros q _.
  apply bind_trace_Forall; [constructor|]. intros caption _.
  apply bind_trace_Forall; [by repeat constructor|]. intros _ _.
  apply bind_trace_Forall; [constructor|]. intros q' _.
  apply bind_trace_Forall; [constructor|]. intros origin _.
  apply bind_trace_Forall; [constructor|]. intros bs _.
  apply bind_trace_Forall; [apply cider_loop_no_cond_prob|]. intros od _.
  apply bind_trace_Forall; [constructor|]. intros preds _.
  apply bind_trace_Forall; [by repeat constructor|]. intros _ _.
  apply bind_trace_Forall; [constructor|]. intros cs _. constructor.
Qed.

End NeverCalls.

(** X15: the two strategies use disjoint capabilities of the model, in
    every run, complete or not: [get_info_score] never generates text and
    never calls the CIDEr metric, and [get_cider_score] never asks for a
    conditional probability. *)
Theorem strategies_never_call {Prompts ModelInput GenKwargs score : Type}
    (sub : score → score → score)
    (compute_cider : list Pred → string → gmap Z score)
    (iface : @Interface Prompts ModelInput GenKwargs score)
    (S : list Example) (C : gmap Z Example) (batch_size : Z)
    (split_token : option string) (model_name ann order : string)
    (gen_kwargs : option GenKwargs) :
  Forall (λ ev, is_generate ev = false ∧ is_compute_cider ev = false)
    (get_info_score sub iface S C batch_size split_token order).1
  ∧ Forall (λ ev, is_get_cond_prob ev = false)
      (get_cider_score sub compute_cider iface S C batch_size model_name ann
         order gen_kwargs).1.
Proof.
  split.
  - apply get_info_score_no_generation.
  - apply get_cider_score_no_cond_prob.
Qed.

(** ** The random sampler at the edges of its inputs *)

Section RandSamplerEdges.

Variable draws : nat → list Z.
Variables (candidate_num : Z) (len_train_ds : nat).

Lemma sample_loop_keys fuel anchor_set d0 t d t' :
  sample_loop draws candidate_num len_train_ds fuel anchor_set d0 t
  = Some (Ok (d, t')) →
  (∀ a, is_Some (d !! a) ↔ a ∈ anchor_set ∨ is_Some (d0 !! a))
  ∧ (t + length anchor_set ≤ t')%nat.
Proof.
  revert d0 t. induction anchor_set as [|s_idx rest IH]; intros d0 t H; simpl in H.
  { inversion H; subst. split; [|simpl; lia].
    intros a. split; [by right|]. intros [Ha|Ha]; [by inversion Ha|done]. }
  destruct (sample_anchor _ _ _ fuel s_idx t) as [[[c0 t0]|e]|] eqn:Hanchor;
    [|done..].
  apply sample_anchor_spec in Hanchor as (j & Hj & -> & _).
  apply IH in H as [Hdom Hpos]. split; [|simpl; lia].
  intros a. rewrite Hdom, elem_of_cons.
  destruct (decide (s_idx = a)) as [->|Hne].
  - rewrite lookup_insert_eq. split; [by left; left|by intros _; right].
  - rewrite lookup_insert_ne by done. split.
    + intros [?|?]; [left; by right|by right].
    + intros [[?|?]|?]; [by subst|by left|by right].
Qed.

(** With an argument that [random.sample] refuses, the first anchor
    raises. *)
Lemma sample_loop_refused fuel s_idx rest d0 t :
  candidate_num < 0 ∨ Z.of_nat len_train_ds < candidate_num →
  sample_loop draws candidate_num len_train_ds fuel (s_idx :: rest) d0 t
  = Some (Raise ValueError_sample).
Proof.
  intros Hk. simpl. unfold sample_anchor, random_sample.
  destruct (Z.ltb_spec candidate_num 0); [done|].
  destruct (Z.ltb_spec (Z.of_nat len_train_ds) candidate_num); [done|lia].
Qed.

Hypothesis draws_contract : ∀ t,
  NoDup (draws t) ∧ Z.of_nat (length (draws t)) = candidate_num
  ∧ ∀ x, x ∈ draws t → 0 ≤ x < Z.of_nat len_train_ds.

(** A draw of as many distinct indices as the population has holds every
    index of the population. *)
Lemma full_draw_holds_all t a :
  candidate_num = Z.of_nat len_train_ds → 0 ≤ a < Z.of_nat len_train_ds →
  a ∈ draws t.
Proof.
  intros Hfull Ha. destruct (draws_contract t) as (Hnd & Hlen & Hrange).
  assert (draws t ≡ₚ seqZ 0 (Z.of_nat len_train_ds)) as ->.
  { apply submseteq_length_Permutation.
    - apply NoDup_submseteq; [done|]. intros x Hx. apply elem_of_seqZ.
      specialize (Hrange x Hx). lia.
    - rewrite length_seqZ. lia. }
  apply elem_of_seqZ. lia.
Qed.

Lemma resample_never_ends fuel a cur t :
  candidate_num = Z.of_nat len_train_ds → 0 ≤ a < Z.of_nat len_train_ds →
  a ∈ cur →
  resample draws candidate_num len_train_ds fuel a cur t = None.
Proof.
  intros Hfull Ha. revert cur t. induction fuel as [|fuel IH]; intros cur t Hin;
    [done|].
  simpl. rewrite bool_decide_true by done. unfold random_sample.
  destruct (Z.ltb_spec candidate_num 0); [lia|].
  destruct (Z.ltb_spec (Z.of_nat len_train_ds) candidate_num); [lia|].
  simpl. apply IH. by apply full_draw_holds_all.
Qed.

Lemma sample_loop_never_ends fuel anchor_set d0 t a :
  candidate_num = Z.of_nat len_train_ds → 0 ≤ a < Z.of_nat len_train_ds →
  a ∈ anchor_set →
  sample_loop draws candidate_num len_train_ds fuel anchor_set d0 t = None.
Proof.
  intros Hfull Ha. revert d0 t.
  induction anchor_set as [|s_idx rest IH]; intros d0 t Hin; [by inversion Hin|].
  simpl. destruct (sample_anchor _ _ _ fuel s_idx t) as [[[c0 t0]|e]|] eqn:Hanchor;
    [| |done].
  - apply elem_of_cons in Hin as [->|Hin]; [|by apply IH].
    unfold sample_anchor, random_sample in Hanchor.
    destruct (Z.ltb_spec candidate_num 0); [lia|].
    destruct (Z.ltb_spec (Z.of_nat len_train_ds) candidate_num); [lia|].
    simpl in Hanchor. rewrite resample_never_ends in Hanchor; [done..|].
    by apply full_draw_holds_all.
  - unfold sample_anchor, random_sample in Hanchor.
    destruct (Z.ltb_spec candidate_num 0); [lia|].
    destruct (Z.ltb_spec (Z.of_nat len_train_ds) candidate_num); [lia|].
    simpl in Hanchor. exfalso. clear IH Hin.
    revert Hanchor. generalize (draws t) (Datatypes.S t).
    induction fuel as [|fuel IHf]; intros cur t1; [done|].
    simpl. case_bool_decide; [|done]. unfold random_sample.
    destruct (Z.ltb_spec candidate_num 0); [lia|].
    destruct (Z.ltb_spec (Z.of_nat len_train_ds) candidate_num); [lia|].
    simpl. apply IHf.
Qed.

End RandSamplerEdges.

(** X16: the dict that [RandSampler.sample] returns has exactly the anchors
    as keys, and every anchor has cost at least one draw of the
    generator. *)
Theorem rand_sampler_keys (draws : nat → list Z) (candidate_num : Z)
    (len_train_ds fuel : nat) (anchor_set : list Z) (t : nat)
    (d : gmap Z (list Z)) (t' : nat) :
  sample draws candidate_num len_train_ds fuel anchor_set t = Some (Ok (d, t')) →
  (∀ a, is_Some (d !! a) ↔ a ∈ anchor_set)
  ∧ (t + length anchor_set ≤ t')%nat.
Proof.
  intros H. apply sample_loop_keys in H as [Hdom Hpos]. split; [|done].
  intros a. rewrite Hdom. split; [|by left].
  intros [?|Hempty]; [done|]. rewrite lookup_empty in Hempty. by destruct Hempty.
Qed.

Lemma rand_sampler_keys_witness :
  (∀ a, is_Some ((<[7 := [2; 3]]> (<[3 := [0; 1]]> (<[0 := [2; 3]]> ∅))
                  : gmap Z (list Z)) !! a) ↔ a ∈ [0; 3; 7])
  ∧ (0 + length [0; 3; 7] ≤ 4)%nat.
Proof.
  apply (rand_sampler_keys Stub.draws 2 4 2 [0; 3; 7] 0). reflexivity.
Defined.

(** X17: when [candidate_num] equals [len(train_ds)], every draw is the
    whole population; if some anchor is an index of the population, the
    loop [while s_idx in random_candidate_set] never ends: [sample] has not
    returned after any number of tests. *)
Theorem rand_sampler_never_returns (draws : nat → list Z) (candidate_num : Z)
    (len_train_ds : nat) (anchor_set : list Z) (a : Z) (fuel t : nat) :
  (∀ t, NoDup (draws t) ∧ Z.of_nat (length (draws t)) = candidate_num
        ∧ ∀ x, x ∈ draws t → 0 ≤ x < Z.of_nat len_train_ds) →
  candidate_num = Z.of_nat len_train_ds →
  a ∈ anchor_set → 0 ≤ a < Z.of_nat len_train_ds →
  sample draws candidate_num len_train_ds fuel anchor_set t = None.
Proof.
  intros Hcontract Hfull Hin Ha. by eapply sample_loop_never_ends.
Qed.

Lemma rand_sampler_never_returns_witness :
  sample (λ _, [1; 0]) 2 2 50 [5; 1] 0 = None.
Proof.
  apply (rand_sampler_never_returns (λ _, [1; 0]) 2 2 [5; 1] 1 50 0).
  - intros _. split; [|split; [done|]].
    + apply (bool_decide_unpack _). by vm_compute.
    + intros x Hx. repeat (apply elem_of_cons in Hx as [->|Hx]; [lia|]).
      by apply elem_of_nil in Hx.
  - reflexivity.
  - right. left.
  - lia.
Defined.

(** X18: when [candidate_num] is negative or larger than [len(train_ds)],
    [sample] raises the [ValueError] of [random.sample] at the first
    anchor; with an empty anchor set it raises nothing and returns the empty
    dict without a draw. *)
Theorem rand_sampler_refused (draws : nat → list Z) (candidate_num : Z)
    (len_train_ds fuel : nat) (s_idx : Z) (rest : list Z) (t : nat) :
  candidate_num < 0 ∨ Z.of_nat len_train_ds < candidate_num →
  sample draws candidate_num len_train_ds fuel (s_idx :: rest) t
  = Some (Raise ValueError_sample)
  ∧ sample draws candidate_num len_train_ds fuel [] t = Some (Ok (∅, t)).
Proof.
  intros Hk. split; [|done]. by apply sample_loop_refused.
Qed.

Lemma rand_sampler_refused_witness :
  sample Stub.draws 5 4 0 [0; 3] 0 = Some (Raise ValueError_sample)
  ∧ sample Stub.draws 5 4 0 [] 0 = Some (Ok (∅, 0%nat)).
Proof.
  apply (rand_sampler_refused Stub.draws 5 4 0 0 [3] 0). right. lia.
Defined.

(** ** Strings *)

Lemma prefix_empty_l s : String.prefix EmptyString s = true.
Proof. by destruct s. Qed.

Lemma prefix_trans a b c :
  String.prefix a b = true → String.prefix b c = true → String.prefix a c = true.
Proof.
  revert b c. induction a as [|x a IH]; intros b c Hab Hbc; [apply prefix_empty_l|].
  destruct b as [|y b]; [done|]. destruct c as [|z c]; [done|].
  simpl in *. destruct (ascii_dec x y) as [->|]; [|done].
  destruct (ascii_dec y z) as [->|]; [|done]. eauto.
Qed.

Lemma prefix_cons c a b :
  String.prefix (String c a) (String c b) = String.prefix a b.
Proof. simpl. by destruct (ascii_dec c c). Qed.

Lemma contains_char_cons c d s :
  PyStr.contains (String c EmptyString) (String d s)
  = Ascii.eqb c d || PyStr.contains (String c EmptyString) s.
Proof.
  simpl. destruct (ascii_dec c d) as [->|Hne].
  - by rewrite prefix_empty_l, Ascii.eqb_refl.
  - by destruct (Ascii.eqb_spec c d).
Qed.

Lemma remove_char_absent c s :
  PyStr.contains (String c EmptyString) (PyStr.remove_char c s) = false.
Proof.
  induction s as [|d s IH]; [done|].
  cbn [PyStr.remove_char]. destruct (Ascii.eqb c d) eqn:Hcd; [done|].
  by rewrite contains_char_cons, Hcd, IH.
Qed.

Lemma remove_char_keeps_absent c d s :
  PyStr.contains (String c EmptyString) s = false →
  PyStr.contains (String c EmptyString) (PyStr.remove_char d s) = false.
Proof.
  induction s as [|x s IH]; [done|].
  rewrite contains_char_cons. intros [Hcx Hs]%orb_false_iff.
  cbn [PyStr.remove_char]. destruct (Ascii.eqb d x); [by apply IH|].
  rewrite contains_char_cons, Hcx. by apply IH.
Qed.

Lemma remove_char_id c s :
  PyStr.contains (String c EmptyString) s = false → PyStr.remove_char c s = s.
Proof.
  induction s as [|x s IH]; [done|].
  rewrite contains_char_cons. intros [Hcx Hs]%orb_false_iff.
  cbn [PyStr.remove_char]. rewrite Hcx. by rewrite IH.
Qed.

Lemma before_first_nil sep : PyStr.before_first sep EmptyString = EmptyString.
Proof. by destruct sep. Qed.

Lemma before_first_prefix sep s :
  String.prefix (PyStr.before_first sep s) s = true.
Proof.
  induction s as [|x s IH].
  - by rewrite before_first_nil.
  - cbn [PyStr.before_first]. destruct (String.prefix sep (String x s)); [done|].
    by rewrite prefix_cons.
Qed.

Lemma before_first_no_sep sep s :
  sep ≠ EmptyString → PyStr.contains sep (PyStr.before_first sep s) = false.
Proof.
  intros Hsep.
  assert (PyStr.contains sep EmptyString = false) as Hnil.
  { destruct sep; [done|]. done. }
  induction s as [|x s IH].
  - by rewrite before_first_nil.
  - cbn [PyStr.before_first].
    destruct (String.prefix sep (String x s)) eqn:Hpre; [done|].
    cbn [PyStr.contains]. rewrite IH.
    destruct (String.prefix sep (String x (PyStr.before_first sep s))) eqn:Hp;
      [|done].
    rewrite <-Hpre. symmetry. apply (prefix_trans _ _ _ Hp).
    rewrite prefix_cons. apply before_first_prefix.
Qed.

Lemma before_first_id sep s :
  PyStr.contains sep s = false → PyStr.before_first sep s = s.
Proof.
  induction s as [|x s IH].
  - by rewrite before_first_nil.
  - cbn [PyStr.before_first PyStr.contains].
    destruct (String.prefix sep (String x s)); [done|]. intros Hs. by rewrite IH.
Qed.

Lemma before_first_keeps_absent c sep s :
  PyStr.contains (String c EmptyString) s = false →
  PyStr.contains (String c EmptyString) (PyStr.before_first sep s) = false.
Proof.
  induction s as [|x s IH].
  - by rewrite before_first_nil.
  - rewrite contains_char_cons. intros [Hcx Hs]%orb_false_iff.
    cbn [PyStr.before_first]. destruct (String.prefix sep (String x s)); [done|].
    rewrite contains_char_cons, Hcx. by apply IH.
Qed.

(** ** Post-processing of generated text *)

(** X19: a caption returned by [caption_postprocess] never holds a double
    quote; a caption of the ['idefics'] branch holds no line feed either. *)
Theorem caption_postprocess_no_quote (text model_name r : string) :
  caption_postprocess text model_name = Ok (Some r) →
  PyStr.contains (String PyStr.dquote EmptyString) r = false
  ∧ (PyStr.contains "flamingo" model_name = false →
     PyStr.contains (String PyStr.newline EmptyString) r = false).
Proof.
  unfold caption_postprocess.
  destruct (PyStr.contains "flamingo" model_name).
  - intros [= <-]. split; [apply remove_char_absent|done].
  - destruct (PyStr.contains "idefics" model_name); [|done].
    intros [= <-]. split; [|intros _; apply remove_char_absent].
    apply remove_char_keeps_absent, remove_char_absent.
Qed.

Lemma caption_postprocess_no_quote_witness :
  PyStr.contains (String PyStr.dquote EmptyString) "A cat." = false
  ∧ (PyStr.contains "flamingo" "idefics" = false →
     PyStr.contains (String PyStr.newline EmptyString) "A cat." = false).
Proof.
  apply (caption_postprocess_no_quote quoted_cat_text "idefics" "A cat.").
  reflexivity.
Defined.

(** X20: on a text without double quotes, [caption_postprocess] only cuts:
    for a ['flamingo'] model the caption is a prefix of the text that does
    not hold ["Output"], and it is the text itself when the text does not
    hold ["Output"]; the same holds for an ['idefics'] model and
    ["Caption"] when the text has no line feed either. *)
Theorem caption_postprocess_clean_text (text model_name : string) :
  PyStr.contains (String PyStr.dquote EmptyString) text = false →
  (PyStr.contains "flamingo" model_name = true →
   ∃ r, caption_postprocess text model_name = Ok (Some r)
        ∧ String.prefix r text = true
        ∧ PyStr.contains "Output" r = false
        ∧ (PyStr.contains "Output" text = false → r = text))
  ∧ (PyStr.contains "flamingo" model_name = false →
     PyStr.contains "idefics" model_name = true →
     PyStr.contains (String PyStr.newline EmptyString) text = false →
     ∃ r, caption_postprocess text model_name = Ok (Some r)
          ∧ String.prefix r text = true
          ∧ PyStr.contains "Caption" r = false
          ∧ (PyStr.contains "Caption" text = false → r = text)).
Proof.
  intros Hquote. unfold caption_postprocess. split.
  - intros ->. eexists. split; [done|].
    rewrite remove_char_id by by apply before_first_keeps_absent.
    split; [apply before_first_prefix|]. split; [by apply before_first_no_sep|].
    apply before_first_id.
  - intros -> -> Hnl. eexists. split; [done|].
    rewrite (remove_char_id PyStr.dquote) by by apply before_first_keeps_absent.
    rewrite remove_char_id by by apply before_first_keeps_absent.
    split; [apply before_first_prefix|]. split; [by apply before_first_no_sep|].
    apply before_first_id.
Qed.

Lemma caption_postprocess_clean_text_witness :
  ∃ r, caption_postprocess "A dog.Output extra" "open_flamingo_9B" = Ok (Some r)
       ∧ String.prefix r "A dog.Output extra" = true
       ∧ PyStr.contains "Output" r = false
       ∧ (PyStr.contains "Output" "A dog.Output extra" = false →
          r = "A dog.Output extra").
Proof.
  apply (proj1 (caption_postprocess_clean_text "A dog.Output extra"
                  "open_flamingo_9B" eq_refl)).
  reflexivity.
Defined.

(** The quotes are removed after the cut: a marker that only appears once
    the quotes are gone stays in the caption. *)
Example caption_postprocess_marker_survives :
  caption_postprocess (String "O" (String "u" (String "t" (String PyStr.dquote "put"))))
    "flamingo"
  = Ok (Some "Output").
Proof. reflexivity. Qed.

(** X21: [vqa_postprocess] returns the post-processed answer for a
    ['flamingo'] model; for an ['idefics'] model the answer has no line
    feed, and is the same answer when that one has none; for any other model
    name it raises nothing and returns [None]. *)
Theorem vqa_postprocess_outcomes (postprocess_vqa_generation : string → string)
    (text model_name : string) :
  (PyStr.contains "flamingo" model_name = true →
   vqa_postprocess postprocess_vqa_generation text model_name
   = Ok (Some (postprocess_vqa_generation text)))
  ∧ (PyStr.contains "flamingo" model_name = false →
     PyStr.contains "idefics" model_name = true →
     ∃ r, vqa_postprocess postprocess_vqa_generation text model_name = Ok (Some r)
          ∧ PyStr.contains (String PyStr.newline EmptyString) r = false
          ∧ (PyStr.contains (String PyStr.newline EmptyString)
               (postprocess_vqa_generation text) = false →
             r = postprocess_vqa_generation text))
  ∧ (PyStr.contains "flamingo" model_name = false →
     PyStr.contains "idefics" model_name = false →
     vqa_postprocess postprocess_vqa_generation text model_name = Ok None).
Proof.
  unfold vqa_postprocess. split; [by intros ->|]. split.
  - intros -> ->. eexists. split; [done|].
    split; [apply remove_char_absent|apply remove_char_id].
  - by intros -> ->.
Qed.

Lemma vqa_postprocess_outcomes_witness :
  ∃ r, vqa_postprocess (λ s, s) (String "a" (String PyStr.newline "b")) "idefics_9B"
       = Ok (Some r)
       ∧ PyStr.contains (String PyStr.newline EmptyString) r = false
       ∧ (PyStr.contains (String PyStr.newline EmptyString)
            (String "a" (String PyStr.newline "b")) = false →
          r = String "a" (String PyStr.newline "b")).
Proof.
  apply (proj1 (proj2 (vqa_postprocess_outcomes (λ s, s)
                         (String "a" (String PyStr.newline "b")) "idefics_9B")));
    reflexivity.
Defined.

(** X22: [inference_cider] post-processes a prediction exactly as
    [caption_postprocess] does for a ['flamingo'] model: for the same
    generations it hands the metric the records that [get_cider_score]
    builds, one for every entry of the dict, in its order. *)
Theorem inference_cider_records {Inferencer Retriever Template score : Type}
    (inference : Inferencer → Retriever → Template → string → OutputDict)
    (compute_cider_total : list Pred → string → score)
    (inferencer : Inferencer) (retriever : Retriever) (ice_prompt : Template)
    (val_ann_path output_json_filename model_name : string) :
  PyStr.contains "flamingo" model_name = true →
  accumulated_pred_coco model_name
    (inference inferencer retriever ice_prompt output_json_filename)
  = Ok (inference_pred_coco
          (inference inferencer retriever ice_prompt output_json_filename))
  ∧ inference_cider inference compute_cider_total inferencer retriever ice_prompt
      val_ann_path output_json_filename
    = compute_cider_total
        (pred_coco_of model_name
           (inference inferencer retriever ice_prompt output_json_filename))
        val_ann_path
  ∧ map fst (inference_pred_coco
               (inference inferencer retriever ice_prompt output_json_filename))
    = map (λ entry, snd (snd entry))
        (inference inferencer retriever ice_prompt output_json_filename).
Proof.
  intros Hf.
  set (od := inference inferencer retriever ice_prompt output_json_filename).
  assert (inference_pred_coco od = pred_coco_of model_name od) as Heq.
  { unfold inference_pred_coco, pred_coco_of. apply map_ext.
    intros [k [prediction img]]. unfold postprocessed, caption_postprocess.
    by rewrite Hf. }
  split; [by rewrite accumulated_pred_coco_ok, Heq|].
  split; [unfold inference_cider; by rewrite <-Heq|].
  unfold inference_pred_coco. rewrite map_map. apply map_ext.
  by intros [k [prediction img]].
Qed.

Lemma inference_cider_records_witness :
  accumulated_pred_coco "flamingo"
    [(0, ("A dog.Output extra", 100)); (1, ("two dogs", 101))]
  = Ok (inference_pred_coco
          [(0, ("A dog.Output extra", 100)); (1, ("two dogs", 101))]).
Proof.
  apply (proj1 (inference_cider_records
                  (λ (_ _ _ : unit) (_ : string),
                     [(0, ("A dog.Output extra", 100)); (1, ("two dogs", 101))])
                  (λ _ _, tt) tt tt tt "val.json" "out.json" "flamingo" eq_refl)).
Defined.

(** ** [iclm_gene_ice] *)

Section IclmGeneIceFacts.

Context {Data Pixels : Type}.
Variable pixel_values : Data → Pixels.
Variable generation : Pixels → Z → Z → list (list Z).

Lemma iclm_gene_ice_loop_spec (ds : list Data) shot_num acc l :
  iclm_gene_ice_loop pixel_values generation ds shot_num acc = Return l
  ↔ ∃ rs, l = acc ++ rs ∧ Forall2 (ice_of pixel_values generation shot_num) ds rs.
Proof.
  revert acc. induction ds as [|data ds IH]; intros acc; simpl.
  { split.
    - intros [= <-]. exists []. by rewrite app_nil_r.
    - intros (rs & -> & Hrs). inversion Hrs. by rewrite app_nil_r. }
  unfold py_nth.
  destruct (generation _ _ _ !! 0%nat) as [res|] eqn:Hres.
  2:{ split; [done|]. intros (rs & _ & Hrs). inversion Hrs as [|? r ? ? Hr]; subst.
      destruct Hr as (res & Hres' & _). congruence. }
  destruct (Z.eqb_spec (Z.of_nat (length (drop 2 res))) shot_num) as [Hlen|Hlen].
  - rewrite IH. split.
    + intros (rs & -> & Hrs). exists (drop 2 res :: rs).
      split; [by rewrite <-app_assoc|]. constructor; [|done]. by exists res.
    + intros (rs & -> & Hrs). inversion Hrs as [|? r ? rs' Hr Hrs']; subst.
      destruct Hr as (res' & Hres' & -> & _).
      assert (res' = res) as -> by congruence.
      exists rs'. split; [by rewrite <-app_assoc|done].
  - split; [done|]. intros (rs & _ & Hrs). inversion Hrs as [|? r ? ? Hr]; subst.
    destruct Hr as (res' & Hres' & -> & Hlen').
    assert (res' = res) as -> by congruence. done.
Qed.

End IclmGeneIceFacts.

(** X23: [iclm_gene_ice] returns exactly when, for every datum, the first
    generated sequence has [shot_num] tokens after its two leading ones;
    the result then has one entry for every datum, in order, each of length
    [shot_num]: that sequence without the two leading tokens. The
    generation runs with one beam when [shot_num] is 1 and with ten
    otherwise. *)
Theorem iclm_gene_ice_returns {Data Pixels : Type} (pixel_values : Data → Pixels)
    (generation : Pixels → Z → Z → list (list Z))
    (ds : list Data) (shot_num : Z) (l : list (list Z)) :
  (iclm_gene_ice pixel_values generation ds shot_num = Return l
   ↔ Forall2 (ice_of pixel_values generation shot_num) ds l)
  ∧ (iclm_gene_ice pixel_values generation ds shot_num = Return l →
     length l = length ds ∧ Forall (λ r, Z.of_nat (length r) = shot_num) l).
Proof.
  assert (iclm_gene_ice pixel_values generation ds shot_num = Return l
          ↔ Forall2 (ice_of pixel_values generation shot_num) ds l) as Hiff.
  { unfold iclm_gene_ice. rewrite iclm_gene_ice_loop_spec. simpl. split.
    - by intros (rs & -> & Hrs).
    - intros Hrs. by exists l. }
  split; [done|]. intros Hrun. apply Hiff in Hrun.
  split; [symmetry; by eapply Forall2_length|].
  apply Forall_forall. intros r Hr.
  apply list_elem_of_lookup in Hr as [i Hi].
  destruct (Forall2_lookup_r _ _ _ _ _ Hrun Hi) as (data & _ & res & _ & _ & Hlen).
  done.
Qed.

Lemma iclm_gene_ice_returns_witness :
  length [[7; 8]; [7; 8]] = length [tt; tt]
  ∧ Forall (λ r, Z.of_nat (length r) = 2) [[7; 8]; [7; 8]].
Proof.
  apply (proj2 (iclm_gene_ice_returns (λ _ : unit, tt)
                  (λ _ _ _, [[118288; 118289; 7; 8]]) [tt; tt] 2 [[7; 8]; [7; 8]])).
  reflexivity.
Defined.

(** X24: [iclm_gene_ice] stops at the first datum whose generated sequence
    has not [shot_num] tokens after the two leading ones: it raises the
    assertion error with the length found, whatever data follow. A negative
    [shot_num] therefore never returns on a non-empty dataset. *)
Theorem iclm_gene_ice_assertion {Data Pixels : Type} (pixel_values : Data → Pixels)
    (generation : Pixels → Z → Z → list (list Z))
    (pre post : list Data) (data : Data) (shot_num : Z)
    (ices : list (list Z)) (res : list Z) :
  Forall2 (ice_of pixel_values generation shot_num) pre ices →
  generation (pixel_values data) (if shot_num =? 1 then 1 else 10) shot_num
    !! 0%nat = Some res →
  Z.of_nat (length (drop 2 res)) ≠ shot_num →
  iclm_gene_ice pixel_values generation (pre ++ data :: post) shot_num
  = Throw (AssertionError (length (drop 2 res))).
Proof.
  intros Hpre Hres Hlen. unfold iclm_gene_ice. generalize (@nil (list Z)).
  induction Hpre as [|d r pre ices (res' & Hres' & -> & Hr) _ IH]; intros acc.
  - simpl. unfold py_nth. rewrite Hres.
    by destruct (Z.eqb_spec (Z.of_nat (length (drop 2 res))) shot_num).
  - simpl. unfold py_nth. rewrite Hres'.
    destruct (Z.eqb_spec (Z.of_nat (length (drop 2 res'))) shot_num); [|done].
    apply IH.
Qed.

Lemma iclm_gene_ice_assertion_witness :
  iclm_gene_ice (λ n : nat, n)
    (λ n _ _, if Nat.eqb n 0 then [[118288; 118289; 7; 8]] else [[118288; 118289; 7]])
    ([0%nat] ++ 1%nat :: [0%nat]) 2
  = Throw (AssertionError (length (drop 2 [118288; 118289; 7]))).
Proof.
  apply (iclm_gene_ice_assertion (λ n : nat, n)
           (λ n _ _, if Nat.eqb n 0 then [[118288; 118289; 7; 8]]
                     else [[118288; 118289; 7]])
           [0%nat] [0%nat] 1%nat 2 [[7; 8]] [118288; 118289; 7]).
  - constructor; [|constructor]. by exists [118288; 118289; 7; 8].
  - reflexivity.
  - simpl. lia.
Defined.

(** ** [encode_text] and [encode_image] *)

Section EncodeFacts.

Context {vec Img : Type}.
Variable normalize : vec → vec.
Variable text_embeds : list string → list vec.
Variable open_image : string → Img.
Variable image_embeds : list Img → list vec.

Lemma encode_text_loop_spec batches acc :
  encode_text_loop normalize text_embeds batches acc
  = acc ++ map (λ batch, map normalize (text_embeds batch)) batches.
Proof.
  revert acc. induction batches as [|b batches IH]; intros acc; simpl.
  - by rewrite app_nil_r.
  - by rewrite IH, <-app_assoc.
Qed.

Lemma encode_image_loop_spec batches acc :
  encode_image_loop normalize open_image image_embeds batches acc
  = acc ++ map (λ batch, map normalize (image_embeds (map open_image batch))) batches.
Proof.
  revert acc. induction batches as [|b batches IH]; intros acc; simpl.
  - by rewrite app_nil_r.
  - by rewrite IH, <-app_assoc.
Qed.

Lemma concat_map_map {A B} (f : A → B) (ls : list (list A)) :
  concat (map (map f) ls) = map f (concat ls).
Proof.
  induction ls as [|l ls IH]; simpl; [done|]. by rewrite IH, map_app.
Qed.

End EncodeFacts.

(** X25: [encode_text] and [encode_image] cannot encode an empty list, and
    nothing with a batch size of zero: no batch is formed and [torch.cat]
    raises on the empty list of features; a negative batch size raises the
    [ValueError] of [islice]. *)
Theorem encode_nothing {vec Img : Type} (normalize : vec → vec)
    (text_embeds : list string → list vec) (open_image : string → Img)
    (image_embeds : list Img → list vec) (l : list string) (batch_size : Z) :
  (l = [] ∧ 0 ≤ batch_size) ∨ batch_size ≤ 0 →
  encode_text normalize text_embeds l batch_size
  = Raise (if batch_size <? 0 then ValueError_islice else RuntimeError_cat_empty)
  ∧ encode_image normalize open_image image_embeds l batch_size
    = Raise (if batch_size <? 0 then ValueError_islice else RuntimeError_cat_empty).
Proof.
  intros Hcase.
  assert (chunked l batch_size
          = if batch_size <? 0 then Raise ValueError_islice else Ok []) as Hch.
  { unfold chunked. destruct (Z.ltb_spec batch_size 0); [done|].
    destruct Hcase as [[-> _]|Hle].
    - simpl. by rewrite take_nil.
    - assert (batch_size = 0) as -> by lia. done. }
  unfold encode_text, encode_image. rewrite Hch.
  by destruct (batch_size <? 0).
Qed.

Lemma encode_nothing_witness :
  encode_text (λ v : Z, v) (map (λ s, Z.of_nat (String.length s))) [] 128
  = Raise RuntimeError_cat_empty
  ∧ encode_image (λ v : Z, v) (λ s : string, s)
      (map (λ s, Z.of_nat (String.length s))) [] 128
    = Raise RuntimeError_cat_empty.
Proof.
  apply (encode_nothing (λ v : Z, v) (map (λ s, Z.of_nat (String.length s)))
           (λ s : string, s) (map (λ s, Z.of_nat (String.length s))) [] 128).
  left. split; [reflexivity|lia].
Defined.

(** X26: when the model embeds every element of a batch on its own,
    [encode_text] and [encode_image] return, for a non-empty list and a
    batch size of at least one, one normalized row for every element, in
    the order of the list; the batch size does not change the result. *)
Theorem encode_rows {vec Img : Type} (normalize : vec → vec)
    (text_embeds : list string → list vec) (open_image : string → Img)
    (image_embeds : list Img → list vec)
    (embed_text : string → vec) (embed_image : Img → vec)
    (l : list string) (batch_size : Z) :
  l ≠ [] → 1 ≤ batch_size →
  ((∀ batch, text_embeds batch = map embed_text batch) →
   encode_text normalize text_embeds l batch_size
   = Ok (map (λ text, normalize (embed_text text)) l))
  ∧ ((∀ images, image_embeds images = map embed_image images) →
     encode_image normalize open_image image_embeds l batch_size
     = Ok (map (λ image, normalize (embed_image (open_image image))) l)).
Proof.
  intros Hne Hbs.
  destruct (chunked_spec l batch_size Hbs) as (bs & Hch & Hcat & _).
  assert (bs ≠ []) as Hbsne by (intros ->; by simpl in Hcat).
  unfold encode_text, encode_image. rewrite Hch. simpl. split.
  - intros Hlaw. rewrite encode_text_loop_spec.
    destruct bs as [|b bs]; [done|]. cbn [map app]. rewrite torch_cat_cons.
    change (?x :: map ?f bs) with (map f (b :: bs)).
    rewrite (map_ext _ (map (λ text, normalize (embed_text text)))).
    + by rewrite concat_map_map, Hcat.
    + intros batch. by rewrite Hlaw, map_map.
  - intros Hlaw. rewrite encode_image_loop_spec.
    destruct bs as [|b bs]; [done|]. cbn [map app]. rewrite torch_cat_cons.
    change (?x :: map ?f bs) with (map f (b :: bs)).
    rewrite (map_ext _ (map (λ image, normalize (embed_image (open_image image))))).
    + by rewrite concat_map_map, Hcat.
    + intros batch. by rewrite Hlaw, !map_map.
Qed.

Lemma encode_rows_witness :
  encode_text (λ v : Z, v + 1) (map (λ s, Z.of_nat (String.length s)))
    ["a dog"; "two dogs"; "a bird"] 2
  = Ok (map (λ text, Z.of_nat (String.length text) + 1)
          ["a dog"; "two dogs"; "a bird"]).
Proof.
  apply (proj1 (encode_rows (λ v : Z, v + 1)
                  (map (λ s, Z.of_nat (String.length s))) (λ s : string, s)
                  (map (λ s, Z.of_nat (String.length s)))
                  (λ s, Z.of_nat (String.length s))
                  (λ s, Z.of_nat (String.length s))
                  ["a dog"; "two dogs"; "a bird"] 2 ltac:(discriminate) ltac:(lia))).
  intros batch. reflexivity.
Defined.

(** ** [encode_dataset] *)

Section EncodeDatasetFacts.

Context {Item Hidden feature : Type}.
Variable item_idx : Item → Z.
Variable forward : string → list Item → Hidden.
Variables pool_last pool_mean pool_first : Hidden → list feature.









Lemma cast_type_invalid precision :
  precision ∉ ["fp16"; "bf16"; "fp32"] →
  cast_type precision = Throw (ValueError_precision precision).
Proof.
  rewrite !not_elem_of_cons. intros (H1 & H2 & H3 & _). unfold cast_type.
  destruct (String.eqb_spec precision "fp16"); [done|].
  destruct (String.eqb_spec precision "bf16"); [done|].
  by destruct (String.eqb_spec precision "fp32").
Qed.

(** X27: The cache decides alone. A call on a missing cache file that
    returns a map has written that very map; a call that raises has written
    nothing. Once the file exists, every later call returns its content,
    whatever the dataset, the pooling method, the batch size and the
    precision it is given: none of them is looked at, not even checked. *)
Theorem encode_dataset_cache coco_dataset pool_method batch_size precision
    cache' out :
  encode_dataset item_idx forward pool_last pool_mean pool_first
    None coco_dataset pool_method batch_size precision
  = (cache', out) →
  match out with
  | Return m =>
      cache' = Some m
      ∧ ∀ coco_dataset' pool_method' batch_size' precision',
          encode_dataset item_idx forward pool_last pool_mean pool_first
            cache' coco_dataset' pool_method' batch_size' precision'
          = (cache', Return m)
  | Throw _ => cache' = None
  end.
Proof.
  unfold encode_dataset.
  destruct (cast_type precision); [|by intros [= <- <-]].
  destruct (call_context _); [|by intros [= <- <-]].
  destruct (chunked _ _); [|by intros [= <- <-]].
  destruct (encode_dataset_loop _ _ _ _ _ _ _ _ _) as [m|e];
    intros [= <- <-]; [|done].
  split; [done|]. done.
Qed.



(** X29: A precision outside 'fp16', 'bf16' and 'fp32' makes a call on a
    missing cache raise the ValueError of cast_type, before the dataset, the
    batch size or the pooling method are looked at; no cache is written. *)
Theorem encode_dataset_invalid_precision coco_dataset pool_method batch_size
    precision :
  precision ∉ ["fp16"; "bf16"; "fp32"] →
  encode_dataset item_idx forward pool_last pool_mean pool_first
    None coco_dataset pool_method batch_size precision
  = (None, Throw (ValueError_precision precision)).
Proof.
  intros Hprec. unfold encode_dataset.
  by rewrite cast_type_invalid.
Qed.


End EncodeDatasetFacts.

Lemma encode_dataset_cache_witness :
  encode_dataset id Sample.hidden Sample.pool Sample.pool
    Sample.pool (Some Sample.embeddings) [] "max" (-1) "int8"
  = (Some Sample.embeddings, Return Sample.embeddings).
Proof.
  apply (encode_dataset_cache id Sample.hidden Sample.pool
           Sample.pool Sample.pool [3; 5] "last" 1 "fp32"
           (Some Sample.embeddings) (Return Sample.embeddings)).
  reflexivity.
Defined.


Lemma encode_dataset_invalid_precision_witness :
  encode_dataset id Sample.hidden Sample.pool Sample.pool
    Sample.pool None [3; 5] "last" 2 "int8"
  = (None, Throw (ValueError_precision "int8")).
Proof.
  apply (encode_dataset_invalid_precision id Sample.hidden
           Sample.pool Sample.pool Sample.pool [3; 5] "last" 2 "int8").
  rewrite list_elem_of_In. simpl. intros [H|[H|[H|[]]]]; discriminate H.
Defined.


(** With precision 'fp16' a call on a missing cache raises at the autocast
    object, whatever the pooling method. *)
Example encode_dataset_fp16 :
  encode_dataset id Sample.hidden Sample.pool Sample.pool Sample.pool None [3; 5]
    "last" 2 "fp16"
  = (None, Throw (Core TypeError))
  ∧ encode_dataset id Sample.hidden Sample.pool Sample.pool Sample.pool None [3; 5]
      "max" 2 "fp16"
    = (None, Throw (Core TypeError)).
Proof. split; reflexivity. Qed.
